(** * MapAI: mesh decomposition and layer ingestion

    A shallow embedding of the mesh codec ([meshCode250]), the grid tiler
    ([buildMeshCells]), the geometry clipper ([buildLineMeshPieces],
    [buildPolygonMeshPieces]) and the layer ingestion pipeline
    ([processLayer], [ingestFile]) of the MapAI repository.

    The TypeScript sources compute on JavaScript numbers.  The arithmetic
    of the sources is written once, over the interface [JSNumber], and is
    read at two instances:
    - [Q]: exact rational arithmetic, where the algorithms are studied for
      all inputs;
    - [float]: IEEE 754 binary64, the numbers the program really runs on,
      where the sources are evaluated at concrete inputs. *)

From Stdlib Require Import ZArith QArith Qround Lia Lqa.
From Stdlib Require Import String Ascii DecimalString.
From Stdlib Require Import Floats.PrimFloat Floats.FloatOps Floats.SpecFloat.
From Stdlib Require Import Uint63.
From stdpp Require Import gmap strings list fin_maps.

Local Open Scope Z_scope.
Local Open Scope string_scope.

(* ================================================================== *)
(** * Part I.  The model                                              *)
(* ================================================================== *)

(** ** JavaScript numbers *)

(** The operations on numbers that the sources use. [floor], [ceil],
    [jsmin] and [jsmax] are [Math.floor], [Math.ceil], [Math.min] and
    [Math.max]; [ltb], [gtb] and [geb] are [<], [>] and [>=]; [truthy x]
    is the negation of [!x]; [toZ] is the integer part used to bound the
    number of turns of a counting loop; [toString] is the conversion that
    a template literal and [String(...)] apply. *)
Class JSNumber (num : Type) : Type := {
  ofZ : Z -> num;
  add : num -> num -> num;
  sub : num -> num -> num;
  mul : num -> num -> num;
  div : num -> num -> num;
  floor : num -> num;
  ceil : num -> num;
  jsmin : num -> num -> num;
  jsmax : num -> num -> num;
  ltb : num -> num -> bool;
  gtb : num -> num -> bool;
  geb : num -> num -> bool;
  leb : num -> num -> bool;
  truthy : num -> bool;
  isNaN : num -> bool;
  toZ : num -> Z;
  toString : num -> string
}.

Declare Scope js_scope.
Delimit Scope js_scope with js.
Infix "+" := add : js_scope.
Infix "-" := sub : js_scope.
Infix "*" := mul : js_scope.
Infix "/" := div : js_scope.
Infix "<?" := ltb : js_scope.
Infix ">?" := gtb : js_scope.
Infix ">=?" := geb : js_scope.
Infix "<=?" := leb : js_scope.

(** A decimal literal [m / 10^e] of the sources, such as [7.5] or
    [29.999999].  Over [float] the quotient of two exactly representable
    integers is correctly rounded, which is how a decimal literal is
    read. *)
Definition lit {num} `{JSNumber num} (m : Z) (e : nat) : num :=
  div (ofZ m) (ofZ (10 ^ Z.of_nat e)).

(** Decimal text of an integer; a negative one starts with a minus sign. *)
Definition string_of_Z (z : Z) : string :=
  NilZero.string_of_int (Z.to_int z).

(** [String.prototype.padStart(n, "0")]. *)
Fixpoint zeros (n : nat) : string :=
  match n with
  | O => EmptyString
  | S k => String "0" (zeros k)
  end.

Definition padStart0 (n : nat) (s : string) : string :=
  zeros (n - String.length s) ++ s.

(** *** Exact rationals *)

Definition Qltb (a b : Q) : bool := negb (Qle_bool b a).

Definition Q_toString (x : Q) : string :=
  let y := Qred x in
  if (Zpos (Qden y) =? 1)%Z then string_of_Z (Qnum y)
  else string_of_Z (Qnum y) ++ "/" ++ string_of_Z (Zpos (Qden y)).

#[export] Instance Q_JSNumber : JSNumber Q := {|
  ofZ := inject_Z;
  add := Qplus;
  sub := Qminus;
  mul := Qmult;
  div := Qdiv;
  floor := fun x => inject_Z (Qfloor x);
  ceil := fun x => inject_Z (Qceiling x);
  jsmin := fun a b => if Qle_bool a b then a else b;
  jsmax := fun a b => if Qle_bool a b then b else a;
  ltb := Qltb;
  gtb := fun a b => Qltb b a;
  geb := fun a b => Qle_bool b a;
  leb := Qle_bool;
  truthy := fun x => negb (Qeq_bool x 0);
  isNaN := fun _ => false;
  toZ := Qfloor;
  toString := Q_toString
|}.

(** *** IEEE 754 binary64 *)

(** An integer of magnitude below [2^53] as a float (exact). *)
Definition float_of_Z (z : Z) : float :=
  let a := PrimFloat.of_uint63 (Uint63.of_Z (Z.abs z)) in
  if (z <? 0)%Z then PrimFloat.opp a else a.

(** The signed mantissa of a finite float. *)
Definition signed (s : bool) (m : positive) : Z :=
  if s then Z.neg m else Z.pos m.

(** [Math.floor]: a float with a nonnegative exponent, a zero, an
    infinity and NaN are returned as they are; otherwise the mantissa is
    shifted right, which rounds towards minus infinity. *)
Definition float_floor (x : float) : float :=
  match Prim2SF x with
  | S754_finite s m e =>
      if (0 <=? e)%Z then x
      else float_of_Z (Z.shiftr (signed s m) (- e))
  | _ => x
  end.

Definition float_ceil (x : float) : float :=
  PrimFloat.opp (float_floor (PrimFloat.opp x)).

(** [Math.max] and [Math.min]: NaN is contagious and [+0] is above [-0]. *)
Definition float_max (a b : float) : float :=
  if PrimFloat.is_nan a then a
  else if PrimFloat.is_nan b then b
  else if PrimFloat.ltb a b then b
  else if PrimFloat.ltb b a then a
  else if PrimFloat.get_sign a then b else a.

Definition float_min (a b : float) : float :=
  if PrimFloat.is_nan a then a
  else if PrimFloat.is_nan b then b
  else if PrimFloat.ltb a b then a
  else if PrimFloat.ltb b a then b
  else if PrimFloat.get_sign a then a else b.

(** The integer part (towards minus infinity) of a finite float, [0] for
    NaN and the infinities. *)
Definition float_toZ (x : float) : Z :=
  match Prim2SF x with
  | S754_finite s m e =>
      if (0 <=? e)%Z then signed s m * 2 ^ e
      else Z.shiftr (signed s m) (- e)
  | _ => 0
  end.

Definition float_is_integer (x : float) : bool :=
  match Prim2SF x with
  | S754_zero _ => true
  | S754_finite s m e =>
      (0 <=? e)%Z || (Z.land (Z.pos m) (Z.ones (- e)) =? 0)%Z
  | _ => false
  end.

(** [Number.prototype.toString] on the values that the sources turn into
    text: NaN, the infinities and integers (an integer of magnitude
    [10^21] or more, and a number with a fractional part, are printed by
    JavaScript in a shortest round-trip form that is not modelled; no
    function of the sources turns such a number into text when its
    arguments are finite coordinates). *)
Definition float_toString (x : float) : string :=
  match Prim2SF x with
  | S754_nan => "NaN"
  | S754_infinity false => "Infinity"
  | S754_infinity true => "-Infinity"
  | _ =>
      if float_is_integer x then string_of_Z (float_toZ x)
      else string_of_Z (float_toZ x) ++ ".?"
  end.

#[export] Instance float_JSNumber : JSNumber float := {|
  ofZ := float_of_Z;
  add := PrimFloat.add;
  sub := PrimFloat.sub;
  mul := PrimFloat.mul;
  div := PrimFloat.div;
  floor := float_floor;
  ceil := float_ceil;
  jsmin := float_min;
  jsmax := float_max;
  ltb := PrimFloat.ltb;
  gtb := fun a b => PrimFloat.ltb b a;
  geb := fun a b => PrimFloat.leb b a;
  leb := PrimFloat.leb;
  truthy := fun x => negb (PrimFloat.is_zero x || PrimFloat.is_nan x);
  isNaN := PrimFloat.is_nan;
  toZ := float_toZ;
  toString := float_toString
|}.

(** The exact rational value of a finite float. *)
Definition float_toQ (x : float) : Q :=
  match Prim2SF x with
  | S754_finite s m e =>
      if (0 <=? e)%Z then inject_Z (signed s m * 2 ^ e)
      else Qmake (signed s m) (Z.to_pos (2 ^ (- e)))
  | _ => 0%Q
  end.

(** ** MeshCodec *)

Section MeshCodec.
Context {num : Type} `{JSNumber num}.
Local Open Scope js_scope.

(** [meshCode250] of [backend/src/utils/jisMesh.ts]. *)
Definition meshCode250 (lat lon : num) : string :=
  let p := floor (lat * lit 15 1) in
  let q := floor lon - ofZ 100 in
  let latMinutes := lat * ofZ 60 in
  let lonMinutes := lon * ofZ 60 in
  let r := floor ((latMinutes - p * ofZ 40) / ofZ 5) in
  let s := floor ((lonMinutes - floor lon * ofZ 60) / lit 75 1) in
  let t := floor (((latMinutes - p * ofZ 40 - r * ofZ 5) * ofZ 60) / ofZ 30) in
  let u :=
    floor (((lonMinutes - floor lon * ofZ 60 - s * lit 75 1) * ofZ 60)
           / ofZ 45) in
  let latSeconds := lat * ofZ 3600 in
  let lonSeconds := lon * ofZ 3600 in
  let latBaseSeconds := p * ofZ 2400 + r * ofZ 300 + t * ofZ 30 in
  let lonBaseSeconds := (q + ofZ 100) * ofZ 3600 + s * ofZ 450 + u * ofZ 45 in
  let latSecIn1km :=
    jsmin (lit 29999999 6) (jsmax (ofZ 0) (latSeconds - latBaseSeconds)) in
  let lonSecIn1km :=
    jsmin (lit 44999999 6) (jsmax (ofZ 0) (lonSeconds - lonBaseSeconds)) in
  let latHalf := floor (latSecIn1km / ofZ 15) in
  let lonHalf := floor (lonSecIn1km / lit 225 1) in
  let halfDigit := latHalf * ofZ 2 + lonHalf + ofZ 1 in
  let latSecInHalf := latSecIn1km - latHalf * ofZ 15 in
  let lonSecInHalf := lonSecIn1km - lonHalf * lit 225 1 in
  let latQuarter := floor (latSecInHalf / lit 75 1) in
  let lonQuarter := floor (lonSecInHalf / lit 1125 2) in
  let quarterDigit := latQuarter * ofZ 2 + lonQuarter + ofZ 1 in
  padStart0 2 (toString p) ++ padStart0 2 (toString q)
    ++ toString r ++ toString s ++ toString t ++ toString u
    ++ toString halfDigit ++ toString quarterDigit.

End MeshCodec.

(** The copy of [meshCode250] in [frontend/src/components/MapView.tsx],
    transcribed from that file. *)
Module Frontend.
Section MeshCodec.
Context {num : Type} `{JSNumber num}.
Local Open Scope js_scope.

Definition meshCode250 (lat lon : num) : string :=
  let p := floor (lat * lit 15 1) in
  let q := floor lon - ofZ 100 in
  let latMinutes := lat * ofZ 60 in
  let lonMinutes := lon * ofZ 60 in
  let r := floor ((latMinutes - p * ofZ 40) / ofZ 5) in
  let s := floor ((lonMinutes - floor lon * ofZ 60) / lit 75 1) in
  let t := floor (((latMinutes - p * ofZ 40 - r * ofZ 5) * ofZ 60) / ofZ 30) in
  let u :=
    floor (((lonMinutes - floor lon * ofZ 60 - s * lit 75 1) * ofZ 60)
           / ofZ 45) in
  let latSeconds := lat * ofZ 3600 in
  let lonSeconds := lon * ofZ 3600 in
  let latBaseSeconds := p * ofZ 2400 + r * ofZ 300 + t * ofZ 30 in
  let lonBaseSeconds := (q + ofZ 100) * ofZ 3600 + s * ofZ 450 + u * ofZ 45 in
  let latSecIn1km :=
    jsmin (lit 29999999 6) (jsmax (ofZ 0) (latSeconds - latBaseSeconds)) in
  let lonSecIn1km :=
    jsmin (lit 44999999 6) (jsmax (ofZ 0) (lonSeconds - lonBaseSeconds)) in
  let latHalf := floor (latSecIn1km / ofZ 15) in
  let lonHalf := floor (lonSecIn1km / lit 225 1) in
  let halfDigit := latHalf * ofZ 2 + lonHalf + ofZ 1 in
  let latSecInHalf := latSecIn1km - latHalf * ofZ 15 in
  let lonSecInHalf := lonSecIn1km - lonHalf * lit 225 1 in
  let latQuarter := floor (latSecInHalf / lit 75 1) in
  let lonQuarter := floor (lonSecInHalf / lit 1125 2) in
  let quarterDigit := latQuarter * ofZ 2 + lonQuarter + ofZ 1 in
  padStart0 2 (toString p) ++ padStart0 2 (toString q)
    ++ toString r ++ toString s ++ toString t ++ toString u
    ++ toString halfDigit ++ toString quarterDigit.

End MeshCodec.
End Frontend.

(** ** GridTiler *)

(** A bounding box [[minLon, minLat, maxLon, maxLat]]. *)
Record BBox (num : Type) : Type := mkBBox {
  minLon : num;
  minLat : num;
  maxLon : num;
  maxLat : num
}.
Arguments mkBBox {num} _ _ _ _.
Arguments minLon {num} _.
Arguments minLat {num} _.
Arguments maxLon {num} _.
Arguments maxLat {num} _.

Record MeshCell (num : Type) : Type := mkMeshCell {
  meshId : string;
  bbox : BBox num
}.
Arguments mkMeshCell {num} _ _.
Arguments meshId {num} _.
Arguments bbox {num} _.

Section GridTiler.
Context {num : Type} `{JSNumber num}.
Local Open Scope js_scope.

Definition JAPAN_BOUNDS : BBox num :=
  mkBBox (lit 12293 2) (lit 2404 2) (lit 15399 2) (lit 4595 2).
Definition MESH_LAT_STEP_SEC : num := lit 75 1.
Definition MESH_LON_STEP_SEC : num := lit 1125 2.

(** [MAX_CELLS_PER_FEATURE]: [None] is [Number.POSITIVE_INFINITY], the
    value of [db/meshUtils.ts] when the environment variable
    [MAX_MESH_CELLS_PER_FEATURE] is unset, not a number or not positive;
    [Some n] is a configured bound.  [total > MAX_CELLS_PER_FEATURE] is
    false for every [total] when the bound is infinite. *)
Definition exceeds (total : num) (MAX_CELLS_PER_FEATURE : option num) : bool :=
  match MAX_CELLS_PER_FEATURE with
  | None => false
  | Some m => total >? m
  end.

Definition intersectBbox (b bounds : BBox num) : option (BBox num) :=
  let minLon' := jsmax (minLon b) (minLon bounds) in
  let minLat' := jsmax (minLat b) (minLat bounds) in
  let maxLon' := jsmin (maxLon b) (maxLon bounds) in
  let maxLat' := jsmin (maxLat b) (maxLat bounds) in
  if (minLon' >=? maxLon') || (minLat' >=? maxLat') then None
  else Some (mkBBox minLon' minLat' maxLon' maxLat').

(** The snapped grid of a bounded box: where the two loops start and end. *)
Definition startLatSec (b : BBox num) : num :=
  floor (minLat b * ofZ 3600 / MESH_LAT_STEP_SEC) * MESH_LAT_STEP_SEC.
Definition endLatSec (b : BBox num) : num :=
  ceil (maxLat b * ofZ 3600 / MESH_LAT_STEP_SEC) * MESH_LAT_STEP_SEC.
Definition startLonSec (b : BBox num) : num :=
  floor (minLon b * ofZ 3600 / MESH_LON_STEP_SEC) * MESH_LON_STEP_SEC.
Definition endLonSec (b : BBox num) : num :=
  ceil (maxLon b * ofZ 3600 / MESH_LON_STEP_SEC) * MESH_LON_STEP_SEC.
Definition gridRows (b : BBox num) : num :=
  ceil ((endLatSec b - startLatSec b) / MESH_LAT_STEP_SEC).
Definition gridCols (b : BBox num) : num :=
  ceil ((endLonSec b - startLonSec b) / MESH_LON_STEP_SEC).
Definition gridTotal (b : BBox num) : num := gridRows b * gridCols b.

(** The cell that the body of the inner loop pushes, from the two loop
    variables. *)
Definition meshCellAt (latSec lonSec : num) : MeshCell num :=
  let lat0 := latSec / ofZ 3600 in
  let lat1 := (latSec + MESH_LAT_STEP_SEC) / ofZ 3600 in
  let centerLat := (latSec + MESH_LAT_STEP_SEC / ofZ 2) / ofZ 3600 in
  let lon0 := lonSec / ofZ 3600 in
  let lon1 := (lonSec + MESH_LON_STEP_SEC) / ofZ 3600 in
  let centerLon := (lonSec + MESH_LON_STEP_SEC / ofZ 2) / ofZ 3600 in
  let meshId := meshCode250 centerLat centerLon in
  mkMeshCell meshId (mkBBox lon0 lat0 lon1 lat1).

(** The inner loop [for (lonSec = ...; lonSec < endLonSec; lonSec += step)]
    of one row; [fuel] bounds the number of turns. *)
Fixpoint lonLoop (fuel : nat) (lonSec endLon latSec : num)
  : list (MeshCell num) :=
  match fuel with
  | O => []
  | S k =>
      if lonSec <? endLon then
        meshCellAt latSec lonSec
          :: lonLoop k (lonSec + MESH_LON_STEP_SEC) endLon latSec
      else []
  end.

(** The outer loop over the rows. *)
Fixpoint latLoop (fuel colFuel : nat) (latSec endLat startLon endLon : num)
  : list (MeshCell num) :=
  match fuel with
  | O => []
  | S k =>
      if latSec <? endLat then
        lonLoop colFuel startLon endLon latSec
          ++ latLoop k colFuel (latSec + MESH_LAT_STEP_SEC) endLat
               startLon endLon
      else []
  end.

(** The two loops with explicit bounds on their turns. *)
Definition gridCells (rowFuel colFuel : nat) (b : BBox num)
  : list (MeshCell num) :=
  latLoop rowFuel colFuel (startLatSec b) (endLatSec b)
    (startLonSec b) (endLonSec b).

(** [buildMeshCells] of [db/meshUtils.ts] (and, with the bound
    [Some 12000], of the earlier [db/mapMeshes.ts]).  The loops are given
    as many turns as the grid has rows and columns; [gridCells_fuel]
    below shows that they stop by their own test within these. *)
Definition buildMeshCells (MAX_CELLS_PER_FEATURE : option num)
    (b : BBox num) : list (MeshCell num) :=
  match intersectBbox b JAPAN_BOUNDS with
  | None => []
  | Some bounded =>
      if exceeds (gridTotal bounded) MAX_CELLS_PER_FEATURE then []
      else gridCells (Z.to_nat (toZ (gridRows bounded)))
                     (Z.to_nat (toZ (gridCols bounded))) bounded
  end.

End GridTiler.

(** ** GeometryClipper *)

(** A piece of a feature in one cell.  The sources have two record types
    of this shape: [LineMeshPiece], whose measure and ratio are [lengthM]
    and [lengthRatio], and [PolygonMeshPiece], where they are [areaM2] and
    [areaRatio]. *)
Record MeshPiece (num geom : Type) : Type := mkPiece {
  piece_meshId : string;
  piece_geometry : geom;
  piece_measure : num;
  piece_ratio : num
}.
Arguments mkPiece {num geom} _ _ _ _.
Arguments piece_meshId {num geom} _.
Arguments piece_geometry {num geom} _.
Arguments piece_measure {num geom} _.
Arguments piece_ratio {num geom} _.

Definition lengthM {num geom} (p : MeshPiece num geom) : num := piece_measure p.
Definition lengthRatio {num geom} (p : MeshPiece num geom) : num := piece_ratio p.
Definition areaM2 {num geom} (p : MeshPiece num geom) : num := piece_measure p.
Definition areaRatio {num geom} (p : MeshPiece num geom) : num := piece_ratio p.

(** The functions of the library [@turf/turf] that the clipper calls, on
    a geometry type [geom]: [length] (in kilometres), [area], [bbox] and
    [bboxClip], whose result the sources test for being falsy. *)
Class Turf (num geom : Type) : Type := {
  turf_length : geom -> num;
  turf_area : geom -> num;
  turfBbox : geom -> BBox num;
  bboxClip : geom -> BBox num -> option geom
}.

Section GeometryClipper.
Context {num : Type} `{JSNumber num}.
Context {geom : Type} `{Turf num geom}.
Variable MAX_CELLS_PER_FEATURE : option num.
Local Open Scope js_scope.

(** [!x || Number.isNaN(x)] *)
Definition degenerate (x : num) : bool := negb (truthy x) || isNaN x.

Definition linePieceOf (feature : geom) (totalLengthKm : num)
    (cell : MeshCell num) : option (MeshPiece num geom) :=
  match bboxClip feature (bbox cell) with
  | None => None
  | Some clipped =>
      let clippedLengthKm := turf_length clipped in
      if degenerate clippedLengthKm then None
      else Some (mkPiece (meshId cell) clipped
                   (clippedLengthKm * ofZ 1000)
                   (jsmin (ofZ 1) (clippedLengthKm / totalLengthKm)))
  end.

Definition buildLineMeshPieces (feature : geom)
  : list (MeshPiece num geom) :=
  let totalLengthKm := turf_length feature in
  if degenerate totalLengthKm then []
  else
    let cells := buildMeshCells MAX_CELLS_PER_FEATURE (turfBbox feature) in
    omap (linePieceOf feature totalLengthKm) cells.

Definition polygonPieceOf (feature : geom) (totalArea : num)
    (cell : MeshCell num) : option (MeshPiece num geom) :=
  match bboxClip feature (bbox cell) with
  | None => None
  | Some clipped =>
      let clippedArea := turf_area clipped in
      if degenerate clippedArea then None
      else Some (mkPiece (meshId cell) clipped clippedArea
                   (jsmin (ofZ 1) (clippedArea / totalArea)))
  end.

Definition buildPolygonMeshPieces (feature : geom)
  : list (MeshPiece num geom) :=
  let totalArea := turf_area feature in
  if degenerate totalArea then []
  else
    let cells := buildMeshCells MAX_CELLS_PER_FEATURE (turfBbox feature) in
    omap (polygonPieceOf feature totalArea) cells.

End GeometryClipper.


(** ** LayerIngestionPipeline and MeshPresenceIndex *)

(** GeoJSON geometries; a position is [[lon, lat]]. *)
Inductive Geometry (num : Type) : Type :=
| Point (coordinates : num * num)
| MultiPoint (coordinates : list (num * num))
| LineString (coordinates : list (num * num))
| MultiLineString (coordinates : list (list (num * num)))
| Polygon (coordinates : list (list (num * num)))
| MultiPolygon (coordinates : list (list (list (num * num))))
| GeometryCollection.
Arguments Point {num} _.
Arguments MultiPoint {num} _.
Arguments LineString {num} _.
Arguments MultiLineString {num} _.
Arguments Polygon {num} _.
Arguments MultiPolygon {num} _.
Arguments GeometryCollection {num}.

Inductive GeometryKind : Type := point | line | polygon.

#[export] Instance GeometryKind_eq_dec : EqDecision GeometryKind.
Proof. solve_decision. Defined.

(** A feature of the input file: its geometry may be missing, and so may
    its properties. *)
Record Feature (num props : Type) : Type := mkFeature {
  f_geometry : option (Geometry num);
  f_properties : option props
}.
Arguments mkFeature {num props} _ _.
Arguments f_geometry {num props} _.
Arguments f_properties {num props} _.

Record LayerDefinition (num props : Type) : Type := mkLayerDef {
  layerName : string;
  tableName : string;
  geometryType : GeometryKind;
  sourceFile : string;
  meshMapTable : option string;
  features : list (Feature num props)
}.
Arguments mkLayerDef {num props} _ _ _ _ _ _.
Arguments layerName {num props} _.
Arguments tableName {num props} _.
Arguments geometryType {num props} _.
Arguments sourceFile {num props} _.
Arguments meshMapTable {num props} _.
Arguments features {num props} _.

(** A line or polygon feature with its pieces ([LineItem], [PolygonItem]). *)
Record Item (num props : Type) : Type := mkItem {
  it_meshId : string;
  it_geometry : Geometry num;
  it_properties : props;
  it_pieces : list (MeshPiece num (Geometry num))
}.
Arguments mkItem {num props} _ _ _ _.
Arguments it_meshId {num props} _.
Arguments it_geometry {num props} _.
Arguments it_properties {num props} _.
Arguments it_pieces {num props} _.

(** *** The store *)

(** A row of [point_features], [line_features] or [polygon_features]. *)
Record FeatureRow (num props : Type) : Type := mkFeatureRow {
  fr_id : Z;
  fr_sourceLayer : string;
  fr_meshId : string;
  fr_geometry : Geometry num;
  fr_properties : props
}.
Arguments mkFeatureRow {num props} _ _ _ _ _.
Arguments fr_id {num props} _.
Arguments fr_sourceLayer {num props} _.
Arguments fr_meshId {num props} _.
Arguments fr_geometry {num props} _.
Arguments fr_properties {num props} _.

(** A row of [line_mesh_map] or [polygon_mesh_map]; [mm_featureId] is
    the column [line_id] or [polygon_id]. *)
Record MeshMapRow (num props : Type) : Type := mkMeshMapRow {
  mm_sourceLayer : string;
  mm_featureId : Z;
  mm_meshId : string;
  mm_geometry : Geometry num;
  mm_properties : props;
  mm_measure : num;
  mm_ratio : num
}.
Arguments mkMeshMapRow {num props} _ _ _ _ _ _ _.
Arguments mm_sourceLayer {num props} _.
Arguments mm_featureId {num props} _.
Arguments mm_meshId {num props} _.
Arguments mm_geometry {num props} _.
Arguments mm_properties {num props} _.
Arguments mm_measure {num props} _.
Arguments mm_ratio {num props} _.

(** A row of a per-layer table: [mesh_id], [geometry], [properties] and,
    in a mesh-decomposition table, the measure and the ratio.  The two
    [jsonb] columns are modelled by the values whose [JSON.stringify]
    text they hold. *)
Record DynRow (num props : Type) : Type := mkDynRow {
  dr_meshId : string;
  dr_geometry : Geometry num;
  dr_properties : props;
  dr_measure : option (num * num)
}.
Arguments mkDynRow {num props} _ _ _ _.
Arguments dr_meshId {num props} _.
Arguments dr_geometry {num props} _.
Arguments dr_properties {num props} _.
Arguments dr_measure {num props} _.

(** A row of [layer_registry], keyed by its unique [layer_name]. *)
Record LayerRow : Type := mkLayerRow {
  lr_tableName : string;
  lr_geometryType : GeometryKind;
  lr_meshMapTable : option string;
  lr_sourceFile : string
}.

(** A row of [mesh_index], keyed by [mesh_id]; [layerPresence] is the set
    of the keys of the [layer_presence] object (every value is [true]). *)
Record MeshIndexRow : Type := mkMeshIndexRow {
  hasPoints : bool;
  hasLines : bool;
  hasPolygons : bool;
  layerPresence : gset string
}.

(** The store: the five cross-layer tables, the per-layer tables by name
    (a name without an entry is a table that does not exist), the
    registry, the mesh-presence index, the sequences of the three feature
    tables, and the log of the insert statements sent so far, each with
    its table and its number of rows (newest first).

    The model covers the runs in which the store accepts every statement:
    constraint violations are not modelled, the per-layer tables are kept
    apart from the fixed tables, and the cascade from a feature row to
    its mesh-map rows is left out (the pipeline writes a mesh-map row
    with the source layer of its feature, and [deleteGenericRows] deletes
    by source layer in both tables). *)
Record Store (num props : Type) : Type := mkStore {
  point_features : list (FeatureRow num props);
  line_features : list (FeatureRow num props);
  polygon_features : list (FeatureRow num props);
  line_mesh_map : list (MeshMapRow num props);
  polygon_mesh_map : list (MeshMapRow num props);
  tables : gmap string (list (DynRow num props));
  layer_registry : gmap string LayerRow;
  mesh_index : gmap string MeshIndexRow;
  seq_point : Z;
  seq_line : Z;
  seq_polygon : Z;
  log : list (string * nat)
}.
Arguments mkStore {num props} _ _ _ _ _ _ _ _ _ _ _ _.
Arguments point_features {num props} _.
Arguments line_features {num props} _.
Arguments polygon_features {num props} _.
Arguments line_mesh_map {num props} _.
Arguments polygon_mesh_map {num props} _.
Arguments tables {num props} _.
Arguments layer_registry {num props} _.
Arguments mesh_index {num props} _.
Arguments seq_point {num props} _.
Arguments seq_line {num props} _.
Arguments seq_polygon {num props} _.
Arguments log {num props} _.

Definition emptyStore {num props} : Store num props :=
  mkStore [] [] [] [] [] ∅ ∅ ∅ 1 1 1 [].

Definition INSERT_CHUNK_SIZE : nat := 500.

(** A JavaScript [Set] of strings, as the list of its elements in
    insertion order: [setAdd] is [Set.prototype.add], [setFrom l] is
    [Array.from(new Set(l))]. *)
Definition setAdd (seen : list string) (x : string) : list string :=
  if decide (x ∈ seen) then seen else seen ++ [x].
Definition setFrom (l : list string) : list string := foldl setAdd [] l.

Section Chunks.
Context {A : Type}.

(** [rows.slice(i, j)] for [i <= j]. *)
Definition slice (i j : nat) (rows : list A) : list A :=
  take (j - i) (drop i rows).

(** The loop [for (let i = 0; i < rows.length; i += size)] that pushes
    [rows.slice(i, i + size)]; for a positive [size] it ends within
    [length rows] turns. *)
Fixpoint chunkLoop (fuel i size : nat) (rows : list A) : list (list A) :=
  match fuel with
  | O => []
  | S k =>
      if (i <? length rows)%nat
      then slice i (i + size) rows :: chunkLoop k (i + size) size rows
      else []
  end.

Definition chunkArray (rows : list A) (size : nat) : list (list A) :=
  chunkLoop (length rows) 0 size rows.

(** The statements of a chunked insert: the chunks in order, an empty
    chunk being skipped ([if (chunk.length === 0) continue] in
    [insertRowsDynamic], [if (chunk.length > 0)] in [insertInChunks] and
    around the inserts into the cross-layer tables). *)
Definition nonEmpty (chunk : list A) : bool :=
  match chunk with [] => false | _ => true end.

Definition insertRowsDynamic_statements (rows : list A) : list (list A) :=
  List.filter nonEmpty (chunkArray rows INSERT_CHUNK_SIZE).

(** [insertInChunks] of [db/mapMeshes.ts], which has the loop of
    [chunkArray] inline. *)
Definition insertInChunks_statements (rows : list A) : list (list A) :=
  List.filter nonEmpty (chunkLoop (length rows) 0 INSERT_CHUNK_SIZE rows).

End Chunks.

(** [normalizeLayerName]: lower case, every run of characters outside
    [a-z0-9] replaced by one underscore, the underscores at both ends
    removed; ["layer"] for an empty result and the prefix ["layer_"] for
    one that does not start with a letter.  (File names are read as
    ASCII text.) *)
Definition lowerAscii (c : ascii) : ascii :=
  let n := nat_of_ascii c in
  if ((65 <=? n) && (n <=? 90))%nat then ascii_of_nat (n + 32) else c.

Definition isLetter (c : ascii) : bool :=
  let n := nat_of_ascii c in ((97 <=? n) && (n <=? 122))%nat.

Definition isAlnum (c : ascii) : bool :=
  let n := nat_of_ascii c in
  isLetter c || ((48 <=? n) && (n <=? 57))%nat.

Fixpoint collapseRuns (inRun : bool) (l : list ascii) : list ascii :=
  match l with
  | [] => []
  | c :: r =>
      if isAlnum c then c :: collapseRuns false r
      else if inRun then collapseRuns true r
      else "_"%char :: collapseRuns true r
  end.

Fixpoint dropUnderscores (l : list ascii) : list ascii :=
  match l with
  | c :: r => if Ascii.eqb c "_" then dropUnderscores r else l
  | [] => []
  end.

Definition normalizeLayerName (rawName : string) : string :=
  let lowered := map lowerAscii (list_ascii_of_string rawName) in
  let replaced := collapseRuns false lowered in
  let base :=
    rev (dropUnderscores (rev (dropUnderscores replaced))) in
  match base with
  | [] => "layer"
  | c :: _ =>
      if isLetter c then string_of_list_ascii base
      else "layer_" ++ string_of_list_ascii base
  end.

Section Ingestion.
Context {num : Type} `{JSNumber num}.
Context {props : Type}.
Context `{Turf num (Geometry num)}.
(** [{}], the properties of a feature that has none. *)
Variable emptyProps : props.
Variable MAX_CELLS_PER_FEATURE : option num.
(** [path.basename(fileName, path.extname(fileName))] of Node's [path]. *)
Variable fileBase : string -> string.
Local Open Scope list_scope.
Local Open Scope js_scope.

Local Abbreviation store := (Store num props).
Local Abbreviation feature := (Feature num props).
Local Abbreviation item := (Item num props).
Local Abbreviation layerDef := (LayerDefinition num props).

Definition isPointInJapan (c : num * num) : bool :=
  let '(lon, lat) := c in
  (lon >=? minLon JAPAN_BOUNDS) && (lon <=? maxLon JAPAN_BOUNDS)
  && (lat >=? minLat JAPAN_BOUNDS) && (lat <=? maxLat JAPAN_BOUNDS).

Definition normalizeProperties (p : option props) : props :=
  match p with
  | Some o => o
  | None => emptyProps
  end.

(** [explodePointFeatures]: the points of the point-like features, each
    with the normalized properties of its feature. *)
Definition explodePointFeatures (fs : list feature)
  : list ((num * num) * props) :=
  flat_map (fun f =>
    match f_geometry f with
    | Some (Point c) => [(c, normalizeProperties (f_properties f))]
    | Some (MultiPoint cs) =>
        map (fun c => (c, normalizeProperties (f_properties f))) cs
    | _ => []
    end) fs.

(** [toLineItems]: a feature without pieces is left out. *)
Definition toLineItems (fs : list feature) : list item :=
  flat_map (fun f =>
    match f_geometry f with
    | Some (LineString _ as g) | Some (MultiLineString _ as g) =>
        match buildLineMeshPieces MAX_CELLS_PER_FEATURE g with
        | [] => []
        | p0 :: ps =>
            [mkItem (piece_meshId p0) g (normalizeProperties (f_properties f))
                    (p0 :: ps)]
        end
    | _ => []
    end) fs.

Definition toPolygonItems (fs : list feature) : list item :=
  flat_map (fun f =>
    match f_geometry f with
    | Some (Polygon _ as g) | Some (MultiPolygon _ as g) =>
        match buildPolygonMeshPieces MAX_CELLS_PER_FEATURE g with
        | [] => []
        | p0 :: ps =>
            [mkItem (piece_meshId p0) g (normalizeProperties (f_properties f))
                    (p0 :: ps)]
        end
    | _ => []
    end) fs.

(** *** Statements *)

Definition logInsert (table : string) (n : nat) (s : store) : store :=
  mkStore (point_features s) (line_features s) (polygon_features s)
    (line_mesh_map s) (polygon_mesh_map s) (tables s) (layer_registry s)
    (mesh_index s) (seq_point s) (seq_line s) (seq_polygon s)
    ((table, n) :: log s).

Definition setTables (t : gmap string (list (DynRow num props))) (s : store)
  : store :=
  mkStore (point_features s) (line_features s) (polygon_features s)
    (line_mesh_map s) (polygon_mesh_map s) t (layer_registry s)
    (mesh_index s) (seq_point s) (seq_line s) (seq_polygon s) (log s).

Definition setRegistry (r : gmap string LayerRow) (s : store) : store :=
  mkStore (point_features s) (line_features s) (polygon_features s)
    (line_mesh_map s) (polygon_mesh_map s) (tables s) r
    (mesh_index s) (seq_point s) (seq_line s) (seq_polygon s) (log s).

Definition setMeshIndex (m : gmap string MeshIndexRow) (s : store) : store :=
  mkStore (point_features s) (line_features s) (polygon_features s)
    (line_mesh_map s) (polygon_mesh_map s) (tables s) (layer_registry s)
    m (seq_point s) (seq_line s) (seq_polygon s) (log s).

(** The feature table and the mesh-map table of a geometry kind
    ([point_features] has no mesh-map table). *)
Definition featureTable (k : GeometryKind) (s : store)
  : list (FeatureRow num props) :=
  match k with
  | point => point_features s
  | line => line_features s
  | polygon => polygon_features s
  end.

Definition featureTableName (k : GeometryKind) : string :=
  match k with
  | point => "point_features"
  | line => "line_features"
  | polygon => "polygon_features"
  end.

Definition meshMapName (k : GeometryKind) : string :=
  match k with
  | polygon => "polygon_mesh_map"
  | _ => "line_mesh_map"
  end.

Definition seqOf (k : GeometryKind) (s : store) : Z :=
  match k with
  | point => seq_point s
  | line => seq_line s
  | polygon => seq_polygon s
  end.

(** [db.insert(table).values(rows).returning({ id })]: one statement; the
    rows take the next values of the table's sequence, which are
    returned in order. *)
Definition numbered (start : Z)
    (rows : list (string * string * Geometry num * props))
  : list (FeatureRow num props) :=
  imap (fun i '(l, m, g, p) => mkFeatureRow (start + Z.of_nat i) l m g p) rows.

Definition insertFeatures (k : GeometryKind)
    (rows : list (string * string * Geometry num * props)) (s : store)
  : store * list Z :=
  let new := numbered (seqOf k s) rows in
  let n := Z.of_nat (length rows) in
  let s' :=
    match k with
    | point =>
        mkStore (point_features s ++ new) (line_features s)
          (polygon_features s) (line_mesh_map s) (polygon_mesh_map s)
          (tables s) (layer_registry s) (mesh_index s)
          (seq_point s + n) (seq_line s) (seq_polygon s) (log s)
    | line =>
        mkStore (point_features s) (line_features s ++ new)
          (polygon_features s) (line_mesh_map s) (polygon_mesh_map s)
          (tables s) (layer_registry s) (mesh_index s)
          (seq_point s) (seq_line s + n) (seq_polygon s) (log s)
    | polygon =>
        mkStore (point_features s) (line_features s)
          (polygon_features s ++ new) (line_mesh_map s) (polygon_mesh_map s)
          (tables s) (layer_registry s) (mesh_index s)
          (seq_point s) (seq_line s) (seq_polygon s + n) (log s)
    end in
  (logInsert (featureTableName k) (length rows) s', map fr_id new).

(** [db.insert(lineMeshMap).values(rows)] and its polygon twin. *)
Definition insertMeshMap (k : GeometryKind)
    (rows : list (MeshMapRow num props)) (s : store) : store :=
  let s' :=
    match k with
    | polygon =>
        mkStore (point_features s) (line_features s) (polygon_features s)
          (line_mesh_map s) (polygon_mesh_map s ++ rows)
          (tables s) (layer_registry s) (mesh_index s)
          (seq_point s) (seq_line s) (seq_polygon s) (log s)
    | _ =>
        mkStore (point_features s) (line_features s) (polygon_features s)
          (line_mesh_map s ++ rows) (polygon_mesh_map s)
          (tables s) (layer_registry s) (mesh_index s)
          (seq_point s) (seq_line s) (seq_polygon s) (log s)
    end in
  logInsert (meshMapName k) (length rows) s'.

(** One [INSERT INTO "tableName" ... VALUES ...] on a per-layer table. *)
Definition insertDyn (tableName : string) (rows : list (DynRow num props))
    (s : store) : store :=
  logInsert tableName (length rows)
    (setTables (alter (fun old => old ++ rows) tableName (tables s)) s).

Definition insertRowsDynamic (tableName : string)
    (rows : list (DynRow num props)) (s : store) : store :=
  foldl (fun s chunk => insertDyn tableName chunk s) s
    (insertRowsDynamic_statements rows).

(** [INSERT ... ON CONFLICT DO NOTHING] of rows [{ meshId }]. *)
Definition freshIndexRow : MeshIndexRow := mkMeshIndexRow false false false ∅.

Definition insertIndexRow (m : gmap string MeshIndexRow) (meshId : string)
  : gmap string MeshIndexRow :=
  match m !! meshId with
  | Some _ => m
  | None => <[meshId := freshIndexRow]> m
  end.

Definition upsertMeshIndex (meshIds : list string) (s : store) : store :=
  foldl (fun s chunk =>
           logInsert "mesh_index" (length chunk)
             (setMeshIndex (foldl insertIndexRow (mesh_index s) chunk) s))
    s (chunkArray meshIds INSERT_CHUNK_SIZE).

(** [EXISTS (SELECT 1 FROM t WHERE t.mesh_id = ...)] *)
Definition existsFeature (m : string) (rows : list (FeatureRow num props))
  : bool :=
  existsb (fun r => String.eqb (fr_meshId r) m) rows.
Definition existsMeshMap (m : string) (rows : list (MeshMapRow num props))
  : bool :=
  existsb (fun r => String.eqb (mm_meshId r) m) rows.

(** [refreshMeshFlags]: the three flags of the given mesh identifiers
    are recomputed from [point_features], [line_mesh_map] and
    [polygon_mesh_map]. *)
Definition refreshMeshFlags (meshIds : list string) (s : store) : store :=
  if decide (meshIds = []) then s else
  setMeshIndex
    (map_imap (fun m row =>
       Some (if decide (m ∈ meshIds)
             then mkMeshIndexRow (existsFeature m (point_features s))
                    (existsMeshMap m (line_mesh_map s))
                    (existsMeshMap m (polygon_mesh_map s))
                    (layerPresence row)
             else row)) (mesh_index s)) s.

Definition removeLayerPresence (layerName : string) (meshIds : list string)
    (s : store) : store :=
  if decide (meshIds = []) then s else
  setMeshIndex
    (map_imap (fun m row =>
       Some (if decide (m ∈ meshIds)
             then mkMeshIndexRow (hasPoints row) (hasLines row)
                    (hasPolygons row) (layerPresence row ∖ {[layerName]})
             else row)) (mesh_index s)) s.

Definition addLayerPresence (layerName : string) (meshIds : list string)
    (s : store) : store :=
  if decide (meshIds = []) then s else
  setMeshIndex
    (map_imap (fun m row =>
       Some (if decide (m ∈ meshIds)
             then mkMeshIndexRow (hasPoints row) (hasLines row)
                    (hasPolygons row) ({[layerName]} ∪ layerPresence row)
             else row)) (mesh_index s)) s.

(** [SELECT DISTINCT mesh_id FROM t] (in the order of first occurrence;
    the result is only used as a set). *)
Definition distinctMeshIds (rows : list (DynRow num props)) : list string :=
  setFrom (map dr_meshId rows).

Definition getLayerMeshIds (tableName : string) (meshMapTable : option string)
    (s : store) : list string :=
  let fromTable :=
    match tables s !! tableName with
    | Some rows => distinctMeshIds rows
    | None => []
    end in
  match meshMapTable with
  | Some mt =>
      match tables s !! mt with
      | Some rows => distinctMeshIds rows
      | None => fromTable
      end
  | None => fromTable
  end.

Definition notOfLayer (layerName : string) (r : FeatureRow num props) : bool :=
  negb (String.eqb (fr_sourceLayer r) layerName).
Definition notOfLayerM (layerName : string) (r : MeshMapRow num props)
  : bool :=
  negb (String.eqb (mm_sourceLayer r) layerName).

Definition deleteGenericRows (layerName : string) (s : store) : store :=
  mkStore (List.filter (notOfLayer layerName) (point_features s))
    (List.filter (notOfLayer layerName) (line_features s))
    (List.filter (notOfLayer layerName) (polygon_features s))
    (List.filter (notOfLayerM layerName) (line_mesh_map s))
    (List.filter (notOfLayerM layerName) (polygon_mesh_map s))
    (tables s) (layer_registry s) (mesh_index s)
    (seq_point s) (seq_line s) (seq_polygon s) (log s).

(** [DELETE FROM t] when the table exists. *)
Definition emptyTable (name : string) (s : store) : store :=
  setTables (alter (fun _ => []) name (tables s)) s.

Definition deleteLayerTables (def : layerDef) (s : store) : store :=
  let s1 := emptyTable (tableName def) s in
  match meshMapTable def with
  | Some mt => emptyTable mt s1
  | None => s1
  end.

Definition dropTable (name : string) (s : store) : store :=
  setTables (delete name (tables s)) s.

(** [CREATE TABLE IF NOT EXISTS] *)
Definition createTable (name : string) (s : store) : store :=
  match tables s !! name with
  | Some _ => s
  | None => setTables (<[name := []]> (tables s)) s
  end.

Definition ensureLayerTables (def : layerDef) (s : store) : store :=
  let s1 := createTable (tableName def) s in
  match geometryType def, meshMapTable def with
  | line, Some mt => createTable mt s1
  | polygon, Some mt => createTable mt s1
  | _, _ => s1
  end.

Definition removeLayer (layerName : string) (row : LayerRow) (s : store)
  : store :=
  let oldMeshIds :=
    getLayerMeshIds (lr_tableName row) (lr_meshMapTable row) s in
  let s := deleteGenericRows layerName s in
  let s :=
    match lr_meshMapTable row with
    | Some mt => dropTable mt s
    | None => s
    end in
  let s := dropTable (lr_tableName row) s in
  let s := setRegistry (delete layerName (layer_registry s)) s in
  let s := removeLayerPresence layerName oldMeshIds s in
  refreshMeshFlags oldMeshIds s.

(** *** Layers *)

(** The rows of a point layer: a point outside the national bounding box
    is rejected, the others get the mesh identifier of their coordinates. *)
Definition pointRows (def : layerDef)
  : list (string * Geometry num * props) :=
  flat_map (fun '(c, p) =>
    if isPointInJapan c
    then let '(lon, lat) := c in [(meshCode250 lat lon, Point c, p)]
    else []) (explodePointFeatures (features def)).

Definition processPointLayer (def : layerDef) (s : store)
  : store * list string :=
  let rows := pointRows def in
  let meshIds := setFrom (map (fun '(m, _, _) => m) rows) in
  let layerRows := map (fun '(m, g, p) => mkDynRow m g p None) rows in
  let genericRows := map (fun '(m, g, p) => (layerName def, m, g, p)) rows in
  let s := upsertMeshIndex meshIds s in
  let s := insertRowsDynamic (tableName def) layerRows s in
  let s :=
    foldl (fun s chunk =>
             if nonEmpty chunk then (insertFeatures point chunk s).1 else s)
      s (chunkArray genericRows INSERT_CHUNK_SIZE) in
  (s, meshIds).

(** The mesh-map rows of a chunk of items: one row per piece, linked to
    the returned identifier of its feature row. *)
Definition meshRowsOf (layerName : string) (ids : list Z) (chunk : list item)
  : list (MeshMapRow num props) :=
  flat_map (fun '(id, it) =>
    map (fun piece =>
           mkMeshMapRow layerName id (piece_meshId piece)
             (piece_geometry piece) (it_properties it)
             (piece_measure piece) (piece_ratio piece))
        (it_pieces it)) (zip ids chunk).

Definition perLayerMeshRows (chunk : list item) : list (DynRow num props) :=
  flat_map (fun it =>
    map (fun piece =>
           mkDynRow (piece_meshId piece) (piece_geometry piece)
             (it_properties it)
             (Some (piece_measure piece, piece_ratio piece)))
        (it_pieces it)) chunk.

Definition processItemChunk (k : GeometryKind) (def : layerDef) (mt : string)
    (s : store) (chunk : list item) : store :=
  let chunkRows :=
    map (fun it => (layerName def, it_meshId it, it_geometry it,
                    it_properties it)) chunk in
  let '(s, inserted) := insertFeatures k chunkRows s in
  let genericMeshRows := meshRowsOf (layerName def) inserted chunk in
  let s :=
    foldl (fun s meshChunk =>
             if nonEmpty meshChunk then insertMeshMap k meshChunk s else s)
      s (chunkArray genericMeshRows INSERT_CHUNK_SIZE) in
  insertRowsDynamic mt (perLayerMeshRows chunk) s.

(** The body shared by [processLineLayer] and [processPolygonLayer],
    which differ in the items and in the two cross-layer tables. *)
Definition processItems (k : GeometryKind) (def : layerDef)
    (items : list item) (s : store) : store * list string :=
  match meshMapTable def with
  | None => (s, [])
  | Some mt =>
      let primaryMeshIds := setFrom (map it_meshId items) in
      let layerRows :=
        map (fun it => mkDynRow (it_meshId it) (it_geometry it)
                         (it_properties it) None) items in
      let meshIds :=
        setFrom (flat_map (fun it => map piece_meshId (it_pieces it)) items) in
      let meshIndexIds := setFrom (primaryMeshIds ++ meshIds) in
      let s := upsertMeshIndex meshIndexIds s in
      let s := insertRowsDynamic (tableName def) layerRows s in
      let s :=
        foldl (processItemChunk k def mt) s
          (chunkArray items INSERT_CHUNK_SIZE) in
      (s, meshIds)
  end.

Definition processLineLayer (def : layerDef) (s : store)
  : store * list string :=
  processItems line def (toLineItems (features def)) s.

Definition processPolygonLayer (def : layerDef) (s : store)
  : store * list string :=
  processItems polygon def (toPolygonItems (features def)) s.

Definition registryRowOf (def : layerDef) : LayerRow :=
  mkLayerRow (tableName def) (geometryType def) (meshMapTable def)
    (sourceFile def).

Definition processLayer (def : layerDef) (s : store) : store :=
  let previous := layer_registry s !! layerName def in
  let oldMeshIds :=
    match previous with
    | Some prev =>
        getLayerMeshIds (lr_tableName prev) (lr_meshMapTable prev) s
    | None => []
    end in
  let s := deleteGenericRows (layerName def) s in
  let s := deleteLayerTables def s in
  let s :=
    match previous with
    | Some prev =>
        match lr_meshMapTable prev with
        | Some mt =>
            if decide (lr_geometryType prev = geometryType def) then s
            else dropTable mt s
        | None => s
        end
    | None => s
    end in
  let s := ensureLayerTables def s in
  let '(s, newMeshIds) :=
    match geometryType def with
    | point => processPointLayer def s
    | line => processLineLayer def s
    | polygon => processPolygonLayer def s
    end in
  let s := removeLayerPresence (layerName def) oldMeshIds s in
  let s := addLayerPresence (layerName def) newMeshIds s in
  let s := refreshMeshFlags (setFrom (oldMeshIds ++ newMeshIds)) s in
  logInsert "layer_registry" 1
    (setRegistry (<[layerName def := registryRowOf def]> (layer_registry s)) s).

(** *** Files *)

Definition kindOf (g : Geometry num) : option GeometryKind :=
  match g with
  | Point _ | MultiPoint _ => Some point
  | LineString _ | MultiLineString _ => Some line
  | Polygon _ | MultiPolygon _ => Some polygon
  | GeometryCollection => None
  end.

Definition isKind (k : GeometryKind) (f : feature) : bool :=
  match f_geometry f with
  | Some g => bool_decide (kindOf g = Some k)
  | None => false
  end.

Definition suffixOf (k : GeometryKind) : string :=
  match k with
  | point => "points"
  | line => "lines"
  | polygon => "polygons"
  end.

Definition layerNameOf (baseName : string) (useSuffix : bool)
    (k : GeometryKind) : string :=
  if useSuffix then (baseName ++ "_" ++ suffixOf k)%string else baseName.

(** The layer definitions of a file: one per geometry kind that has
    features, in the order point, line, polygon. *)
Definition layerDefs (fileName : string) (collection : list feature)
  : list layerDef :=
  let baseName := normalizeLayerName (fileBase fileName) in
  let geometryTypes :=
    List.filter (fun k => nonEmpty (List.filter (isKind k) collection))
      [point; line; polygon] in
  let useSuffix := (1 <? length geometryTypes)%nat in
  map (fun k =>
         let layerName := layerNameOf baseName useSuffix k in
         mkLayerDef layerName layerName k fileName
           (match k with
            | point => None
            | _ => Some (layerName ++ "_mesh_map")%string
            end)
           (List.filter (isKind k) collection))
      geometryTypes.

(** The registered layers of the file that it no longer produces. *)
Definition staleLayers (fileName : string) (defs : list layerDef) (s : store)
  : list (string * LayerRow) :=
  List.filter (fun '(name, row) =>
      bool_decide (lr_sourceFile row = fileName)
      && bool_decide (name ∉ map layerName defs))
    (map_to_list (layer_registry s)).

(** [ingestFile], from the parsed feature collection of the file on. *)
Definition ingestFile (fileName : string) (collection : list feature)
    (s : store) : store :=
  let defs := layerDefs fileName collection in
  match defs with
  | [] => s
  | _ =>
      let s :=
        foldl (fun s '(name, row) => removeLayer name row s) s
          (staleLayers fileName defs s) in
      foldl (fun s def => processLayer def s) s defs
  end.

End Ingestion.

(** ** A stand-in for [@turf/turf]

    The theorems below hold for every implementation of the four library
    functions.  To run the clipper and the pipeline on examples, this
    section gives a small one: the bounding box of the coordinates, the
    taxicab length of a line, the area of the bounding box of a polygon,
    and a clip that moves every coordinate into the box. *)
Section SampleTurf.
Context {num : Type} `{JSNumber num}.
Local Open Scope list_scope.
Local Open Scope js_scope.

Definition coordsOf (g : Geometry num) : list (num * num) :=
  match g with
  | Point c => [c]
  | MultiPoint cs | LineString cs => cs
  | MultiLineString ls | Polygon ls => concat ls
  | MultiPolygon ps => concat (concat ps)
  | GeometryCollection => []
  end.

Definition sampleBbox (g : Geometry num) : BBox num :=
  match coordsOf g with
  | [] => mkBBox (ofZ 0) (ofZ 0) (ofZ 0) (ofZ 0)
  | (lon, lat) :: cs =>
      foldl (fun b '(x, y) =>
               mkBBox (jsmin (minLon b) x) (jsmin (minLat b) y)
                      (jsmax (maxLon b) x) (jsmax (maxLat b) y))
        (mkBBox lon lat lon lat) cs
  end.

Definition absNum (x : num) : num := jsmax x (ofZ 0 - x).

Fixpoint taxicab (cs : list (num * num)) : num :=
  match cs with
  | (x0, y0) :: (((x1, y1) :: _) as rest) =>
      absNum (x1 - x0) + absNum (y1 - y0) + taxicab rest
  | _ => ofZ 0
  end.

Definition sampleLength (g : Geometry num) : num :=
  match g with
  | LineString cs => taxicab cs
  | MultiLineString ls => foldr (fun cs acc => taxicab cs + acc) (ofZ 0) ls
  | _ => ofZ 0
  end.

Definition sampleArea (g : Geometry num) : num :=
  let b := sampleBbox g in
  (maxLon b - minLon b) * (maxLat b - minLat b).

Definition clampInto (b : BBox num) (c : num * num) : num * num :=
  (jsmin (maxLon b) (jsmax (minLon b) c.1),
   jsmin (maxLat b) (jsmax (minLat b) c.2)).

Definition sampleClip (g : Geometry num) (b : BBox num)
  : option (Geometry num) :=
  Some match g with
       | Point c => Point (clampInto b c)
       | MultiPoint cs => MultiPoint (map (clampInto b) cs)
       | LineString cs => LineString (map (clampInto b) cs)
       | MultiLineString ls => MultiLineString (map (map (clampInto b)) ls)
       | Polygon ls => Polygon (map (map (clampInto b)) ls)
       | MultiPolygon ps => MultiPolygon (map (map (map (clampInto b))) ps)
       | GeometryCollection => GeometryCollection
       end.

Definition sampleTurf : Turf num (Geometry num) := {|
  turf_length := sampleLength;
  turf_area := sampleArea;
  turfBbox := sampleBbox;
  bboxClip := sampleClip
|}.

End SampleTurf.

(** The cell of the grid of 7.5 by 11.25 arc seconds that holds a
    coordinate, by its row and its column. *)
Definition cellIndex (lat lon : Q) : Z * Z :=
  (Qfloor (lat * 3600 / (75 # 10)), Qfloor (lon * 3600 / (1125 # 100))).

(** The latitude [98/3] and the longitude [135.5] as JavaScript reads
    them: [98 / 3] is the double [32.666666666666664]. *)
Definition lat_98_3 : float := (ofZ 98 / ofZ 3)%js.
Definition lon_135_5 : float := lit 1355 1.

(* ================================================================== *)
(** * Part II.  Theorems                                              *)
(* ================================================================== *)

(** ** MeshCodec on binary64 *)

(** C1, at the failing input: the coordinate (32.666666666666664, 135.5)
    lies inside the national bounding box, and on binary64 numbers
    [meshCode250] returns for it a text of 11 characters with a minus
    sign in place of the digit [r].  The product [lat * 1.5] rounds to
    [49] while [lat * 60] rounds to a number below [49 * 40], so that
    [r = Math.floor(-2.27e-13 / 5) = -1]. *)
Theorem meshCode250_binary64_not_ten_characters :
  isPointInJapan (lon_135_5, lat_98_3) = true
  /\ float_toQ lat_98_3 == 4597424619607381 # 140737488355328
  /\ floor (lat_98_3 * lit 15 1)%js = (ofZ 49 : float)
  /\ toString (floor ((lat_98_3 * ofZ 60 - ofZ 49 * ofZ 40) / ofZ 5))%js
     = "-1"
  /\ meshCode250 lat_98_3 lon_135_5 = "4935-149033"
  /\ String.length (meshCode250 lat_98_3 lon_135_5) = 11%nat.
Proof. vm_compute. repeat split; reflexivity. Qed.

(** C2, at the failing input: (32.666666666666664, 135.5) and
    (32.66666, 135.5) lie in the same cell of the 250m grid, and on
    binary64 numbers [meshCode250] returns different texts for them. *)
Theorem meshCode250_binary64_same_cell_differs :
  cellIndex (float_toQ lat_98_3) (float_toQ lon_135_5)
  = cellIndex (float_toQ (lit 3266666 5)) (float_toQ lon_135_5)
  /\ meshCode250 lat_98_3 lon_135_5 = "4935-149033"
  /\ meshCode250 (lit 3266666 5 : float) lon_135_5 = "4835749033".
Proof. vm_compute. repeat split; reflexivity. Qed.

(** ** The two copies of the codec *)

(** C9: the copy of [meshCode250] in the frontend and the one of the
    backend return the same text for every latitude and longitude, on
    every implementation of numbers (the bodies are the same term). *)
Theorem meshCode250_frontend_backend :
  forall (num : Type) (N : JSNumber num) (lat lon : num),
    Frontend.meshCode250 lat lon = meshCode250 lat lon.
Proof. intros num N lat lon. reflexivity. Qed.

(** ** GridTiler: the guards *)

Section Guards.
Context {num : Type} `{JSNumber num}.

(** C6: when the snapped grid of the bounded box has more cells than
    the configured maximum, [buildMeshCells] returns the empty list. *)
Theorem buildMeshCells_capacity_guard :
  forall (MAX_CELLS_PER_FEATURE : option num) (b bounded : BBox num),
    intersectBbox b JAPAN_BOUNDS = Some bounded ->
    exceeds (gridTotal bounded) MAX_CELLS_PER_FEATURE = true ->
    buildMeshCells MAX_CELLS_PER_FEATURE b = [].
Proof.
  intros MAX b bounded Hb Hex. unfold buildMeshCells.
  rewrite Hb, Hex. reflexivity.
Qed.

(** The test of [intersectBbox]: the clamped box has no width or no
    height. *)
Definition degenerateBox (b : BBox num) : bool :=
  (jsmax (minLon b) (minLon JAPAN_BOUNDS)
     >=? jsmin (maxLon b) (maxLon JAPAN_BOUNDS))%js
  || (jsmax (minLat b) (minLat JAPAN_BOUNDS)
        >=? jsmin (maxLat b) (maxLat JAPAN_BOUNDS))%js.

Lemma intersectBbox_degenerate (b : BBox num) :
  degenerateBox b = true -> intersectBbox b JAPAN_BOUNDS = None.
Proof.
  unfold degenerateBox, intersectBbox. cbv zeta. intros ->. reflexivity.
Qed.

(** C10: a box without width or without height after clamping has no
    cells, whatever the maximum, and a feature with such a bounding box
    has no pieces. *)
Theorem degenerate_bbox_no_cells :
  forall (MAX_CELLS_PER_FEATURE : option num) (b : BBox num),
    degenerateBox b = true ->
    buildMeshCells MAX_CELLS_PER_FEATURE b = []
    /\ forall (geom : Type) (T : Turf num geom) (g : geom),
         turfBbox g = b ->
         buildLineMeshPieces MAX_CELLS_PER_FEATURE g = []
         /\ buildPolygonMeshPieces MAX_CELLS_PER_FEATURE g = [].
Proof.
  intros MAX b Hdeg.
  assert (Hcells : buildMeshCells MAX b = []).
  { unfold buildMeshCells. rewrite (intersectBbox_degenerate b Hdeg).
    reflexivity. }
  split; [exact Hcells|].
  intros geom T g Hg. unfold buildLineMeshPieces, buildPolygonMeshPieces.
  cbv zeta. rewrite Hg, Hcells.
  split.
  - destruct (degenerate (turf_length g)); reflexivity.
  - destruct (degenerate (turf_area g)); reflexivity.
Qed.

End Guards.

(** A box of two degrees by two degrees around Tokyo has 614400 cells,
    more than the bound 12000 of [db/mapMeshes.ts]. *)
Lemma buildMeshCells_capacity_guard_witness :
  buildMeshCells (Some (ofZ 12000 : float))
    (mkBBox (ofZ 139) (ofZ 35) (ofZ 141) (ofZ 37)) = [].
Proof.
  apply (buildMeshCells_capacity_guard (Some (ofZ 12000 : float))
           (mkBBox (ofZ 139) (ofZ 35) (ofZ 141) (ofZ 37))
           (mkBBox (ofZ 139) (ofZ 35) (ofZ 141) (ofZ 37))).
  - vm_compute. reflexivity.
  - vm_compute. reflexivity.
Defined.

(** A vertical line inside the national extent: its bounding box has no
    width. *)
Lemma degenerate_bbox_no_cells_witness :
  buildMeshCells (num := float) None
    (sampleBbox (LineString [(lit 1397 1, lit 356 1); (lit 1397 1, lit 357 1)]))
  = [].
Proof.
  apply (degenerate_bbox_no_cells (num := float) None
           (sampleBbox
              (LineString [(lit 1397 1, lit 356 1); (lit 1397 1, lit 357 1)]))).
  vm_compute. reflexivity.
Defined.

(** ** Bounded batches *)

Section ChunkFacts.
Context {A : Type}.
Implicit Types rows chunk : list A.

Lemma slice_length (i size : nat) rows :
  length (slice i (i + size) rows) = Nat.min size (length rows - i).
Proof.
  unfold slice. rewrite length_take, length_drop.
  replace (i + size - i)%nat with size by lia. reflexivity.
Qed.

(** The loop of [chunkArray] with enough turns: the chunks are not
    empty, none is longer than [size], there are [ceil((n - i) / size)]
    of them, and together they are the rows from [i] on. *)
Lemma chunkLoop_spec (size : nat) rows :
  (0 < size)%nat ->
  forall fuel i,
    (length rows - i <= fuel)%nat ->
    concat (chunkLoop fuel i size rows) = drop i rows
    /\ Forall (fun chunk => (0 < length chunk <= size)%nat)
         (chunkLoop fuel i size rows)
    /\ length (chunkLoop fuel i size rows)
       = ((length rows - i + (size - 1)) / size)%nat.
Proof.
  intros Hsize fuel. induction fuel as [|k IH]; intros i Hfuel; simpl.
  - split; [|split].
    + rewrite drop_ge by lia. reflexivity.
    + constructor.
    + replace (length rows - i)%nat with 0%nat by lia.
      symmetry. apply Nat.div_small. lia.
  - destruct (Nat.ltb_spec i (length rows)) as [Hlt|Hge].
    + destruct (IH (i + size)%nat) as (Hc & Hf & Hl); [lia|].
      split; [|split].
      * simpl. rewrite Hc. unfold slice.
        replace (i + size - i)%nat with size by lia.
        rewrite <- drop_drop. apply take_drop.
      * constructor; [|exact Hf]. rewrite slice_length. lia.
      * simpl. rewrite Hl.
        destruct (Nat.le_gt_cases size (length rows - i)) as [Hbig|Hsmall].
        -- replace (length rows - i + (size - 1))%nat
             with (length rows - (i + size) + (size - 1) + 1 * size)%nat
             by lia.
           rewrite Nat.div_add by lia. lia.
        -- replace (length rows - (i + size))%nat with 0%nat by lia.
           rewrite (Nat.div_small (0 + (size - 1))) by lia.
           replace (length rows - i + (size - 1))%nat
             with ((length rows - i - 1) + 1 * size)%nat by lia.
           rewrite Nat.div_add by lia.
           rewrite Nat.div_small by lia. reflexivity.
    + split; [|split].
      * rewrite drop_ge by lia. reflexivity.
      * constructor.
      * replace (length rows - i)%nat with 0%nat by lia.
        symmetry. apply Nat.div_small. lia.
Qed.

(** Without any assumption on [size] or on the turns, no chunk is longer
    than [size]. *)
Lemma chunkLoop_bounded (size : nat) rows (fuel i : nat) :
  Forall (fun chunk => (length chunk <= size)%nat) (chunkLoop fuel i size rows).
Proof.
  revert i. induction fuel as [|k IH]; intros i; simpl; [constructor|].
  destruct (i <? length rows)%nat; [|constructor].
  constructor; [|apply IH]. rewrite slice_length. lia.
Qed.

Lemma chunkArray_bounded (size : nat) rows :
  Forall (fun chunk => (length chunk <= size)%nat) (chunkArray rows size).
Proof. apply chunkLoop_bounded. Qed.

Lemma chunkArray_spec (size : nat) rows :
  (0 < size)%nat ->
  concat (chunkArray rows size) = rows
  /\ Forall (fun chunk => (0 < length chunk <= size)%nat) (chunkArray rows size)
  /\ length (chunkArray rows size) = ((length rows + (size - 1)) / size)%nat.
Proof.
  intros Hsize. unfold chunkArray.
  destruct (chunkLoop_spec size rows Hsize (length rows) 0) as (Hc & Hf & Hl);
    [lia|].
  rewrite Nat.sub_0_r in Hl. rewrite drop_0 in Hc. auto.
Qed.

Lemma filter_nonEmpty_id (chunks : list (list A)) :
  Forall (fun chunk => (0 < length chunk)%nat) chunks ->
  List.filter nonEmpty chunks = chunks.
Proof.
  induction 1 as [|c cs Hc _ IH]; simpl; [reflexivity|].
  destruct c; simpl in *; [lia|]. rewrite IH. reflexivity.
Qed.

Lemma statements_are_chunks rows :
  insertRowsDynamic_statements rows = chunkArray rows INSERT_CHUNK_SIZE
  /\ insertInChunks_statements rows = chunkArray rows INSERT_CHUNK_SIZE.
Proof.
  unfold insertRowsDynamic_statements, insertInChunks_statements.
  fold (chunkArray rows INSERT_CHUNK_SIZE).
  destruct (chunkArray_spec INSERT_CHUNK_SIZE rows) as (_ & Hf & _);
    [unfold INSERT_CHUNK_SIZE; lia|].
  split; apply filter_nonEmpty_id; eapply Forall_impl; eauto; simpl; lia.
Qed.

End ChunkFacts.

Section LogFacts.
Context {num : Type} `{JSNumber num}.
Context {props : Type}.
Context `{Turf num (Geometry num)}.
Variable emptyProps : props.
Variable MAX_CELLS_PER_FEATURE : option num.
Variable fileBase : string -> string.
Implicit Types s : Store num props.

(** An entry of the log with at most 500 rows. *)
Definition boundedEntry (e : string * nat) : Prop :=
  (e.2 <= INSERT_CHUNK_SIZE)%nat.

(** From [s] to [s'] only statements of at most 500 rows were sent. *)
Definition sendsBounded s s' : Prop :=
  exists new, log s' = (new ++ log s)%list /\ Forall boundedEntry new.

Lemma sendsBounded_refl s : sendsBounded s s.
Proof. exists []. split; [reflexivity|constructor]. Qed.

Lemma sendsBounded_trans s1 s2 s3 :
  sendsBounded s1 s2 -> sendsBounded s2 s3 -> sendsBounded s1 s3.
Proof.
  intros (n1 & E1 & F1) (n2 & E2 & F2). exists (n2 ++ n1)%list. split.
  - rewrite E2, E1. apply app_assoc.
  - apply Forall_app. split; assumption.
Qed.

Lemma sendsBounded_same_log s s' : log s' = log s -> sendsBounded s s'.
Proof. intros E. exists []. split; [exact E|constructor]. Qed.

Lemma sendsBounded_logInsert t n s s0 :
  log s0 = log s ->
  (n <= INSERT_CHUNK_SIZE)%nat -> sendsBounded s (logInsert t n s0).
Proof.
  intros E Hn. exists [(t, n)]. split; [simpl; rewrite E; reflexivity|].
  constructor; [exact Hn|constructor].
Qed.

Lemma sendsBounded_foldl {B : Type} (P : B -> Prop)
    (f : Store num props -> B -> Store num props) (l : list B) :
  Forall P l ->
  (forall s x, P x -> sendsBounded s (f s x)) ->
  forall s, sendsBounded s (foldl f s l).
Proof.
  intros HP Hf. induction HP as [|x l Hx _ IH]; intros s; simpl.
  - apply sendsBounded_refl.
  - eapply sendsBounded_trans; [apply Hf, Hx|apply IH].
Qed.

Lemma sendsBounded_insertFeatures k rows s :
  (length rows <= INSERT_CHUNK_SIZE)%nat ->
  sendsBounded s (insertFeatures k rows s).1.
Proof.
  intros Hn. exists [(featureTableName k, length rows)].
  split; [destruct k; reflexivity|].
  constructor; [exact Hn|constructor].
Qed.

Lemma sendsBounded_insertMeshMap k rows s :
  (length rows <= INSERT_CHUNK_SIZE)%nat ->
  sendsBounded s (insertMeshMap k rows s).
Proof.
  intros Hn. exists [(meshMapName k, length rows)].
  split; [destruct k; reflexivity|].
  constructor; [exact Hn|constructor].
Qed.

Lemma sendsBounded_insertRowsDynamic t rows s :
  sendsBounded s (insertRowsDynamic t rows s).
Proof.
  unfold insertRowsDynamic.
  rewrite (proj1 (statements_are_chunks rows)).
  apply (sendsBounded_foldl (fun c => (length c <= INSERT_CHUNK_SIZE)%nat));
    [apply chunkArray_bounded|].
  intros s' c Hc. unfold insertDyn.
  apply sendsBounded_logInsert; [reflexivity|exact Hc].
Qed.

Lemma sendsBounded_upsertMeshIndex ids s :
  sendsBounded s (upsertMeshIndex ids s).
Proof.
  unfold upsertMeshIndex.
  apply (sendsBounded_foldl (fun c => (length c <= INSERT_CHUNK_SIZE)%nat));
    [apply chunkArray_bounded|].
  intros s' c Hc. apply sendsBounded_logInsert; [reflexivity|exact Hc].
Qed.

Lemma log_refreshMeshFlags ids s : log (refreshMeshFlags ids s) = log s.
Proof. unfold refreshMeshFlags. destruct (decide (ids = [])); reflexivity. Qed.

Lemma log_removeLayerPresence l ids s :
  log (removeLayerPresence l ids s) = log s.
Proof. unfold removeLayerPresence. destruct (decide (ids = [])); reflexivity. Qed.

Lemma log_addLayerPresence l ids s : log (addLayerPresence l ids s) = log s.
Proof. unfold addLayerPresence. destruct (decide (ids = [])); reflexivity. Qed.

Lemma log_createTable t s : log (createTable t s) = log s.
Proof. unfold createTable. destruct (tables s !! t); reflexivity. Qed.

Lemma log_ensureLayerTables (def : LayerDefinition num props) s :
  log (ensureLayerTables def s) = log s.
Proof.
  unfold ensureLayerTables.
  destruct (geometryType def), (meshMapTable def);
    rewrite ?log_createTable; reflexivity.
Qed.

Lemma log_deleteLayerTables (def : LayerDefinition num props) s :
  log (deleteLayerTables def s) = log s.
Proof. unfold deleteLayerTables. destruct (meshMapTable def); reflexivity. Qed.

Lemma sendsBounded_processPointLayer def s :
  sendsBounded s (processPointLayer emptyProps def s).1.
Proof.
  unfold processPointLayer. cbv zeta. cbn [fst].
  eapply sendsBounded_trans; [apply sendsBounded_upsertMeshIndex|].
  eapply sendsBounded_trans; [apply sendsBounded_insertRowsDynamic|].
  apply (sendsBounded_foldl (fun c => (length c <= INSERT_CHUNK_SIZE)%nat));
    [apply chunkArray_bounded|].
  intros s' c Hc. destruct (nonEmpty c).
  - apply sendsBounded_insertFeatures, Hc.
  - apply sendsBounded_refl.
Qed.

Lemma sendsBounded_processItemChunk k def mt s (chunk : list (Item num props)) :
  (length chunk <= INSERT_CHUNK_SIZE)%nat ->
  sendsBounded s (processItemChunk k def mt s chunk).
Proof.
  intros Hc. unfold processItemChunk. cbv zeta.
  destruct (insertFeatures k _ s) as [s1 ids] eqn:E.
  assert (H1 : sendsBounded s s1).
  { change s1 with (s1, ids).1. rewrite <- E.
    apply sendsBounded_insertFeatures. rewrite length_map. exact Hc. }
  eapply sendsBounded_trans; [exact H1|].
  eapply sendsBounded_trans; [|apply sendsBounded_insertRowsDynamic].
  apply (sendsBounded_foldl (fun c => (length c <= INSERT_CHUNK_SIZE)%nat));
    [apply chunkArray_bounded|].
  intros s' c Hc'. destruct (nonEmpty c).
  - apply sendsBounded_insertMeshMap, Hc'.
  - apply sendsBounded_refl.
Qed.

Lemma sendsBounded_processItems k def items s :
  sendsBounded s (processItems k def items s).1.
Proof.
  unfold processItems. destruct (meshMapTable def) as [mt|]; cbn [fst];
    [|apply sendsBounded_refl].
  eapply sendsBounded_trans; [apply sendsBounded_upsertMeshIndex|].
  eapply sendsBounded_trans; [apply sendsBounded_insertRowsDynamic|].
  apply (sendsBounded_foldl (fun c => (length c <= INSERT_CHUNK_SIZE)%nat));
    [apply chunkArray_bounded|].
  intros s' c Hc. apply sendsBounded_processItemChunk, Hc.
Qed.

Lemma sendsBounded_processLayer def s :
  sendsBounded s (processLayer emptyProps MAX_CELLS_PER_FEATURE def s).
Proof.
  unfold processLayer. cbv zeta.
  set (s0 := ensureLayerTables def _).
  assert (E0 : log s0 = log s).
  { subst s0. rewrite log_ensureLayerTables.
    destruct (layer_registry s !! layerName def) as [prev|]; simpl.
    - destruct (lr_meshMapTable prev); [destruct (decide _)|];
        simpl; rewrite ?log_deleteLayerTables; reflexivity.
    - rewrite log_deleteLayerTables. reflexivity. }
  clearbody s0.
  set (r := match geometryType def with
            | point => _ | line => _ | polygon => _ end).
  assert (Hr : sendsBounded s0 r.1).
  { subst r. destruct (geometryType def).
    - apply sendsBounded_processPointLayer.
    - apply sendsBounded_processItems.
    - apply sendsBounded_processItems. }
  destruct r as [s1 newIds]. simpl in Hr.
  eapply sendsBounded_trans; [apply sendsBounded_same_log; exact E0|].
  eapply sendsBounded_trans; [exact Hr|].
  apply sendsBounded_logInsert; [|unfold INSERT_CHUNK_SIZE; lia].
  simpl.
  rewrite log_refreshMeshFlags, log_addLayerPresence, log_removeLayerPresence.
  reflexivity.
Qed.

Lemma log_removeLayer name row s : log (removeLayer name row s) = log s.
Proof.
  unfold removeLayer. cbv zeta.
  rewrite log_refreshMeshFlags, log_removeLayerPresence. simpl.
  destruct (lr_meshMapTable row); reflexivity.
Qed.

Lemma sendsBounded_ingestFile fileName collection s :
  sendsBounded s
    (ingestFile emptyProps MAX_CELLS_PER_FEATURE fileBase fileName collection s).
Proof.
  unfold ingestFile. cbv zeta.
  destruct (layerDefs fileBase fileName collection) as [|d ds] eqn:E;
    [apply sendsBounded_refl|].
  set (s1 := foldl _ s (staleLayers _ _ s)).
  assert (H1 : sendsBounded s s1).
  { subst s1. apply (sendsBounded_foldl (fun _ : string * LayerRow => True)).
    - apply Forall_forall. intros; exact I.
    - intros s' [name row] _. apply sendsBounded_same_log, log_removeLayer. }
  eapply sendsBounded_trans; [exact H1|].
  apply (sendsBounded_foldl (fun _ : LayerDefinition num props => True)).
  - apply Forall_forall. intros; exact I.
  - intros s' def _. apply sendsBounded_processLayer.
Qed.

End LogFacts.

(** C8: every insert statement has at most 500 rows.  The statements of
    [insertRowsDynamic] and of [insertInChunks] for [n] rows are
    [ceil(n / 500)] chunks, none empty and none longer than 500, which
    together are the rows; and whatever the file and the store, the
    statements that [ingestFile] adds to the log of the store (the
    cross-layer tables, the per-layer tables, the mesh index and the
    registry) have at most 500 rows each. *)
Theorem insert_statements_bounded :
  (forall (A : Type) (rows : list A),
      let sent := insertRowsDynamic_statements rows in
      length sent = ((length rows + 499) / 500)%nat
      /\ Forall (fun chunk => (0 < length chunk <= 500)%nat) sent
      /\ concat sent = rows)
  /\ (forall (A : Type) (rows : list A),
      let sent := insertInChunks_statements rows in
      length sent = ((length rows + 499) / 500)%nat
      /\ Forall (fun chunk => (0 < length chunk <= 500)%nat) sent
      /\ concat sent = rows)
  /\ (forall (num props : Type) (N : JSNumber num) (T : Turf num (Geometry num))
        (emptyProps : props) (MAX_CELLS_PER_FEATURE : option num)
        (fileBase : string -> string) (fileName : string)
        (collection : list (Feature num props)) (s : Store num props),
      exists sent,
        log (ingestFile emptyProps MAX_CELLS_PER_FEATURE fileBase fileName
               collection s) = (sent ++ log s)%list
        /\ Forall (fun e => (e.2 <= 500)%nat) sent).
Proof.
  split; [|split].
  - intros A rows sent. subst sent.
    rewrite (proj1 (statements_are_chunks rows)).
    destruct (chunkArray_spec INSERT_CHUNK_SIZE rows) as (Hc & Hf & Hl);
      [unfold INSERT_CHUNK_SIZE; lia|].
    auto.
  - intros A rows sent. subst sent.
    rewrite (proj2 (statements_are_chunks rows)).
    destruct (chunkArray_spec INSERT_CHUNK_SIZE rows) as (Hc & Hf & Hl);
      [unfold INSERT_CHUNK_SIZE; lia|].
    auto.
  - intros. apply sendsBounded_ingestFile.
Qed.

(** ** GeometryClipper: the ratio *)

Section RatioBound.
Context {geom : Type} `{Turf Q geom}.
Variable MAX_CELLS_PER_FEATURE : option Q.
Local Open Scope Q_scope.

(** The library returns a length and an area that are not negative. *)
Hypothesis turf_length_nonneg : forall g : geom, 0 <= turf_length g.
Hypothesis turf_area_nonneg : forall g : geom, 0 <= turf_area g.

Lemma degenerate_false_positive (x : Q) :
  0 <= x -> degenerate x = false -> 0 < x.
Proof.
  unfold degenerate. simpl. intros Hx Hd.
  apply orb_false_elim in Hd as [Hd _].
  apply negb_false_iff, negb_true_iff in Hd.
  apply Qeq_bool_neq in Hd.
  destruct (Qlt_le_dec 0 x) as [Hlt|Hle]; [exact Hlt|].
  exfalso. apply Hd. apply Qle_antisym; assumption.
Qed.

Lemma ratio_in_unit_interval (clipped total : Q) :
  0 < clipped -> 0 < total ->
  0 <= jsmin (ofZ 1) (clipped / total)%js <= 1.
Proof.
  intros Hc Ht. simpl.
  assert (Hq : 0 < clipped / total).
  { unfold Qdiv. apply Qmult_lt_0_compat; [exact Hc|].
    apply Qinv_lt_0_compat, Ht. }
  destruct (Qle_bool (inject_Z 1) (clipped / total)) eqn:E.
  - split; [discriminate|apply Qle_refl].
  - split; [apply Qlt_le_weak, Hq|].
    destruct (Qlt_le_dec (clipped / total) 1) as [Hlt|Hle].
    + apply Qlt_le_weak, Hlt.
    + apply Qle_bool_iff in Hle. unfold inject_Z in E.
      change (1 # 1) with 1 in E. rewrite Hle in E. discriminate.
Qed.

Lemma line_piece_ratio (feature : geom) (piece : MeshPiece Q geom) :
  piece ∈ buildLineMeshPieces MAX_CELLS_PER_FEATURE feature ->
  0 <= lengthRatio piece <= 1.
Proof.
  unfold buildLineMeshPieces. cbv zeta.
  destruct (degenerate (turf_length feature)) eqn:Etotal;
    [intros Hin; inversion Hin|].
  intros Hin. apply list_elem_of_omap in Hin as (cell & _ & Hpiece).
  unfold linePieceOf in Hpiece.
  destruct (bboxClip feature (bbox cell)) as [clipped|]; [|discriminate].
  cbv zeta in Hpiece.
  destruct (degenerate (turf_length clipped)) eqn:Eclip; [discriminate|].
  injection Hpiece as <-. unfold lengthRatio. cbn [piece_ratio].
  apply ratio_in_unit_interval;
    apply degenerate_false_positive; auto.
Qed.

Lemma polygon_piece_ratio (feature : geom) (piece : MeshPiece Q geom) :
  piece ∈ buildPolygonMeshPieces MAX_CELLS_PER_FEATURE feature ->
  0 <= areaRatio piece <= 1.
Proof.
  unfold buildPolygonMeshPieces. cbv zeta.
  destruct (degenerate (turf_area feature)) eqn:Etotal;
    [intros Hin; inversion Hin|].
  intros Hin. apply list_elem_of_omap in Hin as (cell & _ & Hpiece).
  unfold polygonPieceOf in Hpiece.
  destruct (bboxClip feature (bbox cell)) as [clipped|]; [|discriminate].
  cbv zeta in Hpiece.
  destruct (degenerate (turf_area clipped)) eqn:Eclip; [discriminate|].
  injection Hpiece as <-. unfold areaRatio. cbn [piece_ratio].
  apply ratio_in_unit_interval;
    apply degenerate_false_positive; auto.
Qed.

End RatioBound.


(** ** GridTiler in exact arithmetic *)

Section TilingQ.
Local Open Scope Q_scope.

Lemma Qltb_lt (a b : Q) : Qltb a b = true <-> a < b.
Proof.
  unfold Qltb. rewrite negb_true_iff. split.
  - intros E. apply Qnot_le_lt. intros Hle.
    apply Qle_bool_iff in Hle. congruence.
  - intros Hlt. destruct (Qle_bool b a) eqn:E; [|reflexivity].
    apply Qle_bool_iff in E. exfalso. apply (Qlt_not_le _ _ Hlt E).
Qed.

Lemma Qltb_ge (a b : Q) : Qltb a b = false <-> b <= a.
Proof.
  unfold Qltb. rewrite negb_false_iff. apply Qle_bool_iff.
Qed.

(** The value of a loop variable after [k] turns. *)
Fixpoint stepN (step x : Q) (k : nat) : Q :=
  match k with
  | O => x
  | S k' => stepN step (x + step) k'
  end.

Lemma stepN_closed (step x : Q) (k : nat) :
  stepN step x k == x + inject_Z (Z.of_nat k) * step.
Proof.
  revert x. induction k as [|k IH]; intros x.
  - simpl. ring.
  - cbn [stepN]. rewrite IH. rewrite Nat2Z.inj_succ. unfold Z.succ.
    rewrite inject_Z_plus. ring.
Qed.

Lemma latStep_value : (MESH_LAT_STEP_SEC : Q) = 75 # 10.
Proof. reflexivity. Qed.

Lemma lonStep_value : (MESH_LON_STEP_SEC : Q) = 1125 # 100.
Proof. reflexivity. Qed.

Lemma stepN_mono (step x : Q) (k : nat) : 0 <= step -> x <= stepN step x k.
Proof.
  intros Hs. rewrite stepN_closed.
  assert (0 <= inject_Z (Z.of_nat k) * step).
  { apply Qmult_le_0_compat; [|exact Hs].
    change 0 with (inject_Z 0). rewrite <- Zle_Qle. lia. }
  lra.
Qed.

(** The cells of one row: one per turn whose loop variable is below the
    end. *)
Lemma lonLoop_elem (c : MeshCell Q) (fuel : nat) (x e lat : Q) :
  c ∈ lonLoop fuel x e lat <->
  exists j : nat,
    (j < fuel)%nat /\ stepN MESH_LON_STEP_SEC x j < e
    /\ c = meshCellAt lat (stepN MESH_LON_STEP_SEC x j).
Proof.
  revert x. induction fuel as [|k IH]; intros x; cbn [lonLoop].
  - split; [intros Hin; inversion Hin|intros (j & Hj & _); lia].
  - change (ltb x e) with (Qltb x e).
    destruct (Qltb x e) eqn:E.
    + apply Qltb_lt in E. rewrite elem_of_cons, IH. split.
      * intros [->|(j & Hj & Hlt & ->)].
        -- exists 0%nat. repeat split; [lia|exact E].
        -- exists (S j). repeat split; [lia|exact Hlt].
      * intros (j & Hj & Hlt & ->). destruct j as [|j].
        -- left. reflexivity.
        -- right. exists j. repeat split; [lia|exact Hlt].
    + apply Qltb_ge in E. split; [intros Hin; inversion Hin|].
      intros (j & _ & Hlt & _). exfalso.
      assert (x <= stepN MESH_LON_STEP_SEC x j).
      { apply stepN_mono. rewrite lonStep_value. discriminate. }
      lra.
Qed.

Lemma latLoop_elem (c : MeshCell Q) (fuel colFuel : nat) (y e sLon eLon : Q) :
  c ∈ latLoop fuel colFuel y e sLon eLon <->
  exists k j : nat,
    (k < fuel)%nat /\ stepN MESH_LAT_STEP_SEC y k < e
    /\ (j < colFuel)%nat /\ stepN MESH_LON_STEP_SEC sLon j < eLon
    /\ c = meshCellAt (stepN MESH_LAT_STEP_SEC y k)
             (stepN MESH_LON_STEP_SEC sLon j).
Proof.
  revert y. induction fuel as [|k IH]; intros y; cbn [latLoop].
  - split; [intros Hin; inversion Hin|intros (k & j & Hk & _); lia].
  - change (ltb y e) with (Qltb y e).
    destruct (Qltb y e) eqn:E.
    + apply Qltb_lt in E. rewrite elem_of_app, IH, lonLoop_elem. split.
      * intros [(j & Hj & Hlt & ->)|(k' & j & Hk & Hlt & Hj & Hlt' & ->)].
        -- exists 0%nat, j. repeat split; [lia|exact E|exact Hj|exact Hlt].
        -- exists (S k'), j. repeat split; [lia|exact Hlt|exact Hj|exact Hlt'].
      * intros (k' & j & Hk & Hlt & Hj & Hlt' & ->). destruct k' as [|k'].
        -- left. exists j. repeat split; [exact Hj|exact Hlt'].
        -- right. exists k', j.
           repeat split; [lia|exact Hlt|exact Hj|exact Hlt'].
    + apply Qltb_ge in E. split; [intros Hin; inversion Hin|].
      intros (k' & j & _ & Hlt & _). exfalso.
      assert (y <= stepN MESH_LAT_STEP_SEC y k').
      { apply stepN_mono. rewrite latStep_value. discriminate. }
      lra.
Qed.

(** The rows and the columns of the fixed grid that the snapped box of
    [b] spans: rows [rowLo b .. rowHi b - 1], columns likewise. *)
Definition rowLo (b : BBox Q) : Z :=
  Qfloor (minLat b * 3600 / MESH_LAT_STEP_SEC).
Definition rowHi (b : BBox Q) : Z :=
  Qceiling (maxLat b * 3600 / MESH_LAT_STEP_SEC).
Definition colLo (b : BBox Q) : Z :=
  Qfloor (minLon b * 3600 / MESH_LON_STEP_SEC).
Definition colHi (b : BBox Q) : Z :=
  Qceiling (maxLon b * 3600 / MESH_LON_STEP_SEC).

Lemma startLatSec_value b :
  startLatSec b = inject_Z (rowLo b) * MESH_LAT_STEP_SEC.
Proof. reflexivity. Qed.
Lemma endLatSec_value b :
  endLatSec b = inject_Z (rowHi b) * MESH_LAT_STEP_SEC.
Proof. reflexivity. Qed.
Lemma startLonSec_value b :
  startLonSec b = inject_Z (colLo b) * MESH_LON_STEP_SEC.
Proof. reflexivity. Qed.
Lemma endLonSec_value b :
  endLonSec b = inject_Z (colHi b) * MESH_LON_STEP_SEC.
Proof. reflexivity. Qed.

Lemma gridRows_value b : toZ (gridRows b) = (rowHi b - rowLo b)%Z.
Proof.
  unfold gridRows. rewrite startLatSec_value, endLatSec_value.
  change (Qfloor (inject_Z (Qceiling
            ((inject_Z (rowHi b) * MESH_LAT_STEP_SEC
              - inject_Z (rowLo b) * MESH_LAT_STEP_SEC) / MESH_LAT_STEP_SEC)))
          = (rowHi b - rowLo b)%Z).
  rewrite Qfloor_Z, latStep_value.
  rewrite <- (Qceiling_Z (rowHi b - rowLo b)) at 1. apply Qceiling_comp.
  unfold Z.sub. rewrite inject_Z_plus, inject_Z_opp. field.
Qed.

Lemma gridCols_value b : toZ (gridCols b) = (colHi b - colLo b)%Z.
Proof.
  unfold gridCols. rewrite startLonSec_value, endLonSec_value.
  change (Qfloor (inject_Z (Qceiling
            ((inject_Z (colHi b) * MESH_LON_STEP_SEC
              - inject_Z (colLo b) * MESH_LON_STEP_SEC) / MESH_LON_STEP_SEC)))
          = (colHi b - colLo b)%Z).
  rewrite Qfloor_Z, lonStep_value.
  rewrite <- (Qceiling_Z (colHi b - colLo b)) at 1. apply Qceiling_comp.
  unfold Z.sub. rewrite inject_Z_plus, inject_Z_opp. field.
Qed.

(** The loop variables at row [r] and column [c] of the grid. *)
Lemma latSec_at b (k : nat) :
  stepN MESH_LAT_STEP_SEC (startLatSec b) k
  == inject_Z (rowLo b + Z.of_nat k) * (75 # 10).
Proof.
  rewrite stepN_closed, startLatSec_value, latStep_value, inject_Z_plus. ring.
Qed.

Lemma lonSec_at b (j : nat) :
  stepN MESH_LON_STEP_SEC (startLonSec b) j
  == inject_Z (colLo b + Z.of_nat j) * (1125 # 100).
Proof.
  rewrite stepN_closed, startLonSec_value, lonStep_value, inject_Z_plus. ring.
Qed.

Lemma latSec_below_end b (k : nat) :
  stepN MESH_LAT_STEP_SEC (startLatSec b) k < endLatSec b
  <-> (rowLo b + Z.of_nat k < rowHi b)%Z.
Proof.
  rewrite latSec_at, endLatSec_value, latStep_value, Zlt_Qlt.
  split; intros Hlt; lra.
Qed.

Lemma lonSec_below_end b (j : nat) :
  stepN MESH_LON_STEP_SEC (startLonSec b) j < endLonSec b
  <-> (colLo b + Z.of_nat j < colHi b)%Z.
Proof.
  rewrite lonSec_at, endLonSec_value, lonStep_value, Zlt_Qlt.
  split; intros Hlt; lra.
Qed.

(** The cell of row [r] and column [c], as the loops build it. *)
Definition cellOf (b : BBox Q) (r c : Z) : MeshCell Q :=
  meshCellAt
    (stepN MESH_LAT_STEP_SEC (startLatSec b) (Z.to_nat (r - rowLo b)))
    (stepN MESH_LON_STEP_SEC (startLonSec b) (Z.to_nat (c - colLo b))).

(** The cells of [gridCells], with as many turns as the grid has rows
    and columns, are the cells of the rows and columns of the snapped
    box. *)
Lemma gridCells_elem (b : BBox Q) (cell : MeshCell Q) :
  cell ∈ gridCells (Z.to_nat (rowHi b - rowLo b))
           (Z.to_nat (colHi b - colLo b)) b
  <-> exists r c : Z,
        (rowLo b <= r < rowHi b)%Z /\ (colLo b <= c < colHi b)%Z
        /\ cell = cellOf b r c.
Proof.
  unfold gridCells. rewrite latLoop_elem. split.
  - intros (k & j & Hk & Hlat & Hj & Hlon & ->).
    exists (rowLo b + Z.of_nat k)%Z, (colLo b + Z.of_nat j)%Z.
    repeat split; try lia. unfold cellOf.
    replace (Z.to_nat (rowLo b + Z.of_nat k - rowLo b)) with k by lia.
    replace (Z.to_nat (colLo b + Z.of_nat j - colLo b)) with j by lia.
    reflexivity.
  - intros (r & c & Hr & Hc & ->).
    exists (Z.to_nat (r - rowLo b)), (Z.to_nat (c - colLo b)).
    repeat split; try lia.
    + apply latSec_below_end. lia.
    + apply lonSec_below_end. lia.
Qed.

(** Inside a box, its edges included, and strictly inside it. *)
Definition inBox (lon lat : Q) (b : BBox Q) : Prop :=
  minLon b <= lon <= maxLon b /\ minLat b <= lat <= maxLat b.
Definition strictlyInBox (lon lat : Q) (b : BBox Q) : Prop :=
  minLon b < lon < maxLon b /\ minLat b < lat < maxLat b.

(** The box of the cell of row [r] and column [c] is the cell of the
    fixed grid: [r/480 .. (r+1)/480] degrees of latitude and
    [c/320 .. (c+1)/320] degrees of longitude. *)
Lemma cellOf_bbox (b : BBox Q) (r c : Z) :
  (rowLo b <= r)%Z -> (colLo b <= c)%Z ->
  minLat (bbox (cellOf b r c)) == inject_Z r / 480
  /\ maxLat (bbox (cellOf b r c)) == (inject_Z r + 1) / 480
  /\ minLon (bbox (cellOf b r c)) == inject_Z c / 320
  /\ maxLon (bbox (cellOf b r c)) == (inject_Z c + 1) / 320.
Proof.
  intros Hr Hc. unfold cellOf, meshCellAt. cbv zeta. cbn [bbox minLat maxLat minLon maxLon].
  change (@div Q _) with Qdiv. change (@add Q _) with Qplus.
  change (@ofZ Q _) with inject_Z.
  rewrite latSec_at, lonSec_at, latStep_value, lonStep_value.
  replace (rowLo b + Z.of_nat (Z.to_nat (r - rowLo b)))%Z with r by lia.
  replace (colLo b + Z.of_nat (Z.to_nat (c - colLo b)))%Z with c by lia.
  repeat split; field.
Qed.

Lemma Qdiv_le_l (a x d : Q) : 0 < d -> (a / d <= x <-> a <= x * d).
Proof.
  intros Hd. split; intros Hle.
  - apply (Qmult_le_r _ _ d) in Hle; [|exact Hd].
    assert (a / d * d == a) by (field; lra). lra.
  - apply Qle_shift_div_r; assumption.
Qed.

Lemma Qdiv_le_r (a x d : Q) : 0 < d -> (x <= a / d <-> x * d <= a).
Proof.
  intros Hd. split; intros Hle.
  - apply (Qmult_le_r _ _ d) in Hle; [|exact Hd].
    assert (a / d * d == a) by (field; lra). lra.
  - apply Qle_shift_div_l; assumption.
Qed.

Lemma Qdiv_lt_l (a x d : Q) : 0 < d -> (a / d < x <-> a < x * d).
Proof.
  intros Hd. split; intros Hlt.
  - apply (Qmult_lt_r _ _ d) in Hlt; [|exact Hd].
    assert (a / d * d == a) by (field; lra). lra.
  - apply Qlt_shift_div_r; assumption.
Qed.

Lemma Qdiv_lt_r (a x d : Q) : 0 < d -> (x < a / d <-> x * d < a).
Proof.
  intros Hd. split; intros Hlt.
  - apply (Qmult_lt_r _ _ d) in Hlt; [|exact Hd].
    assert (a / d * d == a) by (field; lra). lra.
  - apply Qlt_shift_div_l; assumption.
Qed.

(** Clears the divisions by the 480 rows and the 320 columns of a
    degree from the goal and from the hypotheses. *)
Ltac clear_divisions :=
  repeat match goal with
    | H : context [(_ / 480 <= _)%Q] |- _ =>
        rewrite (Qdiv_le_l _ _ 480) in H by reflexivity
    | H : context [(_ <= _ / 480)%Q] |- _ =>
        rewrite (Qdiv_le_r _ _ 480) in H by reflexivity
    | H : context [(_ / 480 < _)%Q] |- _ =>
        rewrite (Qdiv_lt_l _ _ 480) in H by reflexivity
    | H : context [(_ < _ / 480)%Q] |- _ =>
        rewrite (Qdiv_lt_r _ _ 480) in H by reflexivity
    | H : context [(_ / 320 <= _)%Q] |- _ =>
        rewrite (Qdiv_le_l _ _ 320) in H by reflexivity
    | H : context [(_ <= _ / 320)%Q] |- _ =>
        rewrite (Qdiv_le_r _ _ 320) in H by reflexivity
    | H : context [(_ / 320 < _)%Q] |- _ =>
        rewrite (Qdiv_lt_l _ _ 320) in H by reflexivity
    | H : context [(_ < _ / 320)%Q] |- _ =>
        rewrite (Qdiv_lt_r _ _ 320) in H by reflexivity
    end;
  rewrite ?(fun a x => Qdiv_le_l a x 480), ?(fun a x => Qdiv_le_r a x 480),
    ?(fun a x => Qdiv_lt_l a x 480), ?(fun a x => Qdiv_lt_r a x 480),
    ?(fun a x => Qdiv_le_l a x 320), ?(fun a x => Qdiv_le_r a x 320),
    ?(fun a x => Qdiv_lt_l a x 320), ?(fun a x => Qdiv_lt_r a x 320)
    by reflexivity.

(** The snapped box: from the start to the end of the two loops. *)
Definition snappedBox (b : BBox Q) : BBox Q :=
  mkBBox (startLonSec b / 3600) (startLatSec b / 3600)
         (endLonSec b / 3600) (endLatSec b / 3600).

Lemma snappedBox_value (b : BBox Q) :
  minLat (snappedBox b) == inject_Z (rowLo b) / 480
  /\ maxLat (snappedBox b) == inject_Z (rowHi b) / 480
  /\ minLon (snappedBox b) == inject_Z (colLo b) / 320
  /\ maxLon (snappedBox b) == inject_Z (colHi b) / 320.
Proof.
  unfold snappedBox. cbn [minLat maxLat minLon maxLon].
  rewrite startLatSec_value, endLatSec_value, startLonSec_value,
    endLonSec_value, latStep_value, lonStep_value.
  repeat split; field.
Qed.

(** The rows and columns of a box, from its corners. *)
Lemma rows_cols_bounds (b : BBox Q) :
  inject_Z (rowLo b) <= minLat b * 480
  /\ maxLat b * 480 <= inject_Z (rowHi b)
  /\ inject_Z (colLo b) <= minLon b * 320
  /\ maxLon b * 320 <= inject_Z (colHi b).
Proof.
  pose proof (Qfloor_le (minLat b * 3600 / MESH_LAT_STEP_SEC)) as F1.
  pose proof (Qle_ceiling (maxLat b * 3600 / MESH_LAT_STEP_SEC)) as F2.
  pose proof (Qfloor_le (minLon b * 3600 / MESH_LON_STEP_SEC)) as F3.
  pose proof (Qle_ceiling (maxLon b * 3600 / MESH_LON_STEP_SEC)) as F4.
  fold (rowLo b) in F1. fold (rowHi b) in F2.
  fold (colLo b) in F3. fold (colHi b) in F4.
  rewrite latStep_value in F1, F2. rewrite lonStep_value in F3, F4.
  assert (G1 : minLat b * 3600 / (75 # 10) == minLat b * 480) by field.
  assert (G2 : maxLat b * 3600 / (75 # 10) == maxLat b * 480) by field.
  assert (G3 : minLon b * 3600 / (1125 # 100) == minLon b * 320) by field.
  assert (G4 : maxLon b * 3600 / (1125 # 100) == maxLon b * 320) by field.
  rewrite G1 in F1. rewrite G2 in F2. rewrite G3 in F3. rewrite G4 in F4.
  auto.
Qed.

(** A box is inside its snapped box. *)
Lemma snappedBox_contains (b : BBox Q) (lon lat : Q) :
  inBox lon lat b -> inBox lon lat (snappedBox b).
Proof.
  intros [[Hx0 Hx1] [Hy0 Hy1]].
  destruct (snappedBox_value b) as (E1 & E2 & E3 & E4).
  destruct (rows_cols_bounds b) as (F1 & F2 & F3 & F4).
  unfold inBox. rewrite E1, E2, E3, E4. clear_divisions.
  repeat split; lra.
Qed.

(** Every point of the snapped box is in the box of a cell of the grid. *)
Lemma grid_covers (b : BBox Q) (lon lat : Q) :
  (rowLo b < rowHi b)%Z -> (colLo b < colHi b)%Z ->
  inBox lon lat (snappedBox b) ->
  exists r c : Z,
    (rowLo b <= r < rowHi b)%Z /\ (colLo b <= c < colHi b)%Z
    /\ inBox lon lat (bbox (cellOf b r c)).
Proof.
  intros Hrows Hcols [[Hx0 Hx1] [Hy0 Hy1]].
  destruct (snappedBox_value b) as (E1 & E2 & E3 & E4).
  rewrite E3 in Hx0. rewrite E4 in Hx1. rewrite E1 in Hy0. rewrite E2 in Hy1.
  clear_divisions.
  set (r := Z.min (Qfloor (lat * 480)) (rowHi b - 1)).
  set (c := Z.min (Qfloor (lon * 320)) (colHi b - 1)).
  assert (Hr0 : (rowLo b <= Qfloor (lat * 480))%Z).
  { rewrite <- (Qfloor_Z (rowLo b)). apply Qfloor_resp_le. exact Hy0. }
  assert (Hc0 : (colLo b <= Qfloor (lon * 320))%Z).
  { rewrite <- (Qfloor_Z (colLo b)). apply Qfloor_resp_le. exact Hx0. }
  exists r, c. split; [subst r; lia|]. split; [subst c; lia|].
  destruct (cellOf_bbox b r c) as (B1 & B2 & B3 & B4);
    [subst r; lia|subst c; lia|].
  unfold inBox. rewrite B1, B2, B3, B4.
  pose proof (Qfloor_le (lat * 480)) as F1.
  pose proof (Qlt_floor (lat * 480)) as F2.
  pose proof (Qfloor_le (lon * 320)) as F3.
  pose proof (Qlt_floor (lon * 320)) as F4.
  rewrite inject_Z_plus in F2, F4. change (inject_Z 1) with 1 in F2, F4.
  assert (Hr1 : inject_Z r <= inject_Z (Qfloor (lat * 480))).
  { rewrite <- Zle_Qle. subst r. lia. }
  assert (Hc1 : inject_Z c <= inject_Z (Qfloor (lon * 320))).
  { rewrite <- Zle_Qle. subst c. lia. }
  assert (Hr2 : lat * 480 <= inject_Z r + 1).
  { destruct (Z.min_spec (Qfloor (lat * 480)) (rowHi b - 1)) as [[_ E]|[_ E]];
      fold r in E; rewrite E.
    - lra.
    - unfold Z.sub. rewrite inject_Z_plus, inject_Z_opp.
      change (inject_Z 1) with 1. lra. }
  assert (Hc2 : lon * 320 <= inject_Z c + 1).
  { destruct (Z.min_spec (Qfloor (lon * 320)) (colHi b - 1)) as [[_ E]|[_ E]];
      fold c in E; rewrite E.
    - lra.
    - unfold Z.sub. rewrite inject_Z_plus, inject_Z_opp.
      change (inject_Z 1) with 1. lra. }
  clear_divisions. repeat split; lra.
Qed.

(** The box of a cell of the grid is inside the snapped box. *)
Lemma cellOf_in_snappedBox (b : BBox Q) (r c : Z) (lon lat : Q) :
  (rowLo b <= r < rowHi b)%Z -> (colLo b <= c < colHi b)%Z ->
  inBox lon lat (bbox (cellOf b r c)) -> inBox lon lat (snappedBox b).
Proof.
  intros Hr Hc.
  destruct (cellOf_bbox b r c) as (B1 & B2 & B3 & B4); [lia|lia|].
  destruct (snappedBox_value b) as (E1 & E2 & E3 & E4).
  unfold inBox. rewrite B1, B2, B3, B4, E1, E2, E3, E4.
  assert (H1 : inject_Z (rowLo b) <= inject_Z r) by (rewrite <- Zle_Qle; lia).
  assert (H2 : inject_Z r + 1 <= inject_Z (rowHi b)).
  { change 1 with (inject_Z 1). rewrite <- inject_Z_plus, <- Zle_Qle. lia. }
  assert (H3 : inject_Z (colLo b) <= inject_Z c) by (rewrite <- Zle_Qle; lia).
  assert (H4 : inject_Z c + 1 <= inject_Z (colHi b)).
  { change 1 with (inject_Z 1). rewrite <- inject_Z_plus, <- Zle_Qle. lia. }
  intros [[X0 X1] [Y0 Y1]]. clear_divisions. repeat split; lra.
Qed.

(** Two cells of the grid with a common interior point are the same. *)
Lemma cellOf_interiors_disjoint (b : BBox Q) (r c r' c' : Z) (lon lat : Q) :
  (rowLo b <= r)%Z -> (colLo b <= c)%Z ->
  (rowLo b <= r')%Z -> (colLo b <= c')%Z ->
  strictlyInBox lon lat (bbox (cellOf b r c)) ->
  strictlyInBox lon lat (bbox (cellOf b r' c')) ->
  r = r' /\ c = c'.
Proof.
  intros Hr Hc Hr' Hc'.
  destruct (cellOf_bbox b r c) as (B1 & B2 & B3 & B4); [lia|lia|].
  destruct (cellOf_bbox b r' c') as (C1 & C2 & C3 & C4); [lia|lia|].
  unfold strictlyInBox. rewrite B1, B2, B3, B4, C1, C2, C3, C4.
  intros [[X0 X1] [Y0 Y1]] [[X0' X1'] [Y0' Y1']]. clear_divisions.
  assert (R1 : inject_Z r < inject_Z (r' + 1)).
  { rewrite inject_Z_plus. change (inject_Z 1) with 1. lra. }
  assert (R2 : inject_Z r' < inject_Z (r + 1)).
  { rewrite inject_Z_plus. change (inject_Z 1) with 1. lra. }
  assert (K1 : inject_Z c < inject_Z (c' + 1)).
  { rewrite inject_Z_plus. change (inject_Z 1) with 1. lra. }
  assert (K2 : inject_Z c' < inject_Z (c + 1)).
  { rewrite inject_Z_plus. change (inject_Z 1) with 1. lra. }
  rewrite <- Zlt_Qlt in R1, R2, K1, K2. lia.
Qed.

(** Two turns of the loops with different loop variables push different
    cells. *)
Lemma meshCellAt_inj (y x y' x' : Q) :
  meshCellAt y x = meshCellAt y' x' -> y == y' /\ x == x'.
Proof.
  intros E. apply (f_equal bbox) in E.
  pose proof (f_equal minLat E) as Ey. pose proof (f_equal minLon E) as Ex.
  unfold meshCellAt in Ey, Ex. cbv zeta in Ey, Ex.
  cbn [bbox minLat minLon] in Ey, Ex.
  change (y / 3600 = y' / 3600) in Ey. change (x / 3600 = x' / 3600) in Ex.
  assert (Hy : y / 3600 == y' / 3600) by (rewrite Ey; reflexivity).
  assert (Hx : x / 3600 == x' / 3600) by (rewrite Ex; reflexivity).
  split.
  - assert (y == y / 3600 * 3600) by field.
    assert (y' == y' / 3600 * 3600) by field. lra.
  - assert (x == x / 3600 * 3600) by field.
    assert (x' == x' / 3600 * 3600) by field. lra.
Qed.

Lemma stepN_next_above (step x : Q) (k : nat) :
  0 < step -> x < stepN step (x + step) k.
Proof.
  intros Hs. pose proof (stepN_mono step (x + step) k) as Hm. lra.
Qed.

Lemma lonLoop_NoDup (fuel : nat) (x e lat : Q) : NoDup (lonLoop fuel x e lat).
Proof.
  revert x. induction fuel as [|k IH]; intros x; cbn [lonLoop];
    [constructor|].
  destruct (ltb x e); [|constructor].
  constructor; [|apply IH].
  rewrite lonLoop_elem. intros (j & _ & _ & E).
  apply meshCellAt_inj in E as [_ E].
  pose proof (stepN_next_above MESH_LON_STEP_SEC x j) as Hlt.
  rewrite lonStep_value in Hlt. rewrite lonStep_value in E.
  change (@add Q Q_JSNumber) with Qplus in E.
  assert (0 < 1125 # 100) by reflexivity. lra.
Qed.

Lemma latLoop_NoDup (fuel colFuel : nat) (y e sLon eLon : Q) :
  NoDup (latLoop fuel colFuel y e sLon eLon).
Proof.
  revert y. induction fuel as [|k IH]; intros y; cbn [latLoop];
    [constructor|].
  destruct (ltb y e); [|constructor].
  apply NoDup_app. split; [apply lonLoop_NoDup|]. split; [|apply IH].
  intros c Hrow Hrest.
  apply lonLoop_elem in Hrow as (j & _ & _ & ->).
  apply latLoop_elem in Hrest as (k' & j' & _ & _ & _ & _ & E).
  apply meshCellAt_inj in E as [E _].
  pose proof (stepN_next_above MESH_LAT_STEP_SEC y k') as Hlt.
  rewrite latStep_value in Hlt. rewrite latStep_value in E.
  change (@add Q Q_JSNumber) with Qplus in E.
  assert (0 < 75 # 10) by reflexivity. lra.
Qed.

(** The loops stop by their own test: more turns than the grid has rows
    and columns change nothing. *)
Lemma lonLoop_fuel (n extra : nat) (x e lat : Q) :
  e <= stepN MESH_LON_STEP_SEC x n ->
  lonLoop (n + extra) x e lat = lonLoop n x e lat.
Proof.
  revert x. induction n as [|n IH]; intros x Hend.
  - simpl in Hend. apply Qltb_ge in Hend.
    destruct extra; cbn [lonLoop Nat.add]; [reflexivity|].
    change (ltb x e) with (Qltb x e). rewrite Hend. reflexivity.
  - cbn [lonLoop Nat.add]. destruct (ltb x e); [|reflexivity].
    rewrite IH; [reflexivity|exact Hend].
Qed.

Lemma latLoop_fuel (n extra colFuel colFuel' : nat) (y e sLon eLon : Q) :
  e <= stepN MESH_LAT_STEP_SEC y n ->
  (forall lat, lonLoop colFuel' sLon eLon lat = lonLoop colFuel sLon eLon lat) ->
  latLoop (n + extra) colFuel' y e sLon eLon
  = latLoop n colFuel y e sLon eLon.
Proof.
  intros Hend Hcol. revert y Hend. induction n as [|n IH]; intros y Hend.
  - simpl in Hend. apply Qltb_ge in Hend.
    destruct extra; cbn [latLoop Nat.add]; [reflexivity|].
    change (ltb y e) with (Qltb y e). rewrite Hend. reflexivity.
  - cbn [latLoop Nat.add]. destruct (ltb y e); [|reflexivity].
    rewrite IH by exact Hend. rewrite Hcol. reflexivity.
Qed.

Lemma gridCells_fuel (b : BBox Q) (extraRows extraCols : nat) :
  gridCells (Z.to_nat (toZ (gridRows b)) + extraRows)
            (Z.to_nat (toZ (gridCols b)) + extraCols) b
  = gridCells (Z.to_nat (toZ (gridRows b))) (Z.to_nat (toZ (gridCols b))) b.
Proof.
  unfold gridCells. rewrite gridRows_value, gridCols_value.
  apply latLoop_fuel.
  - rewrite latSec_at, endLatSec_value, latStep_value.
    assert (Hle : inject_Z (rowHi b)
                  <= inject_Z (rowLo b + Z.of_nat (Z.to_nat (rowHi b - rowLo b))))
      by (rewrite <- Zle_Qle; lia).
    lra.
  - intros lat. apply lonLoop_fuel.
    rewrite lonSec_at, endLonSec_value, lonStep_value.
    assert (Hle : inject_Z (colHi b)
                  <= inject_Z (colLo b + Z.of_nat (Z.to_nat (colHi b - colLo b))))
      by (rewrite <- Zle_Qle; lia).
    lra.
Qed.

(** The box that [intersectBbox] returns is the intersection, and it has
    a width and a height. *)
Lemma intersectBbox_Some (b bounds bounded : BBox Q) :
  intersectBbox b bounds = Some bounded ->
  minLon bounded < maxLon bounded /\ minLat bounded < maxLat bounded
  /\ forall lon lat,
       inBox lon lat b -> inBox lon lat bounds -> inBox lon lat bounded.
Proof.
  unfold intersectBbox. cbv zeta.
  destruct (_ || _) eqn:E; [discriminate|]. intros [= <-].
  apply orb_false_elim in E as [E1 E2].
  change (Qle_bool (jsmin (maxLon b) (maxLon bounds))
                   (jsmax (minLon b) (minLon bounds)) = false) in E1.
  change (Qle_bool (jsmin (maxLat b) (maxLat bounds))
                   (jsmax (minLat b) (minLat bounds)) = false) in E2.
  cbn [minLon maxLon minLat maxLat].
  assert (Hlon : jsmax (minLon b) (minLon bounds)
                 < jsmin (maxLon b) (maxLon bounds)).
  { apply Qltb_lt. unfold Qltb. rewrite E1. reflexivity. }
  assert (Hlat : jsmax (minLat b) (minLat bounds)
                 < jsmin (maxLat b) (maxLat bounds)).
  { apply Qltb_lt. unfold Qltb. rewrite E2. reflexivity. }
  split; [exact Hlon|]. split; [exact Hlat|].
  intros lon lat [[X0 X1] [Y0 Y1]] [[X0' X1'] [Y0' Y1']].
  unfold inBox. cbn [minLon maxLon minLat maxLat]. simpl.
  repeat split.
  - destruct (Qle_bool (minLon b) (minLon bounds)); assumption.
  - destruct (Qle_bool (maxLon b) (maxLon bounds)); assumption.
  - destruct (Qle_bool (minLat b) (minLat bounds)); assumption.
  - destruct (Qle_bool (maxLat b) (maxLat bounds)); assumption.
Qed.

Lemma positive_box_has_rows_and_columns (b : BBox Q) :
  minLon b < maxLon b -> minLat b < maxLat b ->
  (rowLo b < rowHi b)%Z /\ (colLo b < colHi b)%Z.
Proof.
  intros Hlon Hlat.
  destruct (rows_cols_bounds b) as (F1 & F2 & F3 & F4).
  split; rewrite Zlt_Qlt; lra.
Qed.

(** The claim of the specification for one box: every point of the box
    that lies in the national extent is in the box of a returned cell. *)
Definition coversIntersection (MAX_CELLS_PER_FEATURE : option Q)
    (b : BBox Q) : Prop :=
  forall lon lat : Q,
    inBox lon lat b -> inBox lon lat JAPAN_BOUNDS ->
    exists cell, cell ∈ buildMeshCells MAX_CELLS_PER_FEATURE b
                 /\ inBox lon lat (bbox cell).

End TilingQ.


Section TilingExamples.
Local Open Scope Q_scope.



End TilingExamples.

(** The stand-in library returns lengths and areas that are not
    negative. *)
Section SampleTurfQ.
Local Open Scope Q_scope.

Lemma absNum_nonneg (x : Q) : 0 <= absNum x.
Proof.
  unfold absNum. simpl. destruct (Qle_bool x (inject_Z 0 - x)) eqn:E.
  - apply Qle_bool_iff in E. change (inject_Z 0) with 0 in *. lra.
  - assert (Hlt : inject_Z 0 - x < x).
    { apply Qltb_lt. unfold Qltb. rewrite E. reflexivity. }
    change (inject_Z 0) with 0 in *. lra.
Qed.

Lemma taxicab_nonneg (cs : list (Q * Q)) : 0 <= taxicab cs.
Proof.
  induction cs as [|[x0 y0] rest IH]; [discriminate|].
  destruct rest as [|[x1 y1] rest']; [discriminate|].
  change (0 <= absNum (x1 - x0)%js + absNum (y1 - y0)%js
               + taxicab ((x1, y1) :: rest')).
  pose proof (absNum_nonneg (x1 - x0)%js). pose proof (absNum_nonneg (y1 - y0)%js).
  lra.
Qed.

Lemma sampleLength_nonneg (g : Geometry Q) : 0 <= sampleLength g.
Proof.
  destruct g as [| | cs | ls | | |]; try discriminate.
  - apply taxicab_nonneg.
  - cbn [sampleLength]. induction ls as [|cs ls IH]; [discriminate|].
    cbn [foldr]. change (0 <= taxicab cs + foldr (fun cs acc => (taxicab cs + acc)%js) (ofZ 0) ls).
    pose proof (taxicab_nonneg cs). lra.
Qed.

Lemma jsmin_le_jsmax (a b x : Q) : a <= b -> jsmin a x <= jsmax b x.
Proof.
  intros Hab. simpl.
  destruct (Qle_bool a x) eqn:E1; destruct (Qle_bool b x) eqn:E2;
    try apply Qle_bool_iff in E1; try apply Qle_bool_iff in E2; try lra.
  assert (x < a) by (apply Qltb_lt; unfold Qltb; rewrite E1; reflexivity).
  lra.
Qed.

Lemma sampleBbox_ordered (g : Geometry Q) :
  minLon (sampleBbox g) <= maxLon (sampleBbox g)
  /\ minLat (sampleBbox g) <= maxLat (sampleBbox g).
Proof.
  unfold sampleBbox. destruct (coordsOf g) as [|[lon lat] cs].
  - split; discriminate.
  - assert (Hinit : minLon (mkBBox lon lat lon lat) <= maxLon (mkBBox lon lat lon lat)
                  /\ minLat (mkBBox lon lat lon lat) <= maxLat (mkBBox lon lat lon lat))
      by (split; apply Qle_refl).
    revert Hinit. generalize (mkBBox lon lat lon lat) as b.
    induction cs as [|[x y] cs IH]; intros b Hb; [exact Hb|].
    cbn [foldl]. apply IH. cbn [minLon maxLon minLat maxLat].
    destruct Hb as [Hx Hy]. split; apply jsmin_le_jsmax; assumption.
Qed.

Lemma sampleArea_nonneg (g : Geometry Q) : 0 <= sampleArea g.
Proof.
  unfold sampleArea. cbv zeta.
  destruct (sampleBbox_ordered g) as [Hx Hy].
  change (0 <= (maxLon (sampleBbox g) - minLon (sampleBbox g))
               * (maxLat (sampleBbox g) - minLat (sampleBbox g))).
  apply Qmult_le_0_compat; lra.
Qed.

End SampleTurfQ.

Section ClipperExamples.
Local Open Scope Q_scope.


End ClipperExamples.

Local Open Scope list_scope.

(** ** The capacity guard in the pipeline *)

Section CapacityExceeded.
Context {num : Type} `{JSNumber num}.
Context {props : Type}.
Context `{Turf num (Geometry num)}.
Variable emptyProps : props.
Variable MAX_CELLS_PER_FEATURE : option num.

(** The grid of the bounding box of a geometry has more cells than the
    maximum. *)
Definition exceedsGuard (g : Geometry num) : Prop :=
  exists bounded,
    intersectBbox (turfBbox g) JAPAN_BOUNDS = Some bounded
    /\ exceeds (gridTotal bounded) MAX_CELLS_PER_FEATURE = true.

Lemma exceedsGuard_no_pieces (g : Geometry num) :
  exceedsGuard g ->
  buildLineMeshPieces MAX_CELLS_PER_FEATURE g = []
  /\ buildPolygonMeshPieces MAX_CELLS_PER_FEATURE g = [].
Proof.
  intros (bounded & Hb & Hex).
  pose proof (buildMeshCells_capacity_guard MAX_CELLS_PER_FEATURE
                (turfBbox g) bounded Hb Hex) as Hcells.
  unfold buildLineMeshPieces, buildPolygonMeshPieces. cbv zeta.
  rewrite Hcells. split.
  - destruct (degenerate (turf_length g)); reflexivity.
  - destruct (degenerate (turf_area g)); reflexivity.
Qed.

Lemma toLineItems_app (l1 l2 : list (Feature num props)) :
  toLineItems emptyProps MAX_CELLS_PER_FEATURE (l1 ++ l2)
  = toLineItems emptyProps MAX_CELLS_PER_FEATURE l1
    ++ toLineItems emptyProps MAX_CELLS_PER_FEATURE l2.
Proof. unfold toLineItems. apply flat_map_app. Qed.

Lemma toPolygonItems_app (l1 l2 : list (Feature num props)) :
  toPolygonItems emptyProps MAX_CELLS_PER_FEATURE (l1 ++ l2)
  = toPolygonItems emptyProps MAX_CELLS_PER_FEATURE l1
    ++ toPolygonItems emptyProps MAX_CELLS_PER_FEATURE l2.
Proof. unfold toPolygonItems. apply flat_map_app. Qed.

Lemma explodePointFeatures_app (l1 l2 : list (Feature num props)) :
  explodePointFeatures emptyProps (l1 ++ l2)
  = explodePointFeatures emptyProps l1 ++ explodePointFeatures emptyProps l2.
Proof. unfold explodePointFeatures. apply flat_map_app. Qed.

(** A line or polygon feature over the guard gives no item and no
    point. *)
Lemma exceedsGuard_no_item (f : Feature num props) (g : Geometry num) :
  f_geometry f = Some g ->
  kindOf g = Some line \/ kindOf g = Some polygon ->
  exceedsGuard g ->
  toLineItems emptyProps MAX_CELLS_PER_FEATURE [f] = []
  /\ toPolygonItems emptyProps MAX_CELLS_PER_FEATURE [f] = []
  /\ explodePointFeatures emptyProps [f] = [].
Proof.
  intros Hg Hkind Hex.
  destruct (exceedsGuard_no_pieces g Hex) as [Hl Hp].
  unfold toLineItems, toPolygonItems, explodePointFeatures.
  cbn [flat_map]. rewrite Hg.
  destruct g; destruct Hkind as [Hk|Hk]; try discriminate Hk;
    rewrite ?Hl, ?Hp; auto.
Qed.

End CapacityExceeded.

(** C7, as amended: a line or polygon feature whose candidate cells
    exceed the guard yields no pieces, and the pipeline leaves it out
    altogether: whatever the layer and the store, processing the layer
    with the feature gives the same store as processing it without. *)
Theorem capacity_exceeded_feature_left_out :
  forall (num props : Type) (N : JSNumber num) (T : Turf num (Geometry num))
    (emptyProps : props) (MAX_CELLS_PER_FEATURE : option num)
    (f : Feature num props) (g : Geometry num),
    f_geometry f = Some g ->
    kindOf g = Some line \/ kindOf g = Some polygon ->
    exceedsGuard MAX_CELLS_PER_FEATURE g ->
    (buildLineMeshPieces MAX_CELLS_PER_FEATURE g = []
     /\ buildPolygonMeshPieces MAX_CELLS_PER_FEATURE g = [])
    /\ forall (layerName tableName : string) (kind : GeometryKind)
         (sourceFile : string) (meshMapTable : option string)
         (before after : list (Feature num props)) (s : Store num props),
         processLayer emptyProps MAX_CELLS_PER_FEATURE
           (mkLayerDef layerName tableName kind sourceFile meshMapTable
              (before ++ f :: after)) s
         = processLayer emptyProps MAX_CELLS_PER_FEATURE
             (mkLayerDef layerName tableName kind sourceFile meshMapTable
                (before ++ after)) s.
Proof.
  intros num props N T emptyProps MAX f g Hg Hkind Hex.
  split; [apply exceedsGuard_no_pieces, Hex|].
  destruct (exceedsGuard_no_item emptyProps MAX f g Hg Hkind Hex)
    as (Hl & Hp & Hx).
  intros L Tn kind file mm before after s.
  assert (El : toLineItems emptyProps MAX (before ++ f :: after)
               = toLineItems emptyProps MAX (before ++ after)).
  { change (f :: after) with ([f] ++ after).
    rewrite !toLineItems_app, Hl. reflexivity. }
  assert (Ep : toPolygonItems emptyProps MAX (before ++ f :: after)
               = toPolygonItems emptyProps MAX (before ++ after)).
  { change (f :: after) with ([f] ++ after).
    rewrite !toPolygonItems_app, Hp. reflexivity. }
  assert (Ex : explodePointFeatures emptyProps (before ++ f :: after)
               = explodePointFeatures emptyProps (before ++ after)).
  { change (f :: after) with ([f] ++ after).
    rewrite !explodePointFeatures_app, Hx. reflexivity. }
  unfold processLayer, processPointLayer, processLineLayer,
    processPolygonLayer, pointRows, deleteLayerTables, ensureLayerTables,
    registryRowOf.
  cbn [features layerName tableName geometryType sourceFile meshMapTable].
  rewrite El, Ep, Ex. reflexivity.
Qed.

(** A file name without its extension, for the examples. *)
Fixpoint afterDot (l : list ascii) : option (list ascii) :=
  match l with
  | [] => None
  | c :: r => if Ascii.eqb c "." then Some r else afterDot r
  end.

Definition sampleFileBase (fileName : string) : string :=
  match afterDot (rev (list_ascii_of_string fileName)) with
  | Some r => string_of_list_ascii (rev r)
  | None => fileName
  end.

(** A road from (139, 35) to (141, 37), in a file [roads.geojson]. *)
Definition longRoad : Geometry float :=
  LineString [(ofZ 139, ofZ 35); (ofZ 141, ofZ 37)].
Definition longRoadFeature : Feature float string :=
  mkFeature (Some longRoad) (Some "Tokaido"%string).

(** C7, as stated, fails: with the guard at 12000 cells, the grid of the
    bounding box of the road has more cells than the guard; the road has
    a length and lies in the national extent; after the ingestion of
    its file on an empty store the layer is registered and its tables
    exist, and neither [line_features] nor the per-layer table holds a
    row for the road. *)
Lemma capacity_exceeded_feature_not_stored :
  let s := ingestFile (H0 := sampleTurf) ""%string (Some (ofZ 12000))
             sampleFileBase "roads.geojson" [longRoadFeature] emptyStore in
  exceedsGuard (H0 := sampleTurf) (Some (ofZ 12000)) longRoad
  /\ degenerate (turf_length (Turf := sampleTurf) longRoad) = false
  /\ is_Some (layer_registry s !! "roads"%string)
  /\ line_features s = []
  /\ tables s !! "roads"%string = Some []
  /\ tables s !! "roads_mesh_map"%string = Some []
  /\ line_mesh_map s = [].
Proof.
  split; [|split; [|split]].
  - eexists. split; [vm_compute; reflexivity|vm_compute; reflexivity].
  - vm_compute. reflexivity.
  - vm_compute. eexists. reflexivity.
  - vm_compute. repeat split; reflexivity.
Qed.

(** The same road, left out of its layer. *)
Lemma capacity_exceeded_feature_left_out_witness :
  processLayer (H0 := sampleTurf) ""%string (Some (ofZ 12000))
    (mkLayerDef "roads" "roads" line "roads.geojson" (Some "roads_mesh_map")
       ([] ++ longRoadFeature :: [])) emptyStore
  = processLayer (H0 := sampleTurf) ""%string (Some (ofZ 12000))
      (mkLayerDef "roads" "roads" line "roads.geojson" (Some "roads_mesh_map")
         ([] ++ [])) emptyStore.
Proof.
  assert (Hex : exceedsGuard (H0 := sampleTurf) (Some (ofZ 12000)) longRoad).
  { eexists. split; [vm_compute; reflexivity|vm_compute; reflexivity]. }
  exact (proj2 (capacity_exceeded_feature_left_out float string _ sampleTurf
                  ""%string (Some (ofZ 12000)) longRoadFeature longRoad
                  eq_refl (or_introl eq_refl) Hex)
           "roads"%string "roads"%string line "roads.geojson"%string
           (Some "roads_mesh_map"%string) [] [] emptyStore).
Defined.

(** ** Re-ingestion *)

(** The store without what differs from one run to the next: the
    generated identifiers, the sequences and the log. *)
Section Erasure.
Context {num props : Type}.
Implicit Types s a : Store num props.

Definition eraseF (r : FeatureRow num props) : FeatureRow num props :=
  mkFeatureRow 0 (fr_sourceLayer r) (fr_meshId r) (fr_geometry r)
    (fr_properties r).

Definition eraseM (r : MeshMapRow num props) : MeshMapRow num props :=
  mkMeshMapRow (mm_sourceLayer r) 0 (mm_meshId r) (mm_geometry r)
    (mm_properties r) (mm_measure r) (mm_ratio r).

Definition erase s : Store num props :=
  mkStore (map eraseF (point_features s)) (map eraseF (line_features s))
    (map eraseF (polygon_features s)) (map eraseM (line_mesh_map s))
    (map eraseM (polygon_mesh_map s)) (tables s) (layer_registry s)
    (mesh_index s) 0 0 0 [].

(** Rows appended to the feature table and to the mesh-map table of a
    kind. *)
Definition appendFeatures (k : GeometryKind)
    (rows : list (FeatureRow num props)) a : Store num props :=
  match k with
  | point =>
      mkStore (point_features a ++ rows) (line_features a)
        (polygon_features a) (line_mesh_map a) (polygon_mesh_map a)
        (tables a) (layer_registry a) (mesh_index a)
        (seq_point a) (seq_line a) (seq_polygon a) (log a)
  | line =>
      mkStore (point_features a) (line_features a ++ rows)
        (polygon_features a) (line_mesh_map a) (polygon_mesh_map a)
        (tables a) (layer_registry a) (mesh_index a)
        (seq_point a) (seq_line a) (seq_polygon a) (log a)
  | polygon =>
      mkStore (point_features a) (line_features a)
        (polygon_features a ++ rows) (line_mesh_map a) (polygon_mesh_map a)
        (tables a) (layer_registry a) (mesh_index a)
        (seq_point a) (seq_line a) (seq_polygon a) (log a)
  end.

Definition appendMeshMap (k : GeometryKind)
    (rows : list (MeshMapRow num props)) a : Store num props :=
  match k with
  | polygon =>
      mkStore (point_features a) (line_features a) (polygon_features a)
        (line_mesh_map a) (polygon_mesh_map a ++ rows)
        (tables a) (layer_registry a) (mesh_index a)
        (seq_point a) (seq_line a) (seq_polygon a) (log a)
  | _ =>
      mkStore (point_features a) (line_features a) (polygon_features a)
        (line_mesh_map a ++ rows) (polygon_mesh_map a)
        (tables a) (layer_registry a) (mesh_index a)
        (seq_point a) (seq_line a) (seq_polygon a) (log a)
  end.

Definition unnumbered (rows : list (string * string * Geometry num * props))
  : list (FeatureRow num props) :=
  map (fun '(l, m, g, p) => mkFeatureRow 0 l m g p) rows.

Lemma store_ext s s' :
  point_features s = point_features s' ->
  line_features s = line_features s' ->
  polygon_features s = polygon_features s' ->
  line_mesh_map s = line_mesh_map s' ->
  polygon_mesh_map s = polygon_mesh_map s' ->
  tables s = tables s' ->
  layer_registry s = layer_registry s' ->
  mesh_index s = mesh_index s' ->
  seq_point s = seq_point s' ->
  seq_line s = seq_line s' ->
  seq_polygon s = seq_polygon s' ->
  log s = log s' ->
  s = s'.
Proof. destruct s, s'. simpl. intros. congruence. Qed.

Lemma erase_numbered (start : Z)
    (rows : list (string * string * Geometry num * props)) :
  map eraseF (numbered start rows) = unnumbered rows.
Proof.
  unfold numbered, unnumbered. revert start.
  induction rows as [|[[[l m] g] p] rows IH]; intros start; [reflexivity|].
  cbn [imap map]. f_equal.
  rewrite <- (IH (start + 1)%Z). f_equal. apply imap_ext.
  intros i [[[l' m'] g'] p'] _. cbn. f_equal. lia.
Qed.

Lemma erase_insertFeatures k rows s :
  erase (insertFeatures k rows s).1 = appendFeatures k (unnumbered rows) (erase s).
Proof.
  unfold insertFeatures. cbv zeta. cbn [fst].
  destruct k; apply store_ext; cbn; try reflexivity;
    rewrite map_app, erase_numbered; reflexivity.
Qed.

Lemma insertFeatures_ids_length k rows s :
  length (insertFeatures k rows s).2 = length rows.
Proof.
  unfold insertFeatures. cbv zeta. cbn [snd].
  rewrite length_map. unfold numbered. apply length_imap.
Qed.

Lemma erase_insertMeshMap k rows s :
  erase (insertMeshMap k rows s) = appendMeshMap k (map eraseM rows) (erase s).
Proof.
  unfold insertMeshMap.
  destruct k; apply store_ext; cbn; try reflexivity;
    rewrite map_app; reflexivity.
Qed.

Lemma appendMeshMap_nil k a : appendMeshMap k [] a = a.
Proof.
  destruct k; apply store_ext; cbn; try reflexivity; apply app_nil_r.
Qed.

Lemma appendFeatures_nil k a : appendFeatures k [] a = a.
Proof.
  destruct k; apply store_ext; cbn; try reflexivity; apply app_nil_r.
Qed.

Lemma appendMeshMap_app k rows rows' a :
  appendMeshMap k rows' (appendMeshMap k rows a)
  = appendMeshMap k (rows ++ rows') a.
Proof.
  destruct k; apply store_ext; cbn; try reflexivity;
    symmetry; apply app_assoc.
Qed.

Lemma appendFeatures_app k rows rows' a :
  appendFeatures k rows' (appendFeatures k rows a)
  = appendFeatures k (rows ++ rows') a.
Proof.
  destruct k; apply store_ext; cbn; try reflexivity;
    symmetry; apply app_assoc.
Qed.

(** The chunked inserts, seen without identifiers and log. *)
Lemma erase_insertMeshMap_chunks k (chunks : list (list (MeshMapRow num props))) s :
  erase (foldl (fun s c => if nonEmpty c then insertMeshMap k c s else s)
           s chunks)
  = appendMeshMap k (map eraseM (concat chunks)) (erase s).
Proof.
  revert s. induction chunks as [|c cs IH]; intros s; cbn [foldl concat].
  - rewrite appendMeshMap_nil. reflexivity.
  - rewrite IH, map_app, <- appendMeshMap_app. f_equal.
    destruct c as [|r c]; cbn [nonEmpty].
    + rewrite appendMeshMap_nil. reflexivity.
    + apply erase_insertMeshMap.
Qed.

Lemma erase_insertFeatures_chunks k
    (chunks : list (list (string * string * Geometry num * props))) s :
  erase (foldl (fun s c => if nonEmpty c then (insertFeatures k c s).1 else s)
           s chunks)
  = appendFeatures k (unnumbered (concat chunks)) (erase s).
Proof.
  revert s. induction chunks as [|c cs IH]; intros s; cbn [foldl concat].
  - rewrite appendFeatures_nil. reflexivity.
  - unfold unnumbered in *. rewrite IH, map_app, <- appendFeatures_app.
    f_equal. destruct c as [|r c]; cbn [nonEmpty].
    + rewrite appendFeatures_nil. reflexivity.
    + apply erase_insertFeatures.
Qed.

Lemma alter_append_nil (t : string) (m : gmap string (list (DynRow num props))) :
  alter (fun old => old ++ []) t m = m.
Proof.
  apply map_eq. intros i.
  destruct (decide (t = i)) as [->|Hne];
    [rewrite lookup_alter_eq|rewrite lookup_alter_ne by exact Hne; reflexivity].
  destruct (m !! i) as [x|]; cbn; [rewrite app_nil_r|]; reflexivity.
Qed.

Lemma alter_append_append (t : string) (rows rows' : list (DynRow num props))
    (m : gmap string (list (DynRow num props))) :
  alter (fun old => old ++ rows') t (alter (fun old => old ++ rows) t m)
  = alter (fun old => old ++ (rows ++ rows')) t m.
Proof.
  apply map_eq. intros i.
  destruct (decide (t = i)) as [->|Hne];
    [rewrite !lookup_alter_eq
    |rewrite !lookup_alter_ne by exact Hne; reflexivity].
  destruct (m !! i) as [x|]; cbn; [rewrite app_assoc|]; reflexivity.
Qed.

Lemma erase_insertRowsDynamic (t : string) (rows : list (DynRow num props)) s :
  erase (insertRowsDynamic t rows s)
  = setTables (alter (fun old => old ++ rows) t (tables s)) (erase s).
Proof.
  unfold insertRowsDynamic.
  rewrite (proj1 (statements_are_chunks rows)).
  destruct (chunkArray_spec INSERT_CHUNK_SIZE rows) as (Hc & _ & _);
    [unfold INSERT_CHUNK_SIZE; lia|].
  set (chunks := chunkArray rows INSERT_CHUNK_SIZE) in *. clearbody chunks.
  subst rows. revert s.
  induction chunks as [|c cs IH]; intros s; cbn [foldl concat].
  - rewrite alter_append_nil. apply store_ext; reflexivity.
  - rewrite IH. unfold insertDyn. cbn [tables logInsert setTables].
    rewrite alter_append_append. apply store_ext; reflexivity.
Qed.

Lemma erase_upsertMeshIndex (ids : list string) s :
  erase (upsertMeshIndex ids s)
  = setMeshIndex (foldl insertIndexRow (mesh_index s) ids) (erase s).
Proof.
  unfold upsertMeshIndex.
  destruct (chunkArray_spec INSERT_CHUNK_SIZE ids) as (Hc & _ & _);
    [unfold INSERT_CHUNK_SIZE; lia|].
  set (chunks := chunkArray ids INSERT_CHUNK_SIZE) in *. clearbody chunks.
  subst ids. revert s.
  induction chunks as [|c cs IH]; intros s; cbn [foldl concat].
  - apply store_ext; reflexivity.
  - rewrite IH. cbn [mesh_index logInsert setMeshIndex].
    rewrite foldl_app. apply store_ext; reflexivity.
Qed.

End Erasure.

Section Reingestion.
Context {num : Type} `{JSNumber num}.
Context {props : Type}.
Context `{Turf num (Geometry num)}.
Variable emptyProps : props.
Variable MAX_CELLS_PER_FEATURE : option num.
Variable fileBase : string -> string.
Implicit Types d : LayerDefinition num props.
Implicit Types s a : Store num props.

(** *** What a layer definition writes *)

Definition itemsOf d : list (Item num props) :=
  match geometryType d with
  | point => []
  | line => toLineItems emptyProps MAX_CELLS_PER_FEATURE (features d)
  | polygon => toPolygonItems emptyProps MAX_CELLS_PER_FEATURE (features d)
  end.

Definition pieceIds (items : list (Item num props)) : list string :=
  flat_map (fun it => map piece_meshId (it_pieces it)) items.

(** The mesh identifiers that the processing of the layer returns. *)
Definition newMeshIds d : list string :=
  match geometryType d, meshMapTable d with
  | point, _ => setFrom (map (fun '(m, _, _) => m) (pointRows emptyProps d))
  | _, None => []
  | _, Some _ => setFrom (pieceIds (itemsOf d))
  end.

(** The mesh identifiers that it adds to the index. *)
Definition indexIds d : list string :=
  match geometryType d, meshMapTable d with
  | point, _ => setFrom (map (fun '(m, _, _) => m) (pointRows emptyProps d))
  | _, None => []
  | _, Some _ =>
      setFrom (setFrom (map it_meshId (itemsOf d))
               ++ setFrom (pieceIds (itemsOf d)))
  end.

(** Its rows in the feature table and in the mesh-map table of its
    kind, without identifiers. *)
Definition featureRowsOf d : list (FeatureRow num props) :=
  match geometryType d, meshMapTable d with
  | point, _ =>
      unnumbered (map (fun '(m, g, p) => (layerName d, m, g, p))
                    (pointRows emptyProps d))
  | _, None => []
  | _, Some _ =>
      unnumbered (map (fun it => (layerName d, it_meshId it, it_geometry it,
                                  it_properties it)) (itemsOf d))
  end.

Definition meshRowsErased (layerName : string) (items : list (Item num props))
  : list (MeshMapRow num props) :=
  flat_map (fun it =>
    map (fun piece =>
           mkMeshMapRow layerName 0 (piece_meshId piece)
             (piece_geometry piece) (it_properties it)
             (piece_measure piece) (piece_ratio piece))
        (it_pieces it)) items.

Definition meshMapRowsOf d : list (MeshMapRow num props) :=
  match geometryType d, meshMapTable d with
  | point, _ => []
  | _, None => []
  | _, Some _ => meshRowsErased (layerName d) (itemsOf d)
  end.

(** Its rows in its per-layer table and in its mesh-decomposition
    table. *)
Definition layerRowsOf d : list (DynRow num props) :=
  match geometryType d with
  | point =>
      map (fun '(m, g, p) => mkDynRow m g p None) (pointRows emptyProps d)
  | _ =>
      map (fun it => mkDynRow (it_meshId it) (it_geometry it)
                       (it_properties it) None) (itemsOf d)
  end.

Definition tablesAfter d (t : gmap string (list (DynRow num props)))
  : gmap string (list (DynRow num props)) :=
  match geometryType d, meshMapTable d with
  | point, _ => alter (fun old => old ++ layerRowsOf d) (tableName d) t
  | _, None => t
  | _, Some mt =>
      alter (fun old => old ++ perLayerMeshRows (itemsOf d)) mt
        (alter (fun old => old ++ layerRowsOf d) (tableName d) t)
  end.

(** The processing of a layer on a store without identifiers. *)
Definition aProcess d a : Store num props :=
  appendMeshMap (geometryType d) (meshMapRowsOf d)
    (appendFeatures (geometryType d) (featureRowsOf d)
       (setTables (tablesAfter d (tables a))
          (setMeshIndex (foldl insertIndexRow (mesh_index a) (indexIds d)) a))).

Definition aProcessLayer d a : Store num props :=
  let previous := layer_registry a !! layerName d in
  let oldMeshIds :=
    match previous with
    | Some prev =>
        getLayerMeshIds (lr_tableName prev) (lr_meshMapTable prev) a
    | None => []
    end in
  let a := deleteGenericRows (layerName d) a in
  let a := deleteLayerTables d a in
  let a :=
    match previous with
    | Some prev =>
        match lr_meshMapTable prev with
        | Some mt =>
            if decide (lr_geometryType prev = geometryType d) then a
            else dropTable mt a
        | None => a
        end
    | None => a
    end in
  let a := ensureLayerTables d a in
  let a := aProcess d a in
  let a := removeLayerPresence (layerName d) oldMeshIds a in
  let a := addLayerPresence (layerName d) (newMeshIds d) a in
  let a := refreshMeshFlags (setFrom (oldMeshIds ++ newMeshIds d)) a in
  setRegistry (<[layerName d := registryRowOf d]> (layer_registry a)) a.

Definition aIngestFile (fileName : string)
    (collection : list (Feature num props)) a : Store num props :=
  let defs := layerDefs fileBase fileName collection in
  match defs with
  | [] => a
  | _ =>
      let a :=
        foldl (fun a '(name, row) => removeLayer name row a) a
          (staleLayers fileName defs a) in
      foldl (fun a def => aProcessLayer def a) a defs
  end.

(** *** The pipeline without identifiers *)

Lemma erase_idempotent s : erase (erase s) = erase s.
Proof.
  apply store_ext; cbn; try reflexivity;
    rewrite map_map; apply map_ext; intros []; reflexivity.
Qed.

Lemma meshRowsOf_erased (layerName : string) (ids : list Z)
    (chunk : list (Item num props)) :
  length ids = length chunk ->
  map eraseM (meshRowsOf layerName ids chunk) = meshRowsErased layerName chunk.
Proof.
  unfold meshRowsOf, meshRowsErased. revert ids.
  induction chunk as [|it chunk IH]; intros [|id ids] Hlen;
    try discriminate Hlen; [reflexivity|].
  cbn [zip zip_with flat_map]. rewrite map_app, map_map.
  f_equal. apply IH. simpl in Hlen. lia.
Qed.

Lemma meshRowsErased_app (layerName : string) (l l' : list (Item num props)) :
  meshRowsErased layerName (l ++ l')
  = meshRowsErased layerName l ++ meshRowsErased layerName l'.
Proof. unfold meshRowsErased. apply flat_map_app. Qed.

Lemma perLayerMeshRows_app (l l' : list (Item num props)) :
  perLayerMeshRows (l ++ l') = perLayerMeshRows l ++ perLayerMeshRows l'.
Proof. unfold perLayerMeshRows. apply flat_map_app. Qed.

Definition itemRow (layerName : string) (it : Item num props)
  : string * string * Geometry num * props :=
  (layerName, it_meshId it, it_geometry it, it_properties it).

Lemma erase_processItemChunk k d mt s (chunk : list (Item num props)) :
  erase (processItemChunk k d mt s chunk)
  = setTables
      (alter (fun old => old ++ perLayerMeshRows chunk) mt (tables s))
      (appendMeshMap k (meshRowsErased (layerName d) chunk)
         (appendFeatures k (unnumbered (map (itemRow (layerName d)) chunk))
            (erase s))).
Proof.
  unfold processItemChunk. cbv zeta.
  pose proof (erase_insertFeatures k (map (itemRow (layerName d)) chunk) s) as E1.
  pose proof (insertFeatures_ids_length k
                (map (itemRow (layerName d)) chunk) s) as E2.
  unfold itemRow in E1, E2.
  destruct (insertFeatures k _ s) as [s1 ids]. cbn [fst snd] in E1, E2.
  rewrite length_map in E2.
  rewrite erase_insertRowsDynamic, erase_insertMeshMap_chunks.
  destruct (chunkArray_spec INSERT_CHUNK_SIZE
              (meshRowsOf (layerName d) ids chunk)) as (Hc & _ & _);
    [unfold INSERT_CHUNK_SIZE; lia|].
  rewrite Hc, (meshRowsOf_erased _ _ _ E2), E1.
  assert (Et : forall k' (chunks : list (list (MeshMapRow num props))) s',
             tables (foldl (fun s c => if nonEmpty c then insertMeshMap k' c s
                                       else s) s' chunks) = tables s').
  { intros k' chunks. induction chunks as [|c cs IH]; intros s'; [reflexivity|].
    cbn [foldl]. rewrite IH. destruct c; [reflexivity|].
    destruct k'; reflexivity. }
  rewrite Et.
  assert (Es1 : tables s1 = tables s).
  { change (tables s1) with (tables (erase s1)). rewrite E1.
    destruct k; reflexivity. }
  rewrite Es1. reflexivity.
Qed.

Lemma erase_processItemChunks k d mt (chunks : list (list (Item num props))) s :
  erase (foldl (processItemChunk k d mt) s chunks)
  = setTables
      (alter (fun old => old ++ perLayerMeshRows (concat chunks)) mt (tables s))
      (appendMeshMap k (meshRowsErased (layerName d) (concat chunks))
         (appendFeatures k
            (unnumbered (map (itemRow (layerName d)) (concat chunks)))
            (erase s))).
Proof.
  revert s. induction chunks as [|c cs IH]; intros s; cbn [foldl concat].
  - change (perLayerMeshRows []) with (@nil (DynRow num props)).
    change (meshRowsErased (layerName d) []) with (@nil (MeshMapRow num props)).
    change (unnumbered (map (itemRow (layerName d)) []))
      with (@nil (FeatureRow num props)).
    rewrite alter_append_nil, appendFeatures_nil, appendMeshMap_nil.
    apply store_ext; reflexivity.
  - rewrite IH, erase_processItemChunk.
    assert (Et : tables (processItemChunk k d mt s c)
                 = alter (fun old => old ++ perLayerMeshRows c) mt (tables s)).
    { change (tables (processItemChunk k d mt s c))
        with (tables (erase (processItemChunk k d mt s c))).
      rewrite erase_processItemChunk. reflexivity. }
    rewrite Et, alter_append_append, perLayerMeshRows_app,
      meshRowsErased_app.
    unfold unnumbered. rewrite !map_app.
    destruct k; apply store_ext; cbn; try reflexivity;
      rewrite <- ?app_assoc; reflexivity.
Qed.

Lemma erase_processPointLayer d s :
  geometryType d = point ->
  erase (processPointLayer emptyProps d s).1 = aProcess d (erase s)
  /\ (processPointLayer emptyProps d s).2 = newMeshIds d.
Proof.
  intros Hk. unfold processPointLayer, aProcess, newMeshIds, indexIds,
    featureRowsOf, meshMapRowsOf, tablesAfter, layerRowsOf.
  rewrite Hk. cbv zeta. cbn [fst snd]. split; [|reflexivity].
  rewrite erase_insertFeatures_chunks.
  destruct (chunkArray_spec INSERT_CHUNK_SIZE
              (map (fun '(m, g, p) => (layerName d, m, g, p))
                 (pointRows emptyProps d))) as (Hc & _ & _);
    [unfold INSERT_CHUNK_SIZE; lia|].
  rewrite Hc, erase_insertRowsDynamic, erase_upsertMeshIndex.
  rewrite appendMeshMap_nil.
  assert (Et : forall ids s', tables (upsertMeshIndex ids s') = tables s').
  { intros ids s'. change (tables (upsertMeshIndex ids s'))
      with (tables (erase (upsertMeshIndex ids s'))).
    rewrite erase_upsertMeshIndex. reflexivity. }
  rewrite Et. apply store_ext; reflexivity.
Qed.

Lemma erase_processItems k d s :
  geometryType d = k -> k <> point ->
  erase (processItems k d (itemsOf d) s).1 = aProcess d (erase s)
  /\ (processItems k d (itemsOf d) s).2 = newMeshIds d.
Proof.
  intros Hk Hnp. unfold processItems, aProcess, newMeshIds, indexIds,
    featureRowsOf, meshMapRowsOf, tablesAfter, layerRowsOf.
  rewrite Hk.
  destruct (meshMapTable d) as [mt|].
  - cbv zeta. cbn [fst snd].
    split; [|destruct k; [contradiction|reflexivity|reflexivity]].
    rewrite erase_processItemChunks.
    destruct (chunkArray_spec INSERT_CHUNK_SIZE (itemsOf d)) as (Hc & _ & _);
      [unfold INSERT_CHUNK_SIZE; lia|].
    rewrite Hc, erase_insertRowsDynamic, erase_upsertMeshIndex.
    assert (Et : forall ids s', tables (upsertMeshIndex ids s') = tables s').
    { intros ids s'. change (tables (upsertMeshIndex ids s'))
        with (tables (erase (upsertMeshIndex ids s'))).
      rewrite erase_upsertMeshIndex. reflexivity. }
    assert (Et' : forall t rows s',
               tables (insertRowsDynamic t rows s')
               = alter (fun old => old ++ rows) t (tables s')).
    { intros t rows s'. change (tables (insertRowsDynamic t rows s'))
        with (tables (erase (insertRowsDynamic t rows s'))).
      rewrite erase_insertRowsDynamic. reflexivity. }
    rewrite Et', Et.
    destruct k; [contradiction| |]; apply store_ext; reflexivity.
  - cbn [fst snd]. split; [|destruct k; [contradiction|reflexivity|reflexivity]].
    destruct k; [contradiction| |];
      rewrite appendMeshMap_nil, appendFeatures_nil;
      apply store_ext; cbn; reflexivity.
Qed.

(** The statements that do not read an identifier commute with the
    erasure. *)
Lemma filter_map_eraseF (L : string) (rows : list (FeatureRow num props)) :
  List.filter (notOfLayer L) (map eraseF rows)
  = map eraseF (List.filter (notOfLayer L) rows).
Proof.
  induction rows as [|r rows IH]; [reflexivity|]. cbn [map List.filter].
  change (notOfLayer L (eraseF r)) with (notOfLayer L r).
  destruct (notOfLayer L r); cbn [map]; rewrite IH; reflexivity.
Qed.

Lemma filter_map_eraseM (L : string) (rows : list (MeshMapRow num props)) :
  List.filter (notOfLayerM L) (map eraseM rows)
  = map eraseM (List.filter (notOfLayerM L) rows).
Proof.
  induction rows as [|r rows IH]; [reflexivity|]. cbn [map List.filter].
  change (notOfLayerM L (eraseM r)) with (notOfLayerM L r).
  destruct (notOfLayerM L r); cbn [map]; rewrite IH; reflexivity.
Qed.

Lemma erase_deleteGenericRows L s :
  erase (deleteGenericRows L s) = deleteGenericRows L (erase s).
Proof.
  apply store_ext; cbn; try reflexivity;
    rewrite ?filter_map_eraseF, ?filter_map_eraseM; reflexivity.
Qed.

Lemma erase_setTables t s : erase (setTables t s) = setTables t (erase s).
Proof. reflexivity. Qed.

Lemma erase_dropTable t s : erase (dropTable t s) = dropTable t (erase s).
Proof. reflexivity. Qed.

Lemma erase_deleteLayerTables d s :
  erase (deleteLayerTables d s) = deleteLayerTables d (erase s).
Proof. unfold deleteLayerTables. destruct (meshMapTable d); reflexivity. Qed.

Lemma erase_createTable t s : erase (createTable t s) = createTable t (erase s).
Proof.
  unfold createTable. change (tables (erase s)) with (tables s).
  destruct (tables s !! t); reflexivity.
Qed.

Lemma erase_ensureLayerTables d s :
  erase (ensureLayerTables d s) = ensureLayerTables d (erase s).
Proof.
  unfold ensureLayerTables.
  destruct (geometryType d), (meshMapTable d);
    rewrite ?erase_createTable; reflexivity.
Qed.

Lemma erase_removeLayerPresence L ids s :
  erase (removeLayerPresence L ids s) = removeLayerPresence L ids (erase s).
Proof.
  unfold removeLayerPresence. destruct (decide (ids = [])); reflexivity.
Qed.

Lemma erase_addLayerPresence L ids s :
  erase (addLayerPresence L ids s) = addLayerPresence L ids (erase s).
Proof.
  unfold addLayerPresence. destruct (decide (ids = [])); reflexivity.
Qed.

Lemma existsFeature_erase (m : string) (rows : list (FeatureRow num props)) :
  existsFeature m (map eraseF rows) = existsFeature m rows.
Proof.
  unfold existsFeature. induction rows as [|r rows IH]; [reflexivity|].
  cbn [map existsb]. rewrite IH. reflexivity.
Qed.

Lemma existsMeshMap_erase (m : string) (rows : list (MeshMapRow num props)) :
  existsMeshMap m (map eraseM rows) = existsMeshMap m rows.
Proof.
  unfold existsMeshMap. induction rows as [|r rows IH]; [reflexivity|].
  cbn [map existsb]. rewrite IH. reflexivity.
Qed.

Lemma erase_refreshMeshFlags ids s :
  erase (refreshMeshFlags ids s) = refreshMeshFlags ids (erase s).
Proof.
  unfold refreshMeshFlags. destruct (decide (ids = [])); [reflexivity|].
  apply store_ext; try reflexivity.
  cbn [mesh_index setMeshIndex erase point_features line_mesh_map
       polygon_mesh_map].
  apply map_eq. intros m. rewrite !map_lookup_imap.
  destruct (mesh_index s !! m) as [row|]; [|reflexivity].
  cbn -[existsFeature existsMeshMap].
  rewrite existsFeature_erase, !existsMeshMap_erase. reflexivity.
Qed.

Lemma erase_removeLayer name row s :
  erase (removeLayer name row s) = removeLayer name row (erase s).
Proof.
  unfold removeLayer. cbv zeta.
  rewrite erase_refreshMeshFlags, erase_removeLayerPresence.
  change (getLayerMeshIds (lr_tableName row) (lr_meshMapTable row) (erase s))
    with (getLayerMeshIds (lr_tableName row) (lr_meshMapTable row) s).
  do 2 f_equal.
  destruct (lr_meshMapTable row); cbn;
    apply store_ext; cbn; try reflexivity;
    rewrite ?filter_map_eraseF, ?filter_map_eraseM; reflexivity.
Qed.

Lemma erase_processLayer d s :
  erase (processLayer emptyProps MAX_CELLS_PER_FEATURE d s)
  = aProcessLayer d (erase s).
Proof.
  unfold processLayer, aProcessLayer. cbv zeta.
  change (layer_registry (erase s)) with (layer_registry s).
  set (old := match layer_registry s !! layerName d with
              | Some prev => getLayerMeshIds (lr_tableName prev)
                               (lr_meshMapTable prev) s
              | None => []
              end).
  change (match layer_registry s !! layerName d with
          | Some prev => getLayerMeshIds (lr_tableName prev)
                           (lr_meshMapTable prev) (erase s)
          | None => []
          end) with old.
  set (s0 := ensureLayerTables d _).
  set (a0 := ensureLayerTables d _).
  assert (E0 : erase s0 = a0).
  { subst s0 a0. rewrite erase_ensureLayerTables. f_equal.
    destruct (layer_registry s !! layerName d) as [prev|].
    - destruct (lr_meshMapTable prev) as [mt|].
      + destruct (decide _).
        * rewrite erase_deleteLayerTables, erase_deleteGenericRows. reflexivity.
        * rewrite erase_dropTable, erase_deleteLayerTables,
            erase_deleteGenericRows.
          reflexivity.
      + rewrite erase_deleteLayerTables, erase_deleteGenericRows. reflexivity.
    - rewrite erase_deleteLayerTables, erase_deleteGenericRows. reflexivity. }
  clearbody s0 a0. subst a0.
  set (r := match geometryType d with
            | point => _ | line => _ | polygon => _ end).
  assert (Hr : erase r.1 = aProcess d (erase s0) /\ r.2 = newMeshIds d).
  { subst r. destruct (geometryType d) eqn:Hk.
    - apply erase_processPointLayer, Hk.
    - unfold processLineLayer.
      replace (toLineItems emptyProps MAX_CELLS_PER_FEATURE (features d))
        with (itemsOf d) by (unfold itemsOf; rewrite Hk; reflexivity).
      apply erase_processItems; [exact Hk|discriminate].
    - unfold processPolygonLayer.
      replace (toPolygonItems emptyProps MAX_CELLS_PER_FEATURE (features d))
        with (itemsOf d) by (unfold itemsOf; rewrite Hk; reflexivity).
      apply erase_processItems; [exact Hk|discriminate]. }
  destruct r as [s1 newIds]. cbn [fst snd] in Hr. destruct Hr as [E1 ->].
  rewrite <- E1.
  rewrite <- erase_removeLayerPresence, <- erase_addLayerPresence,
    <- erase_refreshMeshFlags.
  apply store_ext; reflexivity.
Qed.

Lemma erase_ingestFile (fileName : string)
    (collection : list (Feature num props)) s :
  erase (ingestFile emptyProps MAX_CELLS_PER_FEATURE fileBase fileName
           collection s)
  = aIngestFile fileName collection (erase s).
Proof.
  unfold ingestFile, aIngestFile. cbv zeta.
  destruct (layerDefs fileBase fileName collection) as [|d0 ds]; [reflexivity|].
  change (staleLayers fileName (d0 :: ds) (erase s))
    with (staleLayers fileName (d0 :: ds) s).
  generalize (staleLayers fileName (d0 :: ds) s) as stale.
  generalize (d0 :: ds) as defs. clear d0 ds.
  intros defs stale.
  assert (E1 : forall (l : list (string * LayerRow)) s',
             erase (foldl (fun s '(name, row) => removeLayer name row s) s' l)
             = foldl (fun a '(name, row) => removeLayer name row a) (erase s') l).
  { induction l as [|[name row] l IH]; intros s'; [reflexivity|].
    cbn [foldl]. rewrite IH, erase_removeLayer. reflexivity. }
  rewrite <- E1.
  generalize (foldl (fun s '(name, row) => removeLayer name row s) s stale).
  induction defs as [|d defs IH]; intros s'; [reflexivity|].
  cbn [foldl]. rewrite IH, erase_processLayer. reflexivity.
Qed.

(** *** The mesh-presence index, row by row *)

Definition withoutLayer (L : string) (row : MeshIndexRow) : MeshIndexRow :=
  mkMeshIndexRow (hasPoints row) (hasLines row) (hasPolygons row)
    (layerPresence row ∖ {[L]}).
Definition withLayer (L : string) (row : MeshIndexRow) : MeshIndexRow :=
  mkMeshIndexRow (hasPoints row) (hasLines row) (hasPolygons row)
    ({[L]} ∪ layerPresence row).
Definition withFlags (m : string) a (row : MeshIndexRow) : MeshIndexRow :=
  mkMeshIndexRow (existsFeature m (point_features a))
    (existsMeshMap m (line_mesh_map a)) (existsMeshMap m (polygon_mesh_map a))
    (layerPresence row).

Lemma lookup_removeLayerPresence L ids a (m : string) :
  mesh_index (removeLayerPresence L ids a) !! m
  = (fun row => if decide (m ∈ ids) then withoutLayer L row else row)
      <$> mesh_index a !! m.
Proof.
  unfold removeLayerPresence. destruct (decide (ids = [])) as [->|_].
  - destruct (mesh_index a !! m); cbn; [|reflexivity].
    destruct (decide (m ∈ [])) as [Hin|_]; [inversion Hin|reflexivity].
  - cbn [mesh_index setMeshIndex]. rewrite map_lookup_imap.
    destruct (mesh_index a !! m); reflexivity.
Qed.

Lemma lookup_addLayerPresence L ids a (m : string) :
  mesh_index (addLayerPresence L ids a) !! m
  = (fun row => if decide (m ∈ ids) then withLayer L row else row)
      <$> mesh_index a !! m.
Proof.
  unfold addLayerPresence. destruct (decide (ids = [])) as [->|_].
  - destruct (mesh_index a !! m); cbn; [|reflexivity].
    destruct (decide (m ∈ [])) as [Hin|_]; [inversion Hin|reflexivity].
  - cbn [mesh_index setMeshIndex]. rewrite map_lookup_imap.
    destruct (mesh_index a !! m); reflexivity.
Qed.

Lemma lookup_refreshMeshFlags ids a (m : string) :
  mesh_index (refreshMeshFlags ids a) !! m
  = (fun row => if decide (m ∈ ids) then withFlags m a row else row)
      <$> mesh_index a !! m.
Proof.
  unfold refreshMeshFlags. destruct (decide (ids = [])) as [->|_].
  - destruct (mesh_index a !! m); cbn; [|reflexivity].
    destruct (decide (m ∈ [])) as [Hin|_]; [inversion Hin|reflexivity].
  - cbn [mesh_index setMeshIndex]. rewrite map_lookup_imap.
    destruct (mesh_index a !! m); reflexivity.
Qed.

(** The presence statements leave the other columns of the store
    alone. *)
Lemma removeLayerPresence_setMeshIndex L ids a :
  removeLayerPresence L ids a
  = setMeshIndex (mesh_index (removeLayerPresence L ids a)) a.
Proof.
  unfold removeLayerPresence. destruct (decide (ids = []));
    apply store_ext; reflexivity.
Qed.

Lemma addLayerPresence_setMeshIndex L ids a :
  addLayerPresence L ids a
  = setMeshIndex (mesh_index (addLayerPresence L ids a)) a.
Proof.
  unfold addLayerPresence. destruct (decide (ids = []));
    apply store_ext; reflexivity.
Qed.

Lemma refreshMeshFlags_setMeshIndex ids a :
  refreshMeshFlags ids a
  = setMeshIndex (mesh_index (refreshMeshFlags ids a)) a.
Proof.
  unfold refreshMeshFlags. destruct (decide (ids = []));
    apply store_ext; reflexivity.
Qed.

(** [Set]s as lists. *)
Lemma setAdd_elem (seen : list string) (x y : string) :
  y ∈ setAdd seen x <-> y ∈ seen \/ y = x.
Proof.
  unfold setAdd. destruct (decide (x ∈ seen)) as [Hin|Hnin].
  - split; [auto|]. intros [Hy| ->]; assumption.
  - rewrite elem_of_app, list_elem_of_singleton. reflexivity.
Qed.

Lemma setFrom_elem_aux (l seen : list string) (y : string) :
  y ∈ foldl setAdd seen l <-> y ∈ seen \/ y ∈ l.
Proof.
  revert seen. induction l as [|x l IH]; intros seen; cbn [foldl].
  - split; [auto|]. intros [Hy|Hy]; [exact Hy|inversion Hy].
  - rewrite IH, setAdd_elem, elem_of_cons. tauto.
Qed.

Lemma setFrom_elem (l : list string) (y : string) : y ∈ setFrom l <-> y ∈ l.
Proof.
  unfold setFrom. rewrite setFrom_elem_aux. split; [|auto].
  intros [Hy|Hy]; [inversion Hy|exact Hy].
Qed.

Lemma insertIndexRow_lookup (idx : gmap string MeshIndexRow) (x m : string) :
  insertIndexRow idx x !! m
  = match idx !! m with
    | Some row => Some row
    | None => if decide (x = m) then Some freshIndexRow else None
    end.
Proof.
  unfold insertIndexRow. destruct (idx !! x) as [rx|] eqn:Ex.
  - destruct (idx !! m) as [row|] eqn:Em; [reflexivity|].
    destruct (decide (x = m)) as [->|]; [congruence|reflexivity].
  - destruct (decide (x = m)) as [->|Hne].
    + rewrite lookup_insert_eq, Ex. reflexivity.
    + rewrite lookup_insert_ne by exact Hne.
      destruct (idx !! m); reflexivity.
Qed.

Lemma upsert_lookup (ids : list string) (idx : gmap string MeshIndexRow)
    (m : string) :
  foldl insertIndexRow idx ids !! m
  = match idx !! m with
    | Some row => Some row
    | None => if decide (m ∈ ids) then Some freshIndexRow else None
    end.
Proof.
  revert idx. induction ids as [|x ids IH]; intros idx; cbn [foldl].
  - destruct (idx !! m); [reflexivity|].
    destruct (decide (m ∈ [])) as [Hin|]; [inversion Hin|reflexivity].
  - rewrite IH, insertIndexRow_lookup.
    destruct (idx !! m) as [row|]; [reflexivity|].
    destruct (decide (x = m)) as [->|Hne].
    + destruct (decide (m ∈ m :: ids)) as [|Hn]; [reflexivity|].
      exfalso. apply Hn. left.
    + destruct (decide (m ∈ ids)) as [Hin|Hnin];
        destruct (decide (m ∈ x :: ids)) as [Hin'|Hnin']; try reflexivity.
      * exfalso. apply Hnin'. right. exact Hin.
      * exfalso. apply elem_of_cons in Hin' as [->|Hin']; auto.
Qed.

Lemma upsert_present (ids : list string) (idx : gmap string MeshIndexRow) :
  (forall m, m ∈ ids -> is_Some (idx !! m)) ->
  foldl insertIndexRow idx ids = idx.
Proof.
  intros Hall. apply map_eq. intros m. rewrite upsert_lookup.
  destruct (idx !! m) as [row|] eqn:Em; [reflexivity|].
  destruct (decide (m ∈ ids)) as [Hin|]; [|reflexivity].
  destruct (Hall m Hin) as [row Hrow]. congruence.
Qed.

(** *** One layer, column by column *)

(** The columns of the store that hold rows, and its sequences and log. *)
Definition rowsOf a :=
  (point_features a, line_features a, polygon_features a, line_mesh_map a,
   polygon_mesh_map a, seq_point a, seq_line a, seq_polygon a, log a).

Lemma store_ext_rows a a' :
  rowsOf a = rowsOf a' -> tables a = tables a' ->
  layer_registry a = layer_registry a' -> mesh_index a = mesh_index a' ->
  a = a'.
Proof.
  unfold rowsOf. intros [= ? ? ? ? ? ? ? ? ?] ? ? ?.
  apply store_ext; assumption.
Qed.

(** The rows that the layer appends. *)
Definition appendRows d a : Store num props :=
  appendMeshMap (geometryType d) (meshMapRowsOf d)
    (appendFeatures (geometryType d) (featureRowsOf d) a).

Lemma rowsOf_createTable t a : rowsOf (createTable t a) = rowsOf a.
Proof. unfold createTable. destruct (tables a !! t); reflexivity. Qed.

Lemma rowsOf_ensureLayerTables d a : rowsOf (ensureLayerTables d a) = rowsOf a.
Proof.
  unfold ensureLayerTables.
  destruct (geometryType d), (meshMapTable d);
    rewrite ?rowsOf_createTable; reflexivity.
Qed.

Lemma rowsOf_deleteLayerTables d a : rowsOf (deleteLayerTables d a) = rowsOf a.
Proof. unfold deleteLayerTables. destruct (meshMapTable d); reflexivity. Qed.

Lemma rowsOf_removeLayerPresence L ids a :
  rowsOf (removeLayerPresence L ids a) = rowsOf a.
Proof. rewrite removeLayerPresence_setMeshIndex. reflexivity. Qed.

Lemma rowsOf_addLayerPresence L ids a :
  rowsOf (addLayerPresence L ids a) = rowsOf a.
Proof. rewrite addLayerPresence_setMeshIndex. reflexivity. Qed.

Lemma rowsOf_refreshMeshFlags ids a : rowsOf (refreshMeshFlags ids a) = rowsOf a.
Proof. rewrite refreshMeshFlags_setMeshIndex. reflexivity. Qed.

Lemma rowsOf_appendRows d a a' :
  rowsOf a = rowsOf a' -> rowsOf (appendRows d a) = rowsOf (appendRows d a').
Proof.
  unfold rowsOf, appendRows. intros [= ? ? ? ? ? ? ? ? ?].
  destruct (geometryType d); cbn; congruence.
Qed.

Lemma rowsOf_deleteGenericRows L a a' :
  rowsOf a = rowsOf a' ->
  rowsOf (deleteGenericRows L a) = rowsOf (deleteGenericRows L a').
Proof.
  unfold rowsOf. intros [= ? ? ? ? ? ? ? ? ?]. cbn. congruence.
Qed.

Lemma rowsOf_aProcess d a : rowsOf (aProcess d a) = rowsOf (appendRows d a).
Proof. apply rowsOf_appendRows. reflexivity. Qed.

Definition oldMeshIdsOf d a : list string :=
  match layer_registry a !! layerName d with
  | Some prev => getLayerMeshIds (lr_tableName prev) (lr_meshMapTable prev) a
  | None => []
  end.

(** The store before the rows of the layer are written. *)
Definition prepared d a : Store num props :=
  ensureLayerTables d
    match layer_registry a !! layerName d with
    | Some prev =>
        match lr_meshMapTable prev with
        | Some mt =>
            if decide (lr_geometryType prev = geometryType d)
            then deleteLayerTables d (deleteGenericRows (layerName d) a)
            else dropTable mt
                   (deleteLayerTables d (deleteGenericRows (layerName d) a))
        | None => deleteLayerTables d (deleteGenericRows (layerName d) a)
        end
    | None => deleteLayerTables d (deleteGenericRows (layerName d) a)
    end.

Lemma aProcessLayer_unfold d a :
  aProcessLayer d a
  = let a1 :=
      refreshMeshFlags (setFrom (oldMeshIdsOf d a ++ newMeshIds d))
        (addLayerPresence (layerName d) (newMeshIds d)
           (removeLayerPresence (layerName d) (oldMeshIdsOf d a)
              (aProcess d (prepared d a)))) in
    setRegistry (<[layerName d := registryRowOf d]> (layer_registry a1)) a1.
Proof. reflexivity. Qed.

Lemma rowsOf_prepared d a :
  rowsOf (prepared d a) = rowsOf (deleteGenericRows (layerName d) a).
Proof.
  unfold prepared. rewrite rowsOf_ensureLayerTables.
  destruct (layer_registry a !! layerName d) as [prev|];
    [destruct (lr_meshMapTable prev); [destruct (decide _)|]|];
    try (rewrite rowsOf_deleteLayerTables; reflexivity).
  unfold dropTable. cbn [rowsOf setTables point_features line_features
    polygon_features line_mesh_map polygon_mesh_map seq_point seq_line
    seq_polygon log].
  apply rowsOf_deleteLayerTables.
Qed.

Lemma rowsOf_aProcessLayer d a :
  rowsOf (aProcessLayer d a)
  = rowsOf (appendRows d (deleteGenericRows (layerName d) a)).
Proof.
  rewrite aProcessLayer_unfold. cbv zeta.
  change (rowsOf (setRegistry ?r ?x)) with (rowsOf x).
  rewrite rowsOf_refreshMeshFlags, rowsOf_addLayerPresence,
    rowsOf_removeLayerPresence, rowsOf_aProcess.
  apply rowsOf_appendRows, rowsOf_prepared.
Qed.

Lemma registry_presence_ops L ids ids' ids'' a :
  layer_registry (refreshMeshFlags ids'' (addLayerPresence L ids'
                    (removeLayerPresence L ids a)))
  = layer_registry a
  /\ tables (refreshMeshFlags ids'' (addLayerPresence L ids'
               (removeLayerPresence L ids a)))
     = tables a.
Proof.
  rewrite refreshMeshFlags_setMeshIndex. cbn [layer_registry tables setMeshIndex].
  rewrite addLayerPresence_setMeshIndex. cbn [layer_registry tables setMeshIndex].
  rewrite removeLayerPresence_setMeshIndex. split; reflexivity.
Qed.

Lemma registry_createTable t a :
  layer_registry (createTable t a) = layer_registry a
  /\ mesh_index (createTable t a) = mesh_index a.
Proof. unfold createTable. destruct (tables a !! t); split; reflexivity. Qed.

Lemma registry_prepared d a :
  layer_registry (prepared d a) = layer_registry a
  /\ mesh_index (prepared d a) = mesh_index a.
Proof.
  unfold prepared, ensureLayerTables, deleteLayerTables.
  destruct (layer_registry a !! layerName d) as [prev|];
    [destruct (lr_meshMapTable prev); [destruct (decide _)|]|];
    destruct (geometryType d), (meshMapTable d);
    rewrite ?(proj1 (registry_createTable _ _)),
      ?(proj2 (registry_createTable _ _));
    split; reflexivity.
Qed.

Lemma registry_aProcess d a :
  layer_registry (aProcess d a) = layer_registry a
  /\ tables (aProcess d a) = tablesAfter d (tables a)
  /\ mesh_index (aProcess d a)
     = foldl insertIndexRow (mesh_index a) (indexIds d).
Proof.
  unfold aProcess, appendMeshMap, appendFeatures.
  destruct (geometryType d); repeat split; reflexivity.
Qed.

Lemma registry_aProcessLayer d a :
  layer_registry (aProcessLayer d a)
  = <[layerName d := registryRowOf d]> (layer_registry a).
Proof.
  rewrite aProcessLayer_unfold. cbv zeta. cbn [layer_registry setRegistry].
  rewrite (proj1 (registry_presence_ops _ _ _ _ _)).
  rewrite (proj1 (registry_aProcess _ _)), (proj1 (registry_prepared _ _)).
  reflexivity.
Qed.

Lemma tables_aProcessLayer d a :
  tables (aProcessLayer d a) = tablesAfter d (tables (prepared d a)).
Proof.
  rewrite aProcessLayer_unfold. cbv zeta. cbn [tables setRegistry].
  rewrite (proj2 (registry_presence_ops _ _ _ _ _)).
  apply (registry_aProcess d (prepared d a)).
Qed.

Lemma withFlags_rows (m : string) a a' (row : MeshIndexRow) :
  rowsOf a = rowsOf a' -> withFlags m a row = withFlags m a' row.
Proof.
  unfold rowsOf, withFlags. intros [= ? ? ? ? ? ? ? ? ?]. congruence.
Qed.

(** The row of a mesh identifier after the layer is processed. *)
Definition indexRowStep (L : string) (old new : list string) a (m : string)
    (row : MeshIndexRow) : MeshIndexRow :=
  let r1 := if decide (m ∈ old) then withoutLayer L row else row in
  let r2 := if decide (m ∈ new) then withLayer L r1 else r1 in
  if decide (m ∈ old \/ m ∈ new) then withFlags m a r2 else r2.

Lemma index_aProcessLayer d a (m : string) :
  mesh_index (aProcessLayer d a) !! m
  = indexRowStep (layerName d) (oldMeshIdsOf d a) (newMeshIds d)
      (appendRows d (deleteGenericRows (layerName d) a)) m
      <$> foldl insertIndexRow (mesh_index a) (indexIds d) !! m.
Proof.
  rewrite aProcessLayer_unfold. cbv zeta. cbn [mesh_index setRegistry].
  rewrite lookup_refreshMeshFlags, lookup_addLayerPresence,
    lookup_removeLayerPresence.
  rewrite (proj2 (proj2 (registry_aProcess _ _))),
    (proj2 (registry_prepared _ _)).
  destruct (foldl insertIndexRow (mesh_index a) (indexIds d) !! m) as [row|];
    [|reflexivity].
  cbn [fmap option_fmap option_map]. f_equal. unfold indexRowStep. cbv zeta.
  assert (Erows : rowsOf (addLayerPresence (layerName d) (newMeshIds d)
                     (removeLayerPresence (layerName d) (oldMeshIdsOf d a)
                        (aProcess d (prepared d a))))
                  = rowsOf (appendRows d (deleteGenericRows (layerName d) a))).
  { rewrite rowsOf_addLayerPresence, rowsOf_removeLayerPresence,
      rowsOf_aProcess.
    apply rowsOf_appendRows, rowsOf_prepared. }
  rewrite (withFlags_rows m _ _ _ Erows).
  destruct (decide (m ∈ setFrom (oldMeshIdsOf d a ++ newMeshIds d))) as [Hin|Hn];
    destruct (decide (m ∈ oldMeshIdsOf d a \/ m ∈ newMeshIds d)) as [Hin'|Hn'];
    try reflexivity.
  - exfalso. apply Hn'. apply setFrom_elem, elem_of_app in Hin. exact Hin.
  - exfalso. apply Hn. apply setFrom_elem, elem_of_app. exact Hin'.
Qed.

(** *** Well-formed layer definitions *)

(** A point layer has no mesh-decomposition table, a line or polygon
    layer has one, and it is not the per-layer table. *)
Definition wfDef d : Prop :=
  (geometryType d = point -> meshMapTable d = None)
  /\ (geometryType d <> point -> is_Some (meshMapTable d))
  /\ meshMapTable d <> Some (tableName d).

Definition tablesOf d : list string :=
  tableName d :: match meshMapTable d with Some mt => [mt] | None => [] end.

(** Two layers of different names, kinds and tables. *)
Definition apart d d' : Prop :=
  layerName d <> layerName d'
  /\ geometryType d <> geometryType d'
  /\ forall x, x ∈ tablesOf d -> x ∉ tablesOf d'.

Lemma apart_sym d d' : apart d d' -> apart d' d.
Proof.
  intros (Hn & Hk & Ht). repeat split; [congruence|congruence|].
  intros x Hx Hx'. exact (Ht x Hx' Hx).
Qed.

(** The registry does not make the layer drop a table. *)
Definition noDrop d a : Prop :=
  layer_registry a !! layerName d = None
  \/ layer_registry a !! layerName d = Some (registryRowOf d).

Lemma prepared_noDrop d a :
  noDrop d a ->
  prepared d a
  = ensureLayerTables d (deleteLayerTables d (deleteGenericRows (layerName d) a)).
Proof.
  unfold prepared. intros [-> | ->]; [reflexivity|].
  cbn [lr_meshMapTable lr_geometryType registryRowOf].
  destruct (meshMapTable d); [|reflexivity].
  destruct (decide (geometryType d = geometryType d)); [reflexivity|].
  contradiction.
Qed.

Lemma tables_createTable t a (x : string) :
  tables (createTable t a) !! x
  = match tables a !! x with
    | Some rows => Some rows
    | None => if decide (x = t) then Some [] else None
    end.
Proof.
  unfold createTable. destruct (tables a !! t) as [rows|] eqn:Et.
  - destruct (tables a !! x) eqn:Ex; [reflexivity|].
    destruct (decide (x = t)) as [->|]; [congruence|reflexivity].
  - cbn [tables setTables]. destruct (decide (x = t)) as [->|Hne].
    + rewrite lookup_insert_eq, Et. reflexivity.
    + rewrite lookup_insert_ne by congruence.
      destruct (tables a !! x); reflexivity.
Qed.

Lemma tables_emptyTable t a (x : string) :
  tables (emptyTable t a) !! x
  = if decide (x = t) then (fun _ => []) <$> tables a !! x else tables a !! x.
Proof.
  unfold emptyTable. cbn [tables setTables].
  destruct (decide (x = t)) as [->|Hne].
  - apply lookup_alter_eq.
  - apply lookup_alter_ne. congruence.
Qed.

(** The per-layer tables after the layer is processed. *)
Lemma tables_step_lookup d a (x : string) :
  wfDef d -> noDrop d a ->
  tables (aProcessLayer d a) !! x
  = if decide (x = tableName d) then Some (layerRowsOf d)
    else if decide (meshMapTable d = Some x)
         then Some (perLayerMeshRows (itemsOf d))
         else tables a !! x.
Proof.
  intros (Hpoint & Hother & Hneq) Hnd.
  rewrite tables_aProcessLayer, (prepared_noDrop d a Hnd).
  unfold tablesAfter, ensureLayerTables, deleteLayerTables.
  change (tables (deleteGenericRows (layerName d) a)) with (tables a).
  destruct (geometryType d) eqn:Hk.
  - rewrite (Hpoint eq_refl) in *.
    destruct (decide (x = tableName d)) as [->|Hne].
    + rewrite lookup_alter_eq, tables_createTable, tables_emptyTable.
      destruct (decide (tableName d = tableName d)); [|contradiction].
      change (tables (deleteGenericRows (layerName d) a)) with (tables a).
      destruct (tables a !! tableName d); reflexivity.
    + rewrite lookup_alter_ne by congruence.
      rewrite tables_createTable, tables_emptyTable.
      destruct (decide (x = tableName d)); [contradiction|].
      change (tables (deleteGenericRows (layerName d) a)) with (tables a).
      destruct (decide (None = Some x)); [discriminate|].
      destruct (tables a !! x); reflexivity.
  - destruct (Hother ltac:(discriminate)) as [mt Hmt]. rewrite Hmt in *.
    assert (Hmt' : mt <> tableName d) by congruence.
    destruct (decide (x = tableName d)) as [->|Hne].
    + rewrite lookup_alter_ne by exact Hmt'.
      rewrite lookup_alter_eq, !tables_createTable, !tables_emptyTable.
      destruct (decide (tableName d = mt)); [congruence|].
      destruct (decide (tableName d = tableName d)); [|contradiction].
      change (tables (deleteGenericRows (layerName d) a)) with (tables a).
      destruct (tables a !! tableName d); reflexivity.
    + destruct (decide (Some mt = Some x)) as [[= ->]|Hne'].
      * rewrite lookup_alter_eq, lookup_alter_ne by congruence.
        rewrite !tables_createTable, !tables_emptyTable.
        destruct (decide (x = x)); [|contradiction].
        destruct (decide (x = tableName d)); [contradiction|].
        change (tables (deleteGenericRows (layerName d) a)) with (tables a).
        destruct (tables a !! x); reflexivity.
      * rewrite !lookup_alter_ne by congruence.
        rewrite !tables_createTable, !tables_emptyTable.
        destruct (decide (x = mt)); [congruence|].
        destruct (decide (x = tableName d)); [contradiction|].
        change (tables (deleteGenericRows (layerName d) a)) with (tables a).
        destruct (tables a !! x); reflexivity.
  - destruct (Hother ltac:(discriminate)) as [mt Hmt]. rewrite Hmt in *.
    assert (Hmt' : mt <> tableName d) by congruence.
    destruct (decide (x = tableName d)) as [->|Hne].
    + rewrite lookup_alter_ne by exact Hmt'.
      rewrite lookup_alter_eq, !tables_createTable, !tables_emptyTable.
      destruct (decide (tableName d = mt)); [congruence|].
      destruct (decide (tableName d = tableName d)); [|contradiction].
      change (tables (deleteGenericRows (layerName d) a)) with (tables a).
      destruct (tables a !! tableName d); reflexivity.
    + destruct (decide (Some mt = Some x)) as [[= ->]|Hne'].
      * rewrite lookup_alter_eq, lookup_alter_ne by congruence.
        rewrite !tables_createTable, !tables_emptyTable.
        destruct (decide (x = x)); [|contradiction].
        destruct (decide (x = tableName d)); [contradiction|].
        change (tables (deleteGenericRows (layerName d) a)) with (tables a).
        destruct (tables a !! x); reflexivity.
      * rewrite !lookup_alter_ne by congruence.
        rewrite !tables_createTable, !tables_emptyTable.
        destruct (decide (x = mt)); [congruence|].
        destruct (decide (x = tableName d)); [contradiction|].
        change (tables (deleteGenericRows (layerName d) a)) with (tables a).
        destruct (tables a !! x); reflexivity.
Qed.


(** *** The rows of a layer in the cross-layer tables *)

(** Deleting the rows of a layer from a table and adding rows to it. *)
Definition stepF (L : string) (new old : list (FeatureRow num props))
  : list (FeatureRow num props) :=
  List.filter (notOfLayer L) old ++ new.
Definition stepM (L : string) (new old : list (MeshMapRow num props))
  : list (MeshMapRow num props) :=
  List.filter (notOfLayerM L) old ++ new.

Definition taggedF (L : string) (rows : list (FeatureRow num props)) : Prop :=
  Forall (fun r => fr_sourceLayer r = L) rows.
Definition taggedM (L : string) (rows : list (MeshMapRow num props)) : Prop :=
  Forall (fun r => mm_sourceLayer r = L) rows.

Lemma filter_comm {A : Type} (f g : A -> bool) (l : list A) :
  List.filter f (List.filter g l) = List.filter g (List.filter f l).
Proof.
  induction l as [|x l IH]; [reflexivity|]. cbn [List.filter].
  destruct (g x) eqn:Eg, (f x) eqn:Ef; cbn [List.filter];
    rewrite ?Eg, ?Ef, IH; reflexivity.
Qed.

Lemma filter_idem {A : Type} (f : A -> bool) (l : list A) :
  List.filter f (List.filter f l) = List.filter f l.
Proof.
  induction l as [|x l IH]; [reflexivity|]. cbn [List.filter].
  destruct (f x) eqn:Ef; cbn [List.filter]; rewrite ?Ef, IH; reflexivity.
Qed.

Lemma filter_taggedF_same L rows :
  taggedF L rows -> List.filter (notOfLayer L) rows = [].
Proof.
  induction 1 as [|r rows Hr _ IH]; [reflexivity|]. cbn [List.filter].
  unfold notOfLayer at 1. rewrite Hr, String.eqb_refl. exact IH.
Qed.

Lemma filter_taggedF_other L L' rows :
  taggedF L rows -> L <> L' -> List.filter (notOfLayer L') rows = rows.
Proof.
  intros Hrows Hne. induction Hrows as [|r rows Hr _ IH]; [reflexivity|].
  cbn [List.filter]. unfold notOfLayer at 1. rewrite Hr.
  destruct (String.eqb_spec L L') as [|_]; [contradiction|].
  cbn [negb]. rewrite IH. reflexivity.
Qed.

Lemma filter_taggedM_same L rows :
  taggedM L rows -> List.filter (notOfLayerM L) rows = [].
Proof.
  induction 1 as [|r rows Hr _ IH]; [reflexivity|]. cbn [List.filter].
  unfold notOfLayerM at 1. rewrite Hr, String.eqb_refl. exact IH.
Qed.

Lemma filter_taggedM_other L L' rows :
  taggedM L rows -> L <> L' -> List.filter (notOfLayerM L') rows = rows.
Proof.
  intros Hrows Hne. induction Hrows as [|r rows Hr _ IH]; [reflexivity|].
  cbn [List.filter]. unfold notOfLayerM at 1. rewrite Hr.
  destruct (String.eqb_spec L L') as [|_]; [contradiction|].
  cbn [negb]. rewrite IH. reflexivity.
Qed.

Lemma stepF_idem L new old :
  taggedF L new -> stepF L new (stepF L new old) = stepF L new old.
Proof.
  intros Hn. unfold stepF. rewrite List.filter_app, filter_idem.
  rewrite (filter_taggedF_same L new Hn), app_nil_r. reflexivity.
Qed.

Lemma stepM_idem L new old :
  taggedM L new -> stepM L new (stepM L new old) = stepM L new old.
Proof.
  intros Hn. unfold stepM. rewrite List.filter_app, filter_idem.
  rewrite (filter_taggedM_same L new Hn), app_nil_r. reflexivity.
Qed.

Lemma stepF_comm L L' new new' old :
  L <> L' -> taggedF L new -> taggedF L' new' -> new = [] \/ new' = [] ->
  stepF L new (stepF L' new' old) = stepF L' new' (stepF L new old).
Proof.
  intros Hne Hn Hn' [-> | ->]; unfold stepF;
    rewrite !List.filter_app, ?app_nil_r; cbn [List.filter];
    rewrite ?app_nil_r.
  - rewrite (filter_taggedF_other L' L new') by auto.
    rewrite (filter_comm (notOfLayer L)). reflexivity.
  - rewrite (filter_taggedF_other L L' new) by auto.
    rewrite (filter_comm (notOfLayer L)). reflexivity.
Qed.

Lemma stepM_comm L L' new new' old :
  L <> L' -> taggedM L new -> taggedM L' new' -> new = [] \/ new' = [] ->
  stepM L new (stepM L' new' old) = stepM L' new' (stepM L new old).
Proof.
  intros Hne Hn Hn' [-> | ->]; unfold stepM;
    rewrite !List.filter_app, ?app_nil_r; cbn [List.filter];
    rewrite ?app_nil_r.
  - rewrite (filter_taggedM_other L' L new') by auto.
    rewrite (filter_comm (notOfLayerM L)). reflexivity.
  - rewrite (filter_taggedM_other L L' new) by auto.
    rewrite (filter_comm (notOfLayerM L)). reflexivity.
Qed.

Lemma filter_stepF L L' new old :
  L <> L' -> taggedF L new ->
  List.filter (notOfLayer L') (stepF L new old)
  = stepF L new (List.filter (notOfLayer L') old).
Proof.
  intros Hne Hn. unfold stepF. rewrite List.filter_app.
  rewrite (filter_taggedF_other L L' new) by auto.
  rewrite (filter_comm (notOfLayer L')). reflexivity.
Qed.

Lemma filter_stepM L L' new old :
  L <> L' -> taggedM L new ->
  List.filter (notOfLayerM L') (stepM L new old)
  = stepM L new (List.filter (notOfLayerM L') old).
Proof.
  intros Hne Hn. unfold stepM. rewrite List.filter_app.
  rewrite (filter_taggedM_other L L' new) by auto.
  rewrite (filter_comm (notOfLayerM L')). reflexivity.
Qed.

(** The rows that a layer writes to the feature table and to the
    mesh-map table of a kind: its rows when the layer is of this kind. *)
Definition fRows (k : GeometryKind) d : list (FeatureRow num props) :=
  if decide (geometryType d = k) then featureRowsOf d else [].
Definition mRows (k : GeometryKind) d : list (MeshMapRow num props) :=
  if decide (geometryType d = k) then meshMapRowsOf d else [].

Lemma unnumbered_tagged L (rows : list (string * Geometry num * props)) :
  taggedF L (unnumbered (map (fun '(m, g, p) => (L, m, g, p)) rows)).
Proof.
  unfold taggedF, unnumbered. rewrite map_map. apply Forall_map.
  apply Forall_forall. intros [[m g] p] _. reflexivity.
Qed.

Lemma featureRowsOf_tagged d : taggedF (layerName d) (featureRowsOf d).
Proof.
  unfold featureRowsOf.
  assert (Hitems : taggedF (layerName d)
            (unnumbered (map (fun it => (layerName d, it_meshId it,
                                         it_geometry it, it_properties it))
                           (itemsOf d)))).
  { unfold taggedF, unnumbered. rewrite map_map. apply Forall_map.
    apply Forall_forall. intros it _. reflexivity. }
  destruct (geometryType d).
  - apply unnumbered_tagged.
  - destruct (meshMapTable d); [exact Hitems|constructor].
  - destruct (meshMapTable d); [exact Hitems|constructor].
Qed.

Lemma meshRowsErased_tagged L items : taggedM L (meshRowsErased L items).
Proof.
  unfold taggedM, meshRowsErased. apply Forall_forall. intros r Hr.
  apply list_elem_of_In, in_flat_map in Hr as (it & _ & Hr).
  apply in_map_iff in Hr as (piece & <- & _). reflexivity.
Qed.

Lemma meshMapRowsOf_tagged d : taggedM (layerName d) (meshMapRowsOf d).
Proof.
  unfold meshMapRowsOf.
  destruct (geometryType d); [constructor| |];
    (destruct (meshMapTable d); [apply meshRowsErased_tagged|constructor]).
Qed.

Lemma fRows_tagged k d : taggedF (layerName d) (fRows k d).
Proof.
  unfold fRows. destruct (decide _); [apply featureRowsOf_tagged|constructor].
Qed.

Lemma mRows_tagged k d : taggedM (layerName d) (mRows k d).
Proof.
  unfold mRows. destruct (decide _); [apply meshMapRowsOf_tagged|constructor].
Qed.

(** One layer on the cross-layer tables: its rows are deleted, then its
    new rows are added. *)
Definition gStep d a : Store num props :=
  appendRows d (deleteGenericRows (layerName d) a).

Lemma meshMapRowsOf_point d : geometryType d = point -> meshMapRowsOf d = [].
Proof. unfold meshMapRowsOf. intros ->. reflexivity. Qed.

Lemma gStep_fields d a :
  point_features (gStep d a)
  = stepF (layerName d) (fRows point d) (point_features a)
  /\ line_features (gStep d a)
     = stepF (layerName d) (fRows line d) (line_features a)
  /\ polygon_features (gStep d a)
     = stepF (layerName d) (fRows polygon d) (polygon_features a)
  /\ line_mesh_map (gStep d a)
     = stepM (layerName d) (mRows line d) (line_mesh_map a)
  /\ polygon_mesh_map (gStep d a)
     = stepM (layerName d) (mRows polygon d) (polygon_mesh_map a).
Proof.
  unfold gStep, appendRows, fRows, mRows, stepF, stepM.
  pose proof (meshMapRowsOf_point d) as Hp.
  destruct (geometryType d); cbn; rewrite ?Hp, ?app_nil_r by reflexivity;
    repeat split; reflexivity.
Qed.

Lemma rowsOf_gStep d a :
  rowsOf (gStep d a)
  = (stepF (layerName d) (fRows point d) (point_features a),
     stepF (layerName d) (fRows line d) (line_features a),
     stepF (layerName d) (fRows polygon d) (polygon_features a),
     stepM (layerName d) (mRows line d) (line_mesh_map a),
     stepM (layerName d) (mRows polygon d) (polygon_mesh_map a),
     seq_point a, seq_line a, seq_polygon a, log a).
Proof.
  destruct (gStep_fields d a) as (E1 & E2 & E3 & E4 & E5).
  unfold rowsOf. rewrite E1, E2, E3, E4, E5.
  unfold gStep, appendRows. destruct (geometryType d); reflexivity.
Qed.

Lemma gStep_congr d a a' :
  rowsOf a = rowsOf a' -> rowsOf (gStep d a) = rowsOf (gStep d a').
Proof.
  intros E. unfold gStep. apply rowsOf_appendRows, rowsOf_deleteGenericRows, E.
Qed.

Lemma gStep_idem d a : rowsOf (gStep d (gStep d a)) = rowsOf (gStep d a).
Proof.
  rewrite (rowsOf_gStep d (gStep d a)).
  destruct (gStep_fields d a) as (E1 & E2 & E3 & E4 & E5).
  rewrite E1, E2, E3, E4, E5.
  rewrite !stepF_idem, !stepM_idem by (apply fRows_tagged || apply mRows_tagged).
  rewrite rowsOf_gStep.
  unfold gStep, appendRows. destruct (geometryType d); reflexivity.
Qed.

Lemma fRows_apart k d d' :
  geometryType d <> geometryType d' -> fRows k d = [] \/ fRows k d' = [].
Proof.
  intros Hk. unfold fRows.
  destruct (decide (geometryType d = k)); [|left; reflexivity].
  destruct (decide (geometryType d' = k)); [congruence|right; reflexivity].
Qed.

Lemma mRows_apart k d d' :
  geometryType d <> geometryType d' -> mRows k d = [] \/ mRows k d' = [].
Proof.
  intros Hk. unfold mRows.
  destruct (decide (geometryType d = k)); [|left; reflexivity].
  destruct (decide (geometryType d' = k)); [congruence|right; reflexivity].
Qed.

Lemma seqs_gStep d a :
  seq_point (gStep d a) = seq_point a /\ seq_line (gStep d a) = seq_line a
  /\ seq_polygon (gStep d a) = seq_polygon a /\ log (gStep d a) = log a.
Proof.
  unfold gStep, appendRows. destruct (geometryType d); repeat split.
Qed.

Lemma gStep_comm d d' a :
  layerName d <> layerName d' -> geometryType d <> geometryType d' ->
  rowsOf (gStep d (gStep d' a)) = rowsOf (gStep d' (gStep d a)).
Proof.
  intros Hn Hk.
  rewrite (rowsOf_gStep d (gStep d' a)), (rowsOf_gStep d' (gStep d a)).
  destruct (gStep_fields d a) as (E1 & E2 & E3 & E4 & E5).
  destruct (gStep_fields d' a) as (E1' & E2' & E3' & E4' & E5').
  destruct (seqs_gStep d a) as (S1 & S2 & S3 & S4).
  destruct (seqs_gStep d' a) as (S1' & S2' & S3' & S4').
  rewrite E1, E2, E3, E4, E5, E1', E2', E3', E4', E5',
    S1, S2, S3, S4, S1', S2', S3', S4'.
  rewrite (stepF_comm (layerName d) (layerName d') (fRows point d));
    [|exact Hn|apply fRows_tagged..|apply fRows_apart, Hk].
  rewrite (stepF_comm (layerName d) (layerName d') (fRows line d));
    [|exact Hn|apply fRows_tagged..|apply fRows_apart, Hk].
  rewrite (stepF_comm (layerName d) (layerName d') (fRows polygon d));
    [|exact Hn|apply fRows_tagged..|apply fRows_apart, Hk].
  rewrite (stepM_comm (layerName d) (layerName d') (mRows line d));
    [|exact Hn|apply mRows_tagged..|apply mRows_apart, Hk].
  rewrite (stepM_comm (layerName d) (layerName d') (mRows polygon d));
    [|exact Hn|apply mRows_tagged..|apply mRows_apart, Hk].
  reflexivity.
Qed.

Lemma delete_gStep L d a :
  layerName d <> L ->
  rowsOf (deleteGenericRows L (gStep d a))
  = rowsOf (gStep d (deleteGenericRows L a)).
Proof.
  intros Hn. rewrite (rowsOf_gStep d (deleteGenericRows L a)).
  destruct (gStep_fields d a) as (E1 & E2 & E3 & E4 & E5).
  destruct (seqs_gStep d a) as (S1 & S2 & S3 & S4).
  unfold rowsOf at 1.
  cbn [deleteGenericRows point_features line_features polygon_features
       line_mesh_map polygon_mesh_map seq_point seq_line seq_polygon log].
  rewrite E1, E2, E3, E4, E5, S1, S2, S3, S4.
  rewrite !filter_stepF, !filter_stepM
    by (exact Hn || apply fRows_tagged || apply mRows_tagged).
  reflexivity.
Qed.

(** *** The mesh identifiers of the rows of a layer *)

Lemma existsFeature_app (m : string) (l1 l2 : list (FeatureRow num props)) :
  existsFeature m (l1 ++ l2) = existsFeature m l1 || existsFeature m l2.
Proof. apply existsb_app. Qed.

Lemma existsMeshMap_app (m : string) (l1 l2 : list (MeshMapRow num props)) :
  existsMeshMap m (l1 ++ l2) = existsMeshMap m l1 || existsMeshMap m l2.
Proof. apply existsb_app. Qed.

Lemma fRows_point_ids d (m : string) :
  existsFeature m (fRows point d) = true -> m ∈ newMeshIds d.
Proof.
  unfold fRows, newMeshIds, featureRowsOf.
  destruct (decide (geometryType d = point)) as [E|_]; [|discriminate].
  rewrite E. intros Hex. apply existsb_exists in Hex as (r & Hr & Hm).
  apply String.eqb_eq in Hm. subst m. apply setFrom_elem.
  unfold unnumbered in Hr. rewrite map_map in Hr.
  apply in_map_iff in Hr as (x & <- & Hx). destruct x as [[m g] p].
  apply list_elem_of_In, in_map_iff. exists (m, g, p). split; [reflexivity|exact Hx].
Qed.

Lemma mRows_ids (k : GeometryKind) d (m : string) :
  existsMeshMap m (mRows k d) = true -> m ∈ newMeshIds d.
Proof.
  unfold mRows, newMeshIds, meshMapRowsOf.
  destruct (decide (geometryType d = k)) as [_|_]; [|discriminate].
  intros Hex.
  assert (Hitems : existsMeshMap m (meshRowsErased (layerName d) (itemsOf d))
                   = true -> m ∈ setFrom (pieceIds (itemsOf d))).
  { clear Hex. intros Hex. apply existsb_exists in Hex as (r & Hr & Hm).
    apply String.eqb_eq in Hm. subst m. apply setFrom_elem.
    unfold meshRowsErased in Hr. apply in_flat_map in Hr as (it & Hit & Hr).
    apply in_map_iff in Hr as (piece & <- & Hp).
    apply list_elem_of_In, in_flat_map. exists it. split; [exact Hit|].
    apply in_map_iff. exists piece. split; [reflexivity|exact Hp]. }
  destruct (geometryType d); [discriminate| |];
    (destruct (meshMapTable d); [exact (Hitems Hex)|discriminate]).
Qed.

Lemma newMeshIds_indexIds d (m : string) :
  m ∈ newMeshIds d -> m ∈ indexIds d.
Proof.
  unfold newMeshIds, indexIds.
  destruct (geometryType d); [auto| |];
    (destruct (meshMapTable d); [|auto]);
    rewrite !setFrom_elem, elem_of_app, !setFrom_elem; auto.
Qed.

Lemma dr_meshId_perLayerMeshRows (items : list (Item num props)) :
  map dr_meshId (perLayerMeshRows items) = pieceIds items.
Proof.
  unfold perLayerMeshRows, pieceIds.
  induction items as [|it items IH]; [reflexivity|].
  cbn [flat_map]. rewrite map_app, IH, map_map. reflexivity.
Qed.

(** *** A layer that the store does not know, and a layer that is in
    place *)

(** No row of the cross-layer tables has the source layer [L]. *)
Definition untagged (L : string) a : Prop :=
  rowsOf (deleteGenericRows L a) = rowsOf a.

Definition Unseen d a : Prop :=
  layer_registry a !! layerName d = None
  /\ (forall x : string, x ∈ tablesOf d -> tables a !! x = None)
  /\ untagged (layerName d) a.

(** The layer is registered, its tables hold its rows, its rows in the
    cross-layer tables are the last ones of their tables, and the index
    has a row for each of its mesh identifiers, which names the layer
    and whose flags agree with the cross-layer tables. *)
Definition Done d a : Prop :=
  layer_registry a !! layerName d = Some (registryRowOf d)
  /\ tables a !! tableName d = Some (layerRowsOf d)
  /\ (forall mt, meshMapTable d = Some mt ->
        tables a !! mt = Some (perLayerMeshRows (itemsOf d)))
  /\ rowsOf (gStep d a) = rowsOf a
  /\ (forall m : string, m ∈ indexIds d -> is_Some (mesh_index a !! m))
  /\ (forall (m : string) row,
        m ∈ newMeshIds d -> mesh_index a !! m = Some row ->
        layerName d ∈ layerPresence row /\ withFlags m a row = row).

Lemma oldMeshIds_Done d a :
  wfDef d -> Done d a -> oldMeshIdsOf d a = newMeshIds d.
Proof.
  intros (Hpoint & Hother & _) (F1 & F2 & F2' & _).
  unfold oldMeshIdsOf, getLayerMeshIds, newMeshIds. rewrite F1.
  cbn [registryRowOf lr_tableName lr_meshMapTable]. rewrite F2.
  destruct (geometryType d) eqn:Hk.
  - rewrite (Hpoint eq_refl). unfold distinctMeshIds, layerRowsOf.
    rewrite Hk, map_map. f_equal. apply map_ext. intros [[m g] p]. reflexivity.
  - destruct (Hother ltac:(discriminate)) as [mt Hmt]. rewrite Hmt.
    rewrite (F2' mt Hmt). unfold distinctMeshIds.
    rewrite dr_meshId_perLayerMeshRows. reflexivity.
  - destruct (Hother ltac:(discriminate)) as [mt Hmt]. rewrite Hmt.
    rewrite (F2' mt Hmt). unfold distinctMeshIds.
    rewrite dr_meshId_perLayerMeshRows. reflexivity.
Qed.

Lemma withFlags_presence (m : string) a (row : MeshIndexRow) :
  layerPresence (withFlags m a row) = layerPresence row.
Proof. reflexivity. Qed.

Lemma indexRow_ext (r r' : MeshIndexRow) :
  hasPoints r = hasPoints r' -> hasLines r = hasLines r' ->
  hasPolygons r = hasPolygons r' -> layerPresence r = layerPresence r' ->
  r = r'.
Proof. destruct r, r'. simpl. congruence. Qed.

(** A layer in place is a fixed point of its processing. *)
Lemma aProcessLayer_Done d a :
  wfDef d -> Done d a -> aProcessLayer d a = a.
Proof.
  intros Hwf HD. pose proof (oldMeshIds_Done d a Hwf HD) as Hold.
  destruct HD as (F1 & F2 & F2' & F3 & F4 & F5).
  apply store_ext_rows.
  - rewrite rowsOf_aProcessLayer. exact F3.
  - apply map_eq. intros x.
    rewrite (tables_step_lookup d a x Hwf (or_intror F1)).
    destruct (decide (x = tableName d)) as [->|_]; [symmetry; exact F2|].
    destruct (decide (meshMapTable d = Some x)) as [E|_]; [|reflexivity].
    symmetry. exact (F2' x E).
  - rewrite registry_aProcessLayer. apply insert_id. exact F1.
  - apply map_eq. intros m. rewrite index_aProcessLayer, Hold.
    rewrite upsert_present by exact F4.
    destruct (mesh_index a !! m) as [row|] eqn:Em; [|reflexivity].
    cbn [fmap option_fmap option_map]. f_equal.
    unfold indexRowStep. cbv zeta.
    destruct (decide (m ∈ newMeshIds d)) as [Hin|Hn].
    + destruct (F5 m row Hin Em) as [HL Hflags].
      destruct (decide (m ∈ newMeshIds d \/ m ∈ newMeshIds d)) as [_|Hn];
        [|exfalso; auto].
      rewrite <- Hflags at 2.
      rewrite (withFlags_rows m _ a _ F3).
      apply indexRow_ext; try reflexivity.
      cbn [layerPresence withFlags withLayer withoutLayer].
      apply set_eq. intros y. rewrite elem_of_union, elem_of_difference,
        elem_of_singleton.
      destruct (decide (y = layerName d)) as [->|Hy]; tauto.
    + destruct (decide (m ∈ newMeshIds d \/ m ∈ newMeshIds d)) as [[?|?]|_];
        [contradiction..|reflexivity].
Qed.

Lemma oldMeshIds_Unseen d a : Unseen d a -> oldMeshIdsOf d a = [].
Proof. intros (Hreg & _). unfold oldMeshIdsOf. rewrite Hreg. reflexivity. Qed.

Lemma tables_of_other d d' (x : string) :
  apart d d' -> x ∈ tablesOf d ->
  x <> tableName d' /\ meshMapTable d' <> Some x.
Proof.
  intros (_ & _ & Ht) Hx. specialize (Ht x Hx). unfold tablesOf in Ht. split.
  - intros ->. apply Ht. left.
  - intros E. apply Ht. rewrite E. right. left.
Qed.

Lemma tableName_in_tablesOf d : tableName d ∈ tablesOf d.
Proof. unfold tablesOf. left. Qed.

Lemma meshMapTable_in_tablesOf d (mt : string) :
  meshMapTable d = Some mt -> mt ∈ tablesOf d.
Proof. unfold tablesOf. intros ->. right. left. Qed.

Lemma tables_aProcessLayer_other d a (x : string) :
  wfDef d -> noDrop d a -> x <> tableName d -> meshMapTable d <> Some x ->
  tables (aProcessLayer d a) !! x = tables a !! x.
Proof.
  intros Hwf Hnd H1 H2. rewrite (tables_step_lookup d a x Hwf Hnd).
  destruct (decide (x = tableName d)); [contradiction|].
  destruct (decide (meshMapTable d = Some x)); [contradiction|reflexivity].
Qed.

Lemma untagged_fields L a :
  untagged L a ->
  List.filter (notOfLayer L) (point_features a) = point_features a
  /\ List.filter (notOfLayerM L) (line_mesh_map a) = line_mesh_map a
  /\ List.filter (notOfLayerM L) (polygon_mesh_map a) = polygon_mesh_map a.
Proof.
  unfold untagged, rowsOf. cbn. intros [= E1 E2 E3 E4 E5]. auto.
Qed.

(** The layer [d] adds no row with the mesh identifier [m]: the three
    tables that the flags are read from have a row for [m] after its
    rows are written when they had one before. *)
Lemma withFlags_gStep_other d a (m : string) (row : MeshIndexRow) :
  untagged (layerName d) a -> m ∉ newMeshIds d ->
  withFlags m (gStep d a) row = withFlags m a row.
Proof.
  intros Hun Hm. destruct (untagged_fields _ _ Hun) as (U1 & U2 & U3).
  destruct (gStep_fields d a) as (E1 & _ & _ & E4 & E5).
  unfold withFlags. rewrite E1, E4, E5. unfold stepF, stepM.
  rewrite U1, U2, U3, existsFeature_app, !existsMeshMap_app.
  destruct (existsFeature m (fRows point d)) eqn:X1;
    [exfalso; apply Hm, fRows_point_ids, X1|].
  destruct (existsMeshMap m (mRows line d)) eqn:X2;
    [exfalso; apply Hm, (mRows_ids line), X2|].
  destruct (existsMeshMap m (mRows polygon d)) eqn:X3;
    [exfalso; apply Hm, (mRows_ids polygon), X3|].
  rewrite !orb_false_r. reflexivity.
Qed.

Lemma rowsOf_aProcessLayer_gStep d a :
  rowsOf (aProcessLayer d a) = rowsOf (gStep d a).
Proof. apply rowsOf_aProcessLayer. Qed.

(** Processing a layer that the store does not know puts it in place. *)
Lemma aProcessLayer_establishes d a :
  wfDef d -> Unseen d a -> Done d (aProcessLayer d a).
Proof.
  intros Hwf HU. pose proof (oldMeshIds_Unseen d a HU) as Hold.
  destruct HU as (Hreg & Htab & Hun).
  pose proof Hwf as (_ & _ & Hmt).
  repeat split.
  - rewrite registry_aProcessLayer. apply lookup_insert_eq.
  - rewrite (tables_step_lookup d a _ Hwf (or_introl Hreg)).
    destruct (decide (tableName d = tableName d)); [reflexivity|contradiction].
  - intros mt E. rewrite (tables_step_lookup d a _ Hwf (or_introl Hreg)).
    destruct (decide (mt = tableName d)) as [->|_]; [contradiction|].
    destruct (decide (meshMapTable d = Some mt)); [reflexivity|contradiction].
  - rewrite (gStep_congr d _ _ (rowsOf_aProcessLayer_gStep d a)).
    rewrite gStep_idem. symmetry. apply rowsOf_aProcessLayer_gStep.
  - intros m Hm. rewrite index_aProcessLayer, upsert_lookup.
    destruct (mesh_index a !! m); [eexists; reflexivity|].
    destruct (decide (m ∈ indexIds d)); [eexists; reflexivity|contradiction].
  - rewrite index_aProcessLayer, Hold in H2.
    destruct (foldl insertIndexRow (mesh_index a) (indexIds d) !! m)
      as [row0|]; [|discriminate].
    cbn [fmap option_fmap option_map] in H2. injection H2 as <-.
    unfold indexRowStep. cbv zeta.
    destruct (decide (m ∈ [])) as [Hin|_]; [inversion Hin|].
    destruct (decide (m ∈ newMeshIds d)); [|contradiction].
    destruct (decide (m ∈ [] \/ m ∈ newMeshIds d)) as [_|Hn];
      [|exfalso; auto].
    cbn [layerPresence withFlags withLayer].
    apply elem_of_union. left. apply elem_of_singleton. reflexivity.
  - rewrite index_aProcessLayer, Hold in H2.
    destruct (foldl insertIndexRow (mesh_index a) (indexIds d) !! m)
      as [row0|]; [|discriminate].
    cbn [fmap option_fmap option_map] in H2. injection H2 as <-.
    unfold indexRowStep. cbv zeta.
    destruct (decide (m ∈ [])) as [Hin|_]; [inversion Hin|].
    destruct (decide (m ∈ newMeshIds d)); [|contradiction].
    destruct (decide (m ∈ [] \/ m ∈ newMeshIds d)) as [_|Hn];
      [|exfalso; auto].
    rewrite (withFlags_rows m _ _ _ (rowsOf_aProcessLayer_gStep d a)).
    reflexivity.
Qed.

(** Processing another layer, which the store does not know, keeps a
    layer in place. *)
Lemma aProcessLayer_keeps_Done d d' a :
  apart d d' -> wfDef d' -> Unseen d' a -> Done d a ->
  Done d (aProcessLayer d' a).
Proof.
  intros Hap Hwf' HU' (F1 & F2 & F2' & F3 & F4 & F5).
  pose proof (oldMeshIds_Unseen d' a HU') as Hold.
  pose proof Hap as (Hname & Hkind & _).
  destruct HU' as (Hreg' & Htab' & Hun').
  assert (Hnd : noDrop d' a) by (left; exact Hreg').
  assert (Hidx : forall m row0,
             mesh_index a !! m = Some row0 ->
             mesh_index (aProcessLayer d' a) !! m
             = Some (if decide (m ∈ newMeshIds d')
                     then withFlags m (gStep d' a) (withLayer (layerName d') row0)
                     else row0)).
  { intros m row0 Em. rewrite index_aProcessLayer, Hold, upsert_lookup, Em.
    cbn [fmap option_fmap option_map]. f_equal.
    unfold indexRowStep. cbv zeta.
    destruct (decide (m ∈ [])) as [Hin|_]; [inversion Hin|].
    destruct (decide (m ∈ newMeshIds d')) as [Hin|Hn].
    - destruct (decide (m ∈ [] \/ m ∈ newMeshIds d')) as [_|Hn];
        [reflexivity|exfalso; auto].
    - destruct (decide (m ∈ [] \/ m ∈ newMeshIds d')) as [[Hin|Hin]|_];
        [inversion Hin|contradiction|reflexivity]. }
  split; [|split; [|split; [|split; [|split]]]].
  - rewrite registry_aProcessLayer, lookup_insert_ne by congruence. exact F1.
  - destruct (tables_of_other d d' _ Hap (tableName_in_tablesOf d)) as [T1 T2].
    rewrite tables_aProcessLayer_other by assumption. exact F2.
  - intros mt E.
    destruct (tables_of_other d d' _ Hap (meshMapTable_in_tablesOf d mt E))
      as [T1 T2].
    rewrite tables_aProcessLayer_other by assumption. exact (F2' mt E).
  - rewrite (gStep_congr d _ _ (rowsOf_aProcessLayer_gStep d' a)).
    rewrite gStep_comm by assumption.
    rewrite (gStep_congr d' _ _ F3). symmetry.
    apply rowsOf_aProcessLayer_gStep.
  - intros m Hm. destruct (F4 m Hm) as [row0 Em].
    rewrite (Hidx m row0 Em). eexists. reflexivity.
  - intros m row Hm Em'.
    destruct (F4 m (newMeshIds_indexIds d m Hm)) as [row0 Em].
    destruct (F5 m row0 Hm Em) as [HL Hflags].
    rewrite (Hidx m row0 Em) in Em'. injection Em' as <-.
    destruct (decide (m ∈ newMeshIds d')) as [Hin|Hn].
    + split.
      * cbn [layerPresence withFlags withLayer].
        apply elem_of_union. right. exact HL.
      * rewrite (withFlags_rows m _ _ _ (rowsOf_aProcessLayer_gStep d' a)).
        reflexivity.
    + split; [exact HL|].
      rewrite (withFlags_rows m _ _ _ (rowsOf_aProcessLayer_gStep d' a)).
      rewrite withFlags_gStep_other by assumption. exact Hflags.
Qed.

(** Processing a layer keeps another layer unknown. *)
Lemma aProcessLayer_keeps_Unseen d d' a :
  apart d d' -> wfDef d' -> Unseen d' a -> Unseen d a ->
  Unseen d (aProcessLayer d' a).
Proof.
  intros Hap Hwf' (Hreg' & _ & _) (Hreg & Htab & Hun).
  pose proof Hap as (Hname & _ & _).
  assert (Hnd : noDrop d' a) by (left; exact Hreg').
  split; [|split].
  - rewrite registry_aProcessLayer, lookup_insert_ne by congruence. exact Hreg.
  - intros x Hx. destruct (tables_of_other d d' x Hap Hx) as [T1 T2].
    rewrite tables_aProcessLayer_other by assumption. exact (Htab x Hx).
  - unfold untagged.
    rewrite (rowsOf_deleteGenericRows _ _ _ (rowsOf_aProcessLayer_gStep d' a)).
    rewrite delete_gStep by congruence.
    rewrite (gStep_congr d' _ _ Hun). symmetry.
    apply rowsOf_aProcessLayer_gStep.
Qed.

(** Layers that are pairwise apart. *)
Fixpoint allApart (ds : list (LayerDefinition num props)) : Prop :=
  match ds with
  | [] => True
  | d :: rest => Forall (apart d) rest /\ allApart rest
  end.

(** The first run: from a store that knows none of the layers, all of
    them are in place at the end. *)
Lemma first_run (todo done : list (LayerDefinition num props)) a :
  Forall wfDef todo -> allApart todo ->
  (forall d d', d ∈ done -> d' ∈ todo -> apart d d') ->
  (forall d, d ∈ done -> Done d a) ->
  (forall d, d ∈ todo -> Unseen d a) ->
  forall d, d ∈ done ++ todo ->
            Done d (foldl (fun a d => aProcessLayer d a) a todo).
Proof.
  revert done a. induction todo as [|d0 rest IH];
    intros done a Hwf Hap Hcross Hdone Htodo d Hd.
  - rewrite app_nil_r in Hd. exact (Hdone d Hd).
  - cbn [foldl]. apply Forall_cons_1 in Hwf as [Hwf0 Hwf].
    destruct Hap as [Hap0 Hap].
    assert (HU0 : Unseen d0 a) by (apply Htodo; left).
    apply (IH (done ++ [d0])).
    + exact Hwf.
    + exact Hap.
    + intros x y Hx Hy. apply elem_of_app in Hx as [Hx|Hx].
      * apply Hcross; [exact Hx|right; exact Hy].
      * apply list_elem_of_singleton in Hx as ->.
        rewrite Forall_forall in Hap0. apply Hap0, Hy.
    + intros x Hx. apply elem_of_app in Hx as [Hx|Hx].
      * apply aProcessLayer_keeps_Done; auto. apply Hcross; [exact Hx|left].
      * apply list_elem_of_singleton in Hx as ->.
        apply aProcessLayer_establishes; assumption.
    + intros x Hx. apply aProcessLayer_keeps_Unseen; auto.
      * apply apart_sym. rewrite Forall_forall in Hap0. apply Hap0, Hx.
      * apply Htodo. right. exact Hx.
    + rewrite <- app_assoc. exact Hd.
Qed.

(** The second run changes nothing. *)
Lemma second_run (ds : list (LayerDefinition num props)) a :
  Forall wfDef ds -> (forall d, d ∈ ds -> Done d a) ->
  foldl (fun a d => aProcessLayer d a) a ds = a.
Proof.
  induction ds as [|d0 rest IH]; intros Hwf Hdone; [reflexivity|].
  cbn [foldl]. apply Forall_cons_1 in Hwf as [Hwf0 Hwf].
  rewrite aProcessLayer_Done; [|exact Hwf0|apply Hdone; left].
  apply IH; [exact Hwf|]. intros d Hd. apply Hdone. right. exact Hd.
Qed.

(** *** The layers of a file *)

Lemma string_app_assoc (a b c : string) :
  ((a ++ b) ++ c = a ++ (b ++ c))%string.
Proof.
  induction a as [|x a IH]; [reflexivity|].
  change (String x ((a ++ b) ++ c)%string = String x (a ++ (b ++ c))%string).
  rewrite IH. reflexivity.
Qed.

Lemma string_app_nil_r (a : string) : (a ++ EmptyString = a)%string.
Proof.
  induction a as [|x a IH]; [reflexivity|].
  change (String x (a ++ EmptyString)%string = String x a).
  rewrite IH. reflexivity.
Qed.

(** Two texts after the same prefix differ when they differ. *)
Lemma string_app_neq (a x y : string) : x <> y -> (a ++ x)%string <> (a ++ y)%string.
Proof. intros Hne E. apply Hne. exact (String.app_inj a _ _ E). Qed.

(** The layer definition that [ingestFile] builds for a geometry kind. *)
Definition layerDefOf (baseName : string) (useSuffix : bool)
    (fileName : string) (collection : list (Feature num props))
    (k : GeometryKind) : LayerDefinition num props :=
  let layerName := layerNameOf baseName useSuffix k in
  mkLayerDef layerName layerName k fileName
    match k with
    | point => None
    | _ => Some (layerName ++ "_mesh_map")%string
    end
    (List.filter (isKind k) collection).

Lemma layerDefOf_wf baseName useSuffix fileName collection k :
  wfDef (layerDefOf baseName useSuffix fileName collection k).
Proof.
  unfold wfDef, layerDefOf. cbn [geometryType meshMapTable tableName].
  split; [|split].
  - intros ->. reflexivity.
  - destruct k; [contradiction|eexists; reflexivity..].
  - destruct k; [discriminate| |]; intros [= E];
      rewrite <- (string_app_nil_r (layerNameOf _ _ _)) in E at 2;
      apply String.app_inj in E; discriminate.
Qed.

Lemma layerDefOf_apart baseName fileName collection k k' :
  k <> k' ->
  apart (layerDefOf baseName true fileName collection k)
        (layerDefOf baseName true fileName collection k').
Proof.
  intros Hk. unfold apart, layerDefOf, tablesOf, layerNameOf.
  cbn [layerName geometryType tableName meshMapTable].
  split; [|split; [exact Hk|]].
  - destruct k, k'; try contradiction; apply string_app_neq; discriminate.
  - intros x Hx Hx'.
    destruct k, k'; try contradiction;
      repeat match goal with
        | H : _ ∈ _ :: _ |- _ => apply elem_of_cons in H as [H|H]
        | H : _ ∈ [] |- _ => inversion H
        end; subst x;
      rewrite ?string_app_assoc in Hx';
      apply String.app_inj in Hx'; discriminate.
Qed.

Lemma layerDefs_unfold (fileName : string)
    (collection : list (Feature num props)) :
  layerDefs fileBase fileName collection
  = let geometryTypes :=
      List.filter (fun k => nonEmpty (List.filter (isKind k) collection))
        [point; line; polygon] in
    map (layerDefOf (normalizeLayerName (fileBase fileName))
           (1 <? length geometryTypes)%nat fileName collection)
      geometryTypes.
Proof. reflexivity. Qed.

Lemma layerDefs_wf (fileName : string) (collection : list (Feature num props)) :
  Forall wfDef (layerDefs fileBase fileName collection).
Proof.
  rewrite layerDefs_unfold. cbv zeta. apply Forall_map, Forall_forall.
  intros k _. apply layerDefOf_wf.
Qed.

Lemma layerDefs_apart (fileName : string)
    (collection : list (Feature num props)) :
  allApart (layerDefs fileBase fileName collection).
Proof.
  rewrite layerDefs_unfold. cbv zeta. cbn [List.filter].
  destruct (nonEmpty (List.filter (isKind point) collection)),
    (nonEmpty (List.filter (isKind line) collection)),
    (nonEmpty (List.filter (isKind polygon) collection));
    cbn [map length Nat.ltb Nat.leb allApart];
    repeat split; repeat constructor;
    apply layerDefOf_apart; discriminate.
Qed.

(** *** A file that the store does not know *)

(** No row of the cross-layer tables has the source layer [L]. *)
Definition noRowsOf (L : string) s : Prop :=
  Forall (fun r => fr_sourceLayer r <> L) (point_features s)
  /\ Forall (fun r => fr_sourceLayer r <> L) (line_features s)
  /\ Forall (fun r => fr_sourceLayer r <> L) (polygon_features s)
  /\ Forall (fun r => mm_sourceLayer r <> L) (line_mesh_map s)
  /\ Forall (fun r => mm_sourceLayer r <> L) (polygon_mesh_map s).

(** The store has no layer of the file: no registered layer comes from
    the file or has the name of one of its layers, no table has the name
    of one of their tables, and no row of the cross-layer tables has one
    of them as its source layer. *)
Definition Fresh (fileName : string) (collection : list (Feature num props))
    s : Prop :=
  let defs := layerDefs fileBase fileName collection in
  (forall (name : string) row,
      layer_registry s !! name = Some row ->
      lr_sourceFile row <> fileName /\ name ∉ map layerName defs)
  /\ (forall d (x : string), d ∈ defs -> x ∈ tablesOf d -> tables s !! x = None)
  /\ (forall d, d ∈ defs -> noRowsOf (layerName d) s).

Lemma filter_eraseF_all L (rows : list (FeatureRow num props)) :
  Forall (fun r => fr_sourceLayer r <> L) rows ->
  List.filter (notOfLayer L) (map eraseF rows) = map eraseF rows.
Proof.
  induction 1 as [|r rows Hr _ IH]; [reflexivity|].
  cbn [map List.filter]. unfold notOfLayer at 1. cbn [eraseF fr_sourceLayer].
  destruct (String.eqb_spec (fr_sourceLayer r) L) as [|_]; [contradiction|].
  cbn [negb]. rewrite IH. reflexivity.
Qed.

Lemma filter_eraseM_all L (rows : list (MeshMapRow num props)) :
  Forall (fun r => mm_sourceLayer r <> L) rows ->
  List.filter (notOfLayerM L) (map eraseM rows) = map eraseM rows.
Proof.
  induction 1 as [|r rows Hr _ IH]; [reflexivity|].
  cbn [map List.filter]. unfold notOfLayerM at 1. cbn [eraseM mm_sourceLayer].
  destruct (String.eqb_spec (mm_sourceLayer r) L) as [|_]; [contradiction|].
  cbn [negb]. rewrite IH. reflexivity.
Qed.

Lemma noRowsOf_untagged L s : noRowsOf L s -> untagged L (erase s).
Proof.
  intros (N1 & N2 & N3 & N4 & N5). unfold untagged, rowsOf.
  cbn [deleteGenericRows erase point_features line_features polygon_features
       line_mesh_map polygon_mesh_map seq_point seq_line seq_polygon log].
  rewrite !filter_eraseF_all, !filter_eraseM_all by assumption. reflexivity.
Qed.

Lemma Fresh_Unseen (fileName : string) collection s d :
  Fresh fileName collection s ->
  d ∈ layerDefs fileBase fileName collection -> Unseen d (erase s).
Proof.
  intros (Hreg & Htab & Hrows) Hd. split; [|split].
  - change (layer_registry (erase s)) with (layer_registry s).
    destruct (layer_registry s !! layerName d) as [row|] eqn:E; [|reflexivity].
    exfalso. destruct (Hreg _ _ E) as [_ Hn]. apply Hn.
    apply list_elem_of_fmap. exists d. split; [reflexivity|exact Hd].
  - intros x Hx. exact (Htab d x Hd Hx).
  - apply noRowsOf_untagged, Hrows, Hd.
Qed.

Lemma staleLayers_nil (fileName : string)
    (defs : list (LayerDefinition num props)) a :
  (forall (name : string) row,
      layer_registry a !! name = Some row -> lr_sourceFile row = fileName ->
      name ∈ map layerName defs) ->
  staleLayers fileName defs a = [].
Proof.
  intros Hall. unfold staleLayers.
  assert (Hl : forall x, x ∈ map_to_list (layer_registry a) ->
                         layer_registry a !! x.1 = Some x.2).
  { intros x Hx. apply elem_of_map_to_list'. exact Hx. }
  induction (map_to_list (layer_registry a)) as [|[name row] l IH];
    [reflexivity|].
  cbn [List.filter].
  destruct (bool_decide (lr_sourceFile row = fileName)) eqn:E1.
  - apply bool_decide_eq_true in E1.
    assert (Hin : name ∈ map layerName defs).
    { apply (Hall name row); [|exact E1]. apply (Hl (name, row)). left. }
    rewrite (bool_decide_eq_false_2 (name ∉ map layerName defs)) by auto.
    cbn [andb]. apply IH. intros x Hx. apply Hl. right. exact Hx.
  - cbn [andb]. apply IH. intros x Hx. apply Hl. right. exact Hx.
Qed.

Lemma registry_foldl (ds : list (LayerDefinition num props)) a
    (name : string) row :
  layer_registry (foldl (fun a d => aProcessLayer d a) a ds) !! name
  = Some row ->
  layer_registry a !! name = Some row \/ name ∈ map layerName ds.
Proof.
  revert a. induction ds as [|d0 rest IH]; intros a E; cbn [foldl] in E.
  - left. exact E.
  - apply IH in E as [E|E].
    + rewrite registry_aProcessLayer in E.
      destruct (decide (layerName d0 = name)) as [<-|Hne].
      * right. left.
      * rewrite lookup_insert_ne in E by exact Hne. left. exact E.
    + right. right. exact E.
Qed.

(** The first ingestion of a file puts its layers in place, and a
    second one changes nothing (without identifiers). *)
Lemma aIngestFile_twice (fileName : string) collection a :
  (forall (name : string) row,
      layer_registry a !! name = Some row -> lr_sourceFile row <> fileName) ->
  (forall d, d ∈ layerDefs fileBase fileName collection -> Unseen d a) ->
  (forall d, d ∈ layerDefs fileBase fileName collection ->
             Done d (aIngestFile fileName collection a))
  /\ aIngestFile fileName collection (aIngestFile fileName collection a)
     = aIngestFile fileName collection a.
Proof.
  intros Hreg HU. unfold aIngestFile. cbv zeta.
  pose proof (layerDefs_wf fileName collection) as Hwf.
  pose proof (layerDefs_apart fileName collection) as Hap.
  destruct (layerDefs fileBase fileName collection) as [|d0 ds] eqn:Edefs.
  - split; [|reflexivity]. intros d Hd. inversion Hd.
  - rewrite (staleLayers_nil fileName (d0 :: ds) a).
    2:{ intros name row E Ef. destruct (Hreg name row E Ef). }
    cbn [foldl].
    change (foldl (fun a d => aProcessLayer d a) (aProcessLayer d0 a) ds)
      with (foldl (fun a d => aProcessLayer d a) a (d0 :: ds)).
    set (a1 := foldl (fun a d => aProcessLayer d a) a (d0 :: ds)).
    assert (Hdone : forall d, d ∈ d0 :: ds -> Done d a1).
    { intros d Hd. apply (first_run (d0 :: ds) [] a); auto.
      - intros x y Hx. inversion Hx.
      - intros x Hx. inversion Hx. }
    split; [exact Hdone|].
    rewrite (staleLayers_nil fileName (d0 :: ds) a1).
    2:{ intros name row E Ef. apply registry_foldl in E as [E|E]; [|exact E].
        destruct (Hreg name row E Ef). }
    cbn [foldl].
    change (foldl (fun a d => aProcessLayer d a) (aProcessLayer d0 a1) ds)
      with (foldl (fun a d => aProcessLayer d a) a1 (d0 :: ds)).
    apply second_run; assumption.
Qed.

(** *** The rows of a layer that is in place *)

Definition ofLayer (L : string) (r : FeatureRow num props) : bool :=
  String.eqb (fr_sourceLayer r) L.
Definition ofLayerM (L : string) (r : MeshMapRow num props) : bool :=
  String.eqb (mm_sourceLayer r) L.

Lemma filter_ofLayer_stepF L new old :
  taggedF L new -> List.filter (ofLayer L) (stepF L new old) = new.
Proof.
  intros Hn. unfold stepF. rewrite List.filter_app.
  assert (E1 : List.filter (ofLayer L) (List.filter (notOfLayer L) old) = []).
  { induction old as [|r old IH]; [reflexivity|]. cbn [List.filter].
    unfold notOfLayer at 1.
    destruct (String.eqb (fr_sourceLayer r) L) eqn:E; cbn [negb]; [exact IH|].
    cbn [List.filter]. unfold ofLayer at 1. rewrite E. exact IH. }
  assert (E2 : List.filter (ofLayer L) new = new).
  { induction Hn as [|r new Hr _ IH]; [reflexivity|]. cbn [List.filter].
    unfold ofLayer at 1. rewrite Hr, String.eqb_refl, IH. reflexivity. }
  rewrite E1, E2. reflexivity.
Qed.

Lemma filter_ofLayerM_stepM L new old :
  taggedM L new -> List.filter (ofLayerM L) (stepM L new old) = new.
Proof.
  intros Hn. unfold stepM. rewrite List.filter_app.
  assert (E1 : List.filter (ofLayerM L) (List.filter (notOfLayerM L) old) = []).
  { induction old as [|r old IH]; [reflexivity|]. cbn [List.filter].
    unfold notOfLayerM at 1.
    destruct (String.eqb (mm_sourceLayer r) L) eqn:E; cbn [negb]; [exact IH|].
    cbn [List.filter]. unfold ofLayerM at 1. rewrite E. exact IH. }
  assert (E2 : List.filter (ofLayerM L) new = new).
  { induction Hn as [|r new Hr _ IH]; [reflexivity|]. cbn [List.filter].
    unfold ofLayerM at 1. rewrite Hr, String.eqb_refl, IH. reflexivity. }
  rewrite E1, E2. reflexivity.
Qed.

(** The rows of a layer in place, in the five cross-layer tables, are
    the rows that its definition gives. *)
Lemma Done_rows d a :
  Done d a ->
  List.filter (ofLayer (layerName d)) (point_features a) = fRows point d
  /\ List.filter (ofLayer (layerName d)) (line_features a) = fRows line d
  /\ List.filter (ofLayer (layerName d)) (polygon_features a)
     = fRows polygon d
  /\ List.filter (ofLayerM (layerName d)) (line_mesh_map a) = mRows line d
  /\ List.filter (ofLayerM (layerName d)) (polygon_mesh_map a)
     = mRows polygon d.
Proof.
  intros (_ & _ & _ & F3 & _). rewrite rowsOf_gStep in F3.
  unfold rowsOf in F3. injection F3 as E1 E2 E3 E4 E5.
  rewrite <- E1 at 1. rewrite <- E2 at 1. rewrite <- E3 at 1.
  rewrite <- E4 at 1. rewrite <- E5 at 1.
  rewrite !filter_ofLayer_stepF, !filter_ofLayerM_stepM
    by (apply fRows_tagged || apply mRows_tagged).
  repeat split.
Qed.


(** *** The tables of a layer, whatever the store held before *)

Definition emptyOrMissing (t : gmap string (list (DynRow num props)))
    (x : string) : Prop :=
  t !! x = None \/ t !! x = Some [].

Lemma emptyTable_emptyOrMissing (t x : string) a :
  t = x \/ emptyOrMissing (tables a) x ->
  emptyOrMissing (tables (emptyTable t a)) x.
Proof.
  unfold emptyOrMissing. rewrite tables_emptyTable.
  destruct (decide (x = t)) as [->|Hne].
  - intros _. destruct (tables a !! t); [right|left]; reflexivity.
  - intros [->|Hx]; [contradiction|exact Hx].
Qed.

Lemma dropTable_emptyOrMissing (t x : string) a :
  emptyOrMissing (tables a) x -> emptyOrMissing (tables (dropTable t a)) x.
Proof.
  unfold emptyOrMissing, dropTable. cbn [tables setTables].
  destruct (decide (t = x)) as [->|Hne].
  - intros _. left. apply lookup_delete_eq.
  - rewrite lookup_delete_ne by exact Hne. auto.
Qed.

Lemma createTable_empty (t x : string) a :
  (t = x /\ emptyOrMissing (tables a) x) \/ tables a !! x = Some [] ->
  tables (createTable t a) !! x = Some [].
Proof.
  rewrite tables_createTable. intros [[-> [E|E]]|E]; rewrite E.
  - destruct (decide (x = x)); [reflexivity|contradiction].
  - reflexivity.
  - reflexivity.
Qed.

Lemma deleteLayerTables_emptyOrMissing d a (x : string) :
  x ∈ tablesOf d -> emptyOrMissing (tables (deleteLayerTables d a)) x.
Proof.
  unfold tablesOf, deleteLayerTables. intros Hx.
  destruct (meshMapTable d) as [mt|].
  - apply elem_of_cons in Hx as [->|Hx].
    + apply emptyTable_emptyOrMissing.
      destruct (decide (mt = tableName d)) as [->|Hne]; [left; reflexivity|].
      right. apply emptyTable_emptyOrMissing. left. reflexivity.
    + apply list_elem_of_singleton in Hx as ->.
      apply emptyTable_emptyOrMissing. left. reflexivity.
  - apply list_elem_of_singleton in Hx as ->.
    apply emptyTable_emptyOrMissing. left. reflexivity.
Qed.

(** Before the rows of the layer are written its tables exist and are
    empty. *)
Lemma prepared_tables d a (x : string) :
  wfDef d -> x ∈ tablesOf d -> tables (prepared d a) !! x = Some [].
Proof.
  intros (Hpoint & Hother & _) Hx. unfold prepared.
  set (a0 := match layer_registry a !! layerName d with
             | Some prev => _
             | None => _
             end).
  assert (H0' : emptyOrMissing (tables a0) x).
  { subst a0. destruct (layer_registry a !! layerName d) as [prev|];
      [destruct (lr_meshMapTable prev); [destruct (decide _)|]|];
      try apply dropTable_emptyOrMissing;
      apply deleteLayerTables_emptyOrMissing, Hx. }
  clearbody a0. unfold ensureLayerTables, tablesOf in *.
  destruct (geometryType d) eqn:Hk.
  - rewrite (Hpoint eq_refl) in *.
    apply list_elem_of_singleton in Hx as ->.
    apply createTable_empty. left. split; [reflexivity|exact H0'].
  - destruct (Hother ltac:(discriminate)) as [mt Hmt]. rewrite Hmt in *.
    apply elem_of_cons in Hx as [->|Hx].
    + apply createTable_empty. right. apply createTable_empty. left.
      split; [reflexivity|exact H0'].
    + apply list_elem_of_singleton in Hx as ->.
      destruct (decide (tableName d = mt)) as [->|Hne].
      * apply createTable_empty. right. apply createTable_empty. left.
        split; [reflexivity|exact H0'].
      * apply createTable_empty. left. split; [reflexivity|].
        unfold emptyOrMissing. rewrite tables_createTable.
        destruct H0' as [E|E]; rewrite E; [left|right; reflexivity].
        destruct (decide (mt = tableName d)); [congruence|reflexivity].
  - destruct (Hother ltac:(discriminate)) as [mt Hmt]. rewrite Hmt in *.
    apply elem_of_cons in Hx as [->|Hx].
    + apply createTable_empty. right. apply createTable_empty. left.
      split; [reflexivity|exact H0'].
    + apply list_elem_of_singleton in Hx as ->.
      destruct (decide (tableName d = mt)) as [->|Hne].
      * apply createTable_empty. right. apply createTable_empty. left.
        split; [reflexivity|exact H0'].
      * apply createTable_empty. left. split; [reflexivity|].
        unfold emptyOrMissing. rewrite tables_createTable.
        destruct H0' as [E|E]; rewrite E; [left|right; reflexivity].
        destruct (decide (mt = tableName d)); [congruence|reflexivity].
Qed.

Lemma tables_aProcessLayer_own d a :
  wfDef d ->
  tables (aProcessLayer d a) !! tableName d = Some (layerRowsOf d)
  /\ forall mt, meshMapTable d = Some mt ->
       tables (aProcessLayer d a) !! mt
       = Some (perLayerMeshRows (itemsOf d)).
Proof.
  intros Hwf. pose proof Hwf as (Hpoint & Hother & Hneq).
  rewrite tables_aProcessLayer. unfold tablesAfter.
  pose proof (prepared_tables d a (tableName d) Hwf (tableName_in_tablesOf d))
    as Et.
  destruct (geometryType d) eqn:Hk.
  - rewrite (Hpoint eq_refl). split; [|discriminate].
    rewrite lookup_alter_eq, Et. reflexivity.
  - destruct (Hother ltac:(discriminate)) as [mt Hmt]. rewrite Hmt.
    assert (Hne : mt <> tableName d) by congruence.
    pose proof (prepared_tables d a mt Hwf (meshMapTable_in_tablesOf d mt Hmt))
      as Em.
    split.
    + rewrite lookup_alter_ne by exact Hne. rewrite lookup_alter_eq, Et.
      reflexivity.
    + intros mt' [= <-]. rewrite lookup_alter_eq.
      rewrite lookup_alter_ne by congruence. rewrite Em. reflexivity.
  - destruct (Hother ltac:(discriminate)) as [mt Hmt]. rewrite Hmt.
    assert (Hne : mt <> tableName d) by congruence.
    pose proof (prepared_tables d a mt Hwf (meshMapTable_in_tablesOf d mt Hmt))
      as Em.
    split.
    + rewrite lookup_alter_ne by exact Hne. rewrite lookup_alter_eq, Et.
      reflexivity.
    + intros mt' [= <-]. rewrite lookup_alter_eq.
      rewrite lookup_alter_ne by congruence. rewrite Em. reflexivity.
Qed.

(** The rows of the layer in the cross-layer tables after it is
    processed, and the rows of the other layers. *)
Lemma rows_aProcessLayer d a :
  point_features (aProcessLayer d a)
  = stepF (layerName d) (fRows point d) (point_features a)
  /\ line_features (aProcessLayer d a)
     = stepF (layerName d) (fRows line d) (line_features a)
  /\ polygon_features (aProcessLayer d a)
     = stepF (layerName d) (fRows polygon d) (polygon_features a)
  /\ line_mesh_map (aProcessLayer d a)
     = stepM (layerName d) (mRows line d) (line_mesh_map a)
  /\ polygon_mesh_map (aProcessLayer d a)
     = stepM (layerName d) (mRows polygon d) (polygon_mesh_map a).
Proof.
  pose proof (rowsOf_aProcessLayer_gStep d a) as E.
  rewrite rowsOf_gStep in E. unfold rowsOf in E.
  injection E as E1 E2 E3 E4 E5. auto.
Qed.

Lemma filter_notOfLayer_stepF L new old :
  taggedF L new ->
  List.filter (notOfLayer L) (stepF L new old) = List.filter (notOfLayer L) old.
Proof.
  intros Hn. unfold stepF.
  rewrite List.filter_app, filter_idem, (filter_taggedF_same L new Hn).
  apply app_nil_r.
Qed.

Lemma filter_notOfLayerM_stepM L new old :
  taggedM L new ->
  List.filter (notOfLayerM L) (stepM L new old)
  = List.filter (notOfLayerM L) old.
Proof.
  intros Hn. unfold stepM.
  rewrite List.filter_app, filter_idem, (filter_taggedM_same L new Hn).
  apply app_nil_r.
Qed.

(** *** Every mesh identifier of a row has a row in the index *)

Definition indexedF (idx : gmap string MeshIndexRow)
    (rows : list (FeatureRow num props)) : Prop :=
  Forall (fun r => is_Some (idx !! fr_meshId r)) rows.
Definition indexedM (idx : gmap string MeshIndexRow)
    (rows : list (MeshMapRow num props)) : Prop :=
  Forall (fun r => is_Some (idx !! mm_meshId r)) rows.

(** The references from the cross-layer tables to [mesh_index] hold. *)
Definition indexed s : Prop :=
  indexedF (mesh_index s) (point_features s)
  /\ indexedF (mesh_index s) (line_features s)
  /\ indexedF (mesh_index s) (polygon_features s)
  /\ indexedM (mesh_index s) (line_mesh_map s)
  /\ indexedM (mesh_index s) (polygon_mesh_map s).

Lemma indexed_erase s : indexed (erase s) <-> indexed s.
Proof.
  unfold indexed, indexedF, indexedM.
  cbn [erase mesh_index point_features line_features polygon_features
       line_mesh_map polygon_mesh_map].
  rewrite !Forall_map. reflexivity.
Qed.

Lemma Forall_filter_keep {A : Type} (P : A -> Prop) (f : A -> bool)
    (l : list A) :
  Forall P l -> Forall P (List.filter f l).
Proof.
  induction 1 as [|x l Hx _ IH]; [constructor|]. cbn [List.filter].
  destruct (f x); [constructor; assumption|exact IH].
Qed.

Lemma featureRowsOf_ids d r :
  r ∈ featureRowsOf d -> fr_meshId r ∈ indexIds d.
Proof.
  unfold featureRowsOf, indexIds, unnumbered. intros Hr.
  destruct (geometryType d).
  - rewrite map_map in Hr. apply list_elem_of_fmap in Hr as (x & -> & Hx).
    destruct x as [[m g] p]. apply setFrom_elem, list_elem_of_fmap.
    exists (m, g, p). split; [reflexivity|exact Hx].
  - destruct (meshMapTable d); [|inversion Hr].
    rewrite map_map in Hr. apply list_elem_of_fmap in Hr as (it & -> & Hit).
    apply setFrom_elem, elem_of_app. left.
    apply setFrom_elem, list_elem_of_fmap. exists it. split; [reflexivity|exact Hit].
  - destruct (meshMapTable d); [|inversion Hr].
    rewrite map_map in Hr. apply list_elem_of_fmap in Hr as (it & -> & Hit).
    apply setFrom_elem, elem_of_app. left.
    apply setFrom_elem, list_elem_of_fmap. exists it. split; [reflexivity|exact Hit].
Qed.

Lemma meshMapRowsOf_ids d r :
  r ∈ meshMapRowsOf d -> mm_meshId r ∈ indexIds d.
Proof.
  intros Hr. apply newMeshIds_indexIds.
  destruct (geometryType d) eqn:Hk.
  - unfold meshMapRowsOf in Hr. rewrite Hk in Hr. inversion Hr.
  - apply (mRows_ids line). unfold mRows. rewrite Hk.
    destruct (decide (line = line)); [|contradiction].
    apply existsb_exists. exists r. split; [apply list_elem_of_In, Hr|].
    apply String.eqb_refl.
  - apply (mRows_ids polygon). unfold mRows. rewrite Hk.
    destruct (decide (polygon = polygon)); [|contradiction].
    apply existsb_exists. exists r. split; [apply list_elem_of_In, Hr|].
    apply String.eqb_refl.
Qed.

Lemma index_dom_aProcessLayer d a (m : string) :
  is_Some (mesh_index a !! m) \/ m ∈ indexIds d ->
  is_Some (mesh_index (aProcessLayer d a) !! m).
Proof.
  rewrite index_aProcessLayer, upsert_lookup. intros [[row E]|Hm].
  - rewrite E. eexists. reflexivity.
  - destruct (mesh_index a !! m); [eexists; reflexivity|].
    destruct (decide (m ∈ indexIds d)); [eexists; reflexivity|contradiction].
Qed.

Lemma indexedF_stepF d a k old :
  indexedF (mesh_index a) old ->
  indexedF (mesh_index (aProcessLayer d a))
    (stepF (layerName d) (fRows k d) old).
Proof.
  intros Hold. unfold indexedF, stepF. apply Forall_app. split.
  - apply Forall_filter_keep. eapply Forall_impl; [exact Hold|].
    intros r Hr. apply index_dom_aProcessLayer. left. exact Hr.
  - apply Forall_forall. intros r Hr. apply index_dom_aProcessLayer. right.
    apply featureRowsOf_ids. unfold fRows in Hr.
    destruct (decide _); [exact Hr|inversion Hr].
Qed.

Lemma indexedM_stepM d a k old :
  indexedM (mesh_index a) old ->
  indexedM (mesh_index (aProcessLayer d a))
    (stepM (layerName d) (mRows k d) old).
Proof.
  intros Hold. unfold indexedM, stepM. apply Forall_app. split.
  - apply Forall_filter_keep. eapply Forall_impl; [exact Hold|].
    intros r Hr. apply index_dom_aProcessLayer. left. exact Hr.
  - apply Forall_forall. intros r Hr. apply index_dom_aProcessLayer. right.
    apply meshMapRowsOf_ids. unfold mRows in Hr.
    destruct (decide _); [exact Hr|inversion Hr].
Qed.

Lemma indexed_aProcessLayer d a : indexed a -> indexed (aProcessLayer d a).
Proof.
  intros (I1 & I2 & I3 & I4 & I5).
  destruct (rows_aProcessLayer d a) as (E1 & E2 & E3 & E4 & E5).
  unfold indexed. rewrite E1, E2, E3, E4, E5.
  repeat split; (apply indexedF_stepF || apply indexedM_stepM); assumption.
Qed.

Lemma index_dom_removeLayer (name : string) row a (m : string) :
  is_Some (mesh_index a !! m) ->
  is_Some (mesh_index (removeLayer name row a) !! m).
Proof.
  intros [r E]. unfold removeLayer. cbv zeta.
  rewrite lookup_refreshMeshFlags, lookup_removeLayerPresence.
  cbn [mesh_index setRegistry].
  destruct (lr_meshMapTable row); cbn [mesh_index dropTable setTables
    deleteGenericRows]; rewrite E; eexists; reflexivity.
Qed.

Lemma rows_removeLayer (name : string) row a :
  rowsOf (removeLayer name row a) = rowsOf (deleteGenericRows name a).
Proof.
  unfold removeLayer. cbv zeta.
  rewrite rowsOf_refreshMeshFlags, rowsOf_removeLayerPresence.
  destruct (lr_meshMapTable row); reflexivity.
Qed.

Lemma indexed_removeLayer (name : string) row a :
  indexed a -> indexed (removeLayer name row a).
Proof.
  intros (I1 & I2 & I3 & I4 & I5).
  pose proof (rows_removeLayer name row a) as E. unfold rowsOf in E.
  cbn [deleteGenericRows point_features line_features polygon_features
       line_mesh_map polygon_mesh_map seq_point seq_line seq_polygon log] in E.
  injection E as E1 E2 E3 E4 E5. unfold indexed.
  rewrite E1, E2, E3, E4, E5.
  repeat split; apply Forall_filter_keep;
    (eapply Forall_impl; [eassumption|]);
    intros r Hr; apply index_dom_removeLayer, Hr.
Qed.

Lemma indexed_aIngestFile (fileName : string) collection a :
  indexed a -> indexed (aIngestFile fileName collection a).
Proof.
  intros Hi. unfold aIngestFile. cbv zeta.
  destruct (layerDefs fileBase fileName collection) as [|d0 ds]; [exact Hi|].
  generalize (staleLayers fileName (d0 :: ds) a). intros stale.
  assert (H1 : forall l a, indexed a ->
             indexed (foldl (fun a '(name, row) => removeLayer name row a) a l)).
  { induction l as [|[name row] l IH]; intros a' Ha; [exact Ha|].
    cbn [foldl]. apply IH, indexed_removeLayer, Ha. }
  assert (H2 : forall l a, indexed a ->
             indexed (foldl (fun a d => aProcessLayer d a) a l)).
  { induction l as [|d l IH]; intros a' Ha; [exact Ha|].
    cbn [foldl]. apply IH, indexed_aProcessLayer, Ha. }
  apply H2, H1, Hi.
Qed.

(** *** Layers that a file no longer produces *)

(** The layer is not registered and has no row in the cross-layer
    tables. *)
Definition Gone (name : string) a : Prop :=
  layer_registry a !! name = None /\ untagged name a.

Lemma registry_removeLayer (name : string) row a :
  layer_registry (removeLayer name row a) = delete name (layer_registry a).
Proof.
  unfold removeLayer. cbv zeta.
  rewrite refreshMeshFlags_setMeshIndex. cbn [layer_registry setMeshIndex].
  rewrite removeLayerPresence_setMeshIndex. cbn [layer_registry setMeshIndex].
  destruct (lr_meshMapTable row); reflexivity.
Qed.

Lemma untagged_delete (name : string) a :
  untagged name (deleteGenericRows name a).
Proof.
  unfold untagged, rowsOf.
  cbn [deleteGenericRows point_features line_features polygon_features
       line_mesh_map polygon_mesh_map seq_point seq_line seq_polygon log].
  rewrite !filter_idem. reflexivity.
Qed.

Lemma delete_delete_comm (L L' : string) a :
  rowsOf (deleteGenericRows L (deleteGenericRows L' a))
  = rowsOf (deleteGenericRows L' (deleteGenericRows L a)).
Proof.
  unfold rowsOf.
  cbn [deleteGenericRows point_features line_features polygon_features
       line_mesh_map polygon_mesh_map seq_point seq_line seq_polygon log].
  rewrite !(filter_comm (notOfLayer L)), !(filter_comm (notOfLayerM L)).
  reflexivity.
Qed.

Lemma removeLayer_Gone (name : string) row a :
  Gone name (removeLayer name row a).
Proof.
  split.
  - rewrite registry_removeLayer. apply lookup_delete_eq.
  - unfold untagged.
    rewrite (rowsOf_deleteGenericRows _ _ _ (rows_removeLayer name row a)).
    rewrite rows_removeLayer. apply untagged_delete.
Qed.

Lemma removeLayer_keeps_Gone (name name' : string) row a :
  Gone name a -> Gone name (removeLayer name' row a).
Proof.
  intros [Hreg Hun]. split.
  - rewrite registry_removeLayer.
    destruct (decide (name' = name)) as [->|Hne].
    + apply lookup_delete_eq.
    + rewrite lookup_delete_ne by exact Hne. exact Hreg.
  - unfold untagged.
    rewrite (rowsOf_deleteGenericRows _ _ _ (rows_removeLayer name' row a)).
    rewrite delete_delete_comm.
    rewrite (rowsOf_deleteGenericRows _ _ _ Hun).
    symmetry. apply rows_removeLayer.
Qed.

Lemma aProcessLayer_keeps_Gone (name : string) d a :
  layerName d <> name -> Gone name a -> Gone name (aProcessLayer d a).
Proof.
  intros Hne [Hreg Hun]. split.
  - rewrite registry_aProcessLayer, lookup_insert_ne by exact Hne. exact Hreg.
  - unfold untagged.
    rewrite (rowsOf_deleteGenericRows _ _ _ (rowsOf_aProcessLayer_gStep d a)).
    rewrite delete_gStep by exact Hne.
    rewrite (gStep_congr d _ _ Hun). symmetry.
    apply rowsOf_aProcessLayer_gStep.
Qed.

Lemma removeLayers_Gone (l : list (string * LayerRow)) a (name : string) :
  name ∈ map fst l \/ Gone name a ->
  Gone name (foldl (fun a '(name, row) => removeLayer name row a) a l).
Proof.
  revert a. induction l as [|[n0 r0] l IH]; intros a Hn; cbn [foldl].
  - destruct Hn as [Hn|Hn]; [inversion Hn|exact Hn].
  - apply IH. destruct Hn as [Hn|Hn].
    + cbn [map fst] in Hn. apply elem_of_cons in Hn as [->|Hn].
      * right. apply removeLayer_Gone.
      * left. exact Hn.
    + right. apply removeLayer_keeps_Gone, Hn.
Qed.

Lemma processLayers_keep_Gone (ds : list (LayerDefinition num props)) a
    (name : string) :
  name ∉ map layerName ds -> Gone name a ->
  Gone name (foldl (fun a d => aProcessLayer d a) a ds).
Proof.
  revert a. induction ds as [|d ds IH]; intros a Hn Hg; [exact Hg|].
  cbn [foldl]. apply IH.
  - intros Hin. apply Hn. right. exact Hin.
  - apply aProcessLayer_keeps_Gone; [|exact Hg].
    intros E. apply Hn. rewrite <- E. left.
Qed.

Lemma staleLayers_elem (fileName : string)
    (defs : list (LayerDefinition num props)) a (name : string) row :
  layer_registry a !! name = Some row -> lr_sourceFile row = fileName ->
  name ∉ map layerName defs ->
  (name, row) ∈ staleLayers fileName defs a.
Proof.
  intros E Ef Hn. unfold staleLayers.
  apply list_elem_of_In, filter_In. split.
  - apply list_elem_of_In, elem_of_map_to_list. exact E.
  - rewrite (bool_decide_eq_true_2 _ Ef), (bool_decide_eq_true_2 _ Hn).
    reflexivity.
Qed.

Lemma aIngestFile_removes_stale (fileName : string) collection a
    (name : string) row :
  layerDefs fileBase fileName collection <> [] ->
  layer_registry a !! name = Some row -> lr_sourceFile row = fileName ->
  name ∉ map layerName (layerDefs fileBase fileName collection) ->
  Gone name (aIngestFile fileName collection a).
Proof.
  intros Hne E Ef Hn. unfold aIngestFile. cbv zeta.
  destruct (layerDefs fileBase fileName collection) as [|d0 ds] eqn:Ed;
    [contradiction|].
  apply (processLayers_keep_Gone (d0 :: ds)); [exact Hn|].
  apply removeLayers_Gone. left.
  apply list_elem_of_fmap. exists (name, row). split; [reflexivity|].
  apply staleLayers_elem; assumption.
Qed.

Lemma filter_self_Forall {A : Type} (f : A -> bool) (l : list A) :
  List.filter f l = l -> Forall (fun x => f x = true) l.
Proof.
  induction l as [|x l IH]; [constructor|]. cbn [List.filter].
  destruct (f x) eqn:E.
  - intros [= El]. constructor; [exact E|apply IH, El].
  - intros El. exfalso.
    pose proof (filter_length_le f l) as Hle. rewrite El in Hle.
    cbn [length] in Hle. lia.
Qed.

Lemma untagged_noRowsOf L s : untagged L (erase s) -> noRowsOf L s.
Proof.
  unfold untagged, rowsOf, noRowsOf.
  cbn [deleteGenericRows erase point_features line_features polygon_features
       line_mesh_map polygon_mesh_map seq_point seq_line seq_polygon log].
  intros [= E1 E2 E3 E4 E5].
  apply filter_self_Forall in E1, E2, E3, E4, E5.
  rewrite Forall_map in E1, E2, E3, E4, E5.
  repeat split;
    (eapply Forall_impl; [eassumption|]); intros r Hr; cbv beta in Hr;
    unfold notOfLayer, notOfLayerM in Hr;
    cbn [eraseF eraseM fr_sourceLayer mm_sourceLayer] in Hr;
    apply negb_true_iff, String.eqb_neq in Hr; exact Hr.
Qed.


(** *** The index after a layer is processed *)

Lemma toLineItems_primary (fs : list (Feature num props)) it :
  it ∈ toLineItems emptyProps MAX_CELLS_PER_FEATURE fs ->
  it_meshId it ∈ map piece_meshId (it_pieces it).
Proof.
  unfold toLineItems. intros Hit.
  apply list_elem_of_In, in_flat_map in Hit as (f & _ & Hit).
  destruct (f_geometry f) as [[]|]; try (inversion Hit; fail);
    destruct (buildLineMeshPieces _ _) as [|p0 ps]; try (inversion Hit; fail);
    destruct Hit as [<-|[]]; left.
Qed.

Lemma toPolygonItems_primary (fs : list (Feature num props)) it :
  it ∈ toPolygonItems emptyProps MAX_CELLS_PER_FEATURE fs ->
  it_meshId it ∈ map piece_meshId (it_pieces it).
Proof.
  unfold toPolygonItems. intros Hit.
  apply list_elem_of_In, in_flat_map in Hit as (f & _ & Hit).
  destruct (f_geometry f) as [[]|]; try (inversion Hit; fail);
    destruct (buildPolygonMeshPieces _ _) as [|p0 ps];
    try (inversion Hit; fail);
    destruct Hit as [<-|[]]; left.
Qed.

Lemma itemsOf_primary d it :
  it ∈ itemsOf d -> it_meshId it ∈ pieceIds (itemsOf d).
Proof.
  intros Hit.
  assert (Hp : it_meshId it ∈ map piece_meshId (it_pieces it)).
  { unfold itemsOf in Hit. destruct (geometryType d).
    - inversion Hit.
    - apply (toLineItems_primary _ _ Hit).
    - apply (toPolygonItems_primary _ _ Hit). }
  unfold pieceIds. apply list_elem_of_In, in_flat_map. exists it.
  split; apply list_elem_of_In; assumption.
Qed.

(** The mesh identifiers that get a row in the index are the mesh
    identifiers of the layer: the primary mesh identifier of a line or
    of a polygon is the one of its first piece. *)
Lemma indexIds_newMeshIds d (m : string) : m ∈ indexIds d -> m ∈ newMeshIds d.
Proof.
  unfold indexIds, newMeshIds.
  destruct (geometryType d) eqn:Hk; [auto| |];
    (destruct (meshMapTable d); [|auto]);
    rewrite !setFrom_elem, elem_of_app, !setFrom_elem;
    (intros [Hm|Hm]; [|exact Hm]);
    apply list_elem_of_fmap in Hm as (it & -> & Hit);
    apply itemsOf_primary; exact Hit.
Qed.

Lemma index_aProcessLayer_cases d a (m : string) :
  let G := gStep d a in
  (m ∈ newMeshIds d ->
   exists row, mesh_index (aProcessLayer d a) !! m = Some row
               /\ layerName d ∈ layerPresence row
               /\ withFlags m G row = row)
  /\ (m ∈ oldMeshIdsOf d a -> m ∉ newMeshIds d ->
      forall row, mesh_index (aProcessLayer d a) !! m = Some row ->
                  (layerName d ∉ layerPresence row) /\ withFlags m G row = row)
  /\ (m ∉ oldMeshIdsOf d a -> m ∉ newMeshIds d ->
      mesh_index (aProcessLayer d a) !! m = mesh_index a !! m).
Proof.
  intros G. rewrite index_aProcessLayer, upsert_lookup. fold G.
  unfold indexRowStep. cbv zeta.
  split; [|split].
  - intros Hm.
    destruct (decide (m ∈ newMeshIds d)); [|contradiction].
    destruct (decide (m ∈ oldMeshIdsOf d a \/ m ∈ newMeshIds d)) as [_|Hn];
      [|exfalso; auto].
    assert (Hi : m ∈ indexIds d) by (apply newMeshIds_indexIds, Hm).
    destruct (decide (m ∈ indexIds d)); [|contradiction].
    destruct (mesh_index a !! m) as [row0|];
      cbn [fmap option_fmap option_map]; eexists;
      (split; [reflexivity|]); (split; [|reflexivity]);
      cbn [layerPresence withFlags withLayer];
      apply elem_of_union; left; apply elem_of_singleton; reflexivity.
  - intros Ho Hn row.
    destruct (decide (m ∈ indexIds d)) as [Hi|_];
      [exfalso; apply Hn, indexIds_newMeshIds, Hi|].
    destruct (decide (m ∈ oldMeshIdsOf d a)); [|contradiction].
    destruct (decide (m ∈ newMeshIds d)); [contradiction|].
    destruct (decide (m ∈ oldMeshIdsOf d a \/ m ∈ newMeshIds d)) as [_|Hn'];
      [|exfalso; auto].
    destruct (mesh_index a !! m) as [row0|];
      cbn [fmap option_fmap option_map]; [|discriminate].
    intros [= <-]. split; [|reflexivity].
    cbn [layerPresence withFlags withoutLayer].
    rewrite elem_of_difference, elem_of_singleton. tauto.
  - intros Ho Hn.
    destruct (decide (m ∈ indexIds d)) as [Hi|_];
      [exfalso; apply Hn, indexIds_newMeshIds, Hi|].
    destruct (decide (m ∈ oldMeshIdsOf d a)); [contradiction|].
    destruct (decide (m ∈ newMeshIds d)); [contradiction|].
    destruct (decide (m ∈ oldMeshIdsOf d a \/ m ∈ newMeshIds d)) as [[?|?]|_];
      [contradiction..|].
    destruct (mesh_index a !! m); reflexivity.
Qed.

End Reingestion.

Lemma Fresh_emptyStore (num props : Type) (fileBase : string -> string)
    (fileName : string) (collection : list (Feature num props)) :
  Fresh fileBase fileName collection emptyStore.
Proof.
  split; [|split].
  - intros name row E. cbn [layer_registry emptyStore] in E.
    rewrite lookup_empty in E. discriminate.
  - intros d x _ _. apply lookup_empty.
  - intros d _. repeat split; constructor.
Qed.

(** After the first ingestion of a file into a store that has none of
    its layers, every layer of the file is registered with its
    definition; its per-layer table and its mesh-decomposition table
    hold the rows of the file and nothing else; its rows in the five
    cross-layer tables are the rows of the file (identifiers apart);
    and every mesh identifier of the layer has a row in the index that
    names the layer and whose three flags say whether [point_features],
    [line_mesh_map] and [polygon_mesh_map] have a row for it. *)
Theorem first_ingestion_puts_layers_in_place :
  forall (num props : Type) (N : JSNumber num) (T : Turf num (Geometry num))
    (emptyProps : props) (MAX_CELLS_PER_FEATURE : option num)
    (fileBase : string -> string) (fileName : string)
    (collection : list (Feature num props)) (s : Store num props),
    Fresh fileBase fileName collection s ->
    let s1 := ingestFile emptyProps MAX_CELLS_PER_FEATURE fileBase fileName
                collection s in
    forall d, d ∈ layerDefs fileBase fileName collection ->
      layer_registry s1 !! layerName d = Some (registryRowOf d)
      /\ tables s1 !! tableName d
         = Some (layerRowsOf emptyProps MAX_CELLS_PER_FEATURE d)
      /\ (forall mt, meshMapTable d = Some mt ->
            tables s1 !! mt
            = Some (perLayerMeshRows
                      (itemsOf emptyProps MAX_CELLS_PER_FEATURE d)))
      /\ (forall k,
            List.filter (ofLayer (layerName d)) (map eraseF (featureTable k s1))
            = if decide (geometryType d = k)
              then featureRowsOf emptyProps MAX_CELLS_PER_FEATURE d else [])
      /\ List.filter (ofLayerM (layerName d)) (map eraseM (line_mesh_map s1))
         = (if decide (geometryType d = line)
            then meshMapRowsOf emptyProps MAX_CELLS_PER_FEATURE d else [])
      /\ List.filter (ofLayerM (layerName d)) (map eraseM (polygon_mesh_map s1))
         = (if decide (geometryType d = polygon)
            then meshMapRowsOf emptyProps MAX_CELLS_PER_FEATURE d else [])
      /\ forall m : string,
           m ∈ newMeshIds emptyProps MAX_CELLS_PER_FEATURE d ->
           exists row,
             mesh_index s1 !! m = Some row
             /\ layerName d ∈ layerPresence row
             /\ hasPoints row = existsFeature m (point_features s1)
             /\ hasLines row = existsMeshMap m (line_mesh_map s1)
             /\ hasPolygons row = existsMeshMap m (polygon_mesh_map s1).
Proof.
  intros num props N T emptyProps MAX fileBase fileName collection s HF s1 d Hd.
  destruct (aIngestFile_twice emptyProps MAX fileBase fileName collection
              (erase s)) as [Hdone _].
  { intros name row E. destruct HF as (Hreg & _). exact (proj1 (Hreg _ _ E)). }
  { intros x Hx. eapply Fresh_Unseen; eauto. }
  specialize (Hdone d Hd).
  rewrite <- erase_ingestFile in Hdone. fold s1 in Hdone.
  destruct (Done_rows emptyProps MAX d _ Hdone) as (R1 & R2 & R3 & R4 & R5).
  destruct Hdone as (F1 & F2 & F2' & _ & F4 & F5).
  split; [exact F1|]. split; [exact F2|]. split; [exact F2'|].
  split; [|split; [exact R4|split; [exact R5|]]].
  - intros [| |]; [exact R1|exact R2|exact R3].
  - intros m Hm.
    assert (Hi : m ∈ indexIds emptyProps MAX d)
      by exact (newMeshIds_indexIds emptyProps MAX fileBase d m Hm).
    destruct (F4 m Hi) as [row Em].
    exists row. split; [exact Em|].
    destruct (F5 m row Hm Em) as [HL Hflags]. split; [exact HL|].
    unfold withFlags in Hflags.
    cbn [erase point_features line_mesh_map polygon_mesh_map] in Hflags.
    rewrite existsFeature_erase, !existsMeshMap_erase in Hflags.
    rewrite <- Hflags. repeat split.
Qed.

(** Idempotent re-ingestion: when a file is ingested into a store that
    has none of its layers and then ingested again, the second run
    changes nothing but the generated identifiers: the per-layer tables,
    the mesh-presence index and the registry are the same, and the five
    cross-layer tables hold the same rows in the same order, hence as
    many. *)
Theorem reingestion_is_idempotent :
  forall (num props : Type) (N : JSNumber num) (T : Turf num (Geometry num))
    (emptyProps : props) (MAX_CELLS_PER_FEATURE : option num)
    (fileBase : string -> string) (fileName : string)
    (collection : list (Feature num props)) (s : Store num props),
    Fresh fileBase fileName collection s ->
    let s1 := ingestFile emptyProps MAX_CELLS_PER_FEATURE fileBase fileName
                collection s in
    let s2 := ingestFile emptyProps MAX_CELLS_PER_FEATURE fileBase fileName
                collection s1 in
    tables s2 = tables s1
    /\ mesh_index s2 = mesh_index s1
    /\ layer_registry s2 = layer_registry s1
    /\ (forall k, map eraseF (featureTable k s2) = map eraseF (featureTable k s1))
    /\ map eraseM (line_mesh_map s2) = map eraseM (line_mesh_map s1)
    /\ map eraseM (polygon_mesh_map s2) = map eraseM (polygon_mesh_map s1)
    /\ (forall k, length (featureTable k s2) = length (featureTable k s1))
    /\ length (line_mesh_map s2) = length (line_mesh_map s1)
    /\ length (polygon_mesh_map s2) = length (polygon_mesh_map s1).
Proof.
  intros num props N T emptyProps MAX fileBase fileName collection s HF s1 s2.
  assert (E : erase s2 = erase s1).
  { unfold s2. rewrite erase_ingestFile. unfold s1. rewrite erase_ingestFile.
    apply aIngestFile_twice.
    - intros name row E. destruct HF as (Hreg & _). exact (proj1 (Hreg _ _ E)).
    - intros x Hx. eapply Fresh_Unseen; eauto. }
  assert (EF : forall k, map eraseF (featureTable k s2)
                         = map eraseF (featureTable k s1)).
  { intros [| |].
    - exact (f_equal point_features E).
    - exact (f_equal line_features E).
    - exact (f_equal polygon_features E). }
  pose proof (f_equal line_mesh_map E) as EL.
  pose proof (f_equal polygon_mesh_map E) as EP.
  cbn [erase line_mesh_map polygon_mesh_map] in EL, EP.
  split; [exact (f_equal tables E)|].
  split; [exact (f_equal mesh_index E)|].
  split; [exact (f_equal layer_registry E)|].
  split; [exact EF|]. split; [exact EL|]. split; [exact EP|].
  split; [|split].
  - intros k. rewrite <- (length_map eraseF (featureTable k s2)), EF.
    apply length_map.
  - rewrite <- (length_map eraseM (line_mesh_map s2)), EL. apply length_map.
  - rewrite <- (length_map eraseM (polygon_mesh_map s2)), EP. apply length_map.
Qed.

(** A file [tokyo.geojson] with a point (Tokyo station) and a line of
    about one kilometre, on binary64 numbers. *)
Definition tokyoPoint : Feature float string :=
  mkFeature (Some (Point (lit 139767 3, lit 35681 3)))
    (Some "Tokyo Station"%string).
Definition tokyoLine : Feature float string :=
  mkFeature
    (Some (LineString [(lit 139759 3, lit 35678 3); (lit 139771 3, lit 35688 3)]))
    None.
Definition tokyoLines : LayerDefinition float string :=
  mkLayerDef "tokyo_lines" "tokyo_lines" line "tokyo.geojson"
    (Some "tokyo_lines_mesh_map"%string) [tokyoLine].

Lemma reingestion_is_idempotent_witness :
  let s1 := ingestFile (H0 := sampleTurf) ""%string None sampleFileBase
              "tokyo.geojson" [tokyoPoint; tokyoLine] emptyStore in
  let s2 := ingestFile (H0 := sampleTurf) ""%string None sampleFileBase
              "tokyo.geojson" [tokyoPoint; tokyoLine] s1 in
  (length (point_features s1) = 1%nat /\ length (line_features s1) = 1%nat
   /\ length (line_mesh_map s1) = 30%nat)
  /\ tables s2 = tables s1
  /\ mesh_index s2 = mesh_index s1
  /\ layer_registry s2 = layer_registry s1
  /\ (forall k, map eraseF (featureTable k s2) = map eraseF (featureTable k s1))
  /\ map eraseM (line_mesh_map s2) = map eraseM (line_mesh_map s1)
  /\ map eraseM (polygon_mesh_map s2) = map eraseM (polygon_mesh_map s1)
  /\ (forall k, length (featureTable k s2) = length (featureTable k s1))
  /\ length (line_mesh_map s2) = length (line_mesh_map s1)
  /\ length (polygon_mesh_map s2) = length (polygon_mesh_map s1).
Proof.
  split.
  - vm_compute. repeat split; reflexivity.
  - exact (reingestion_is_idempotent float string _ sampleTurf ""%string None
             sampleFileBase "tokyo.geojson" [tokyoPoint; tokyoLine] emptyStore
             (Fresh_emptyStore _ _ _ _ _)).
Defined.

Lemma first_ingestion_puts_layers_in_place_witness :
  let s1 := ingestFile (H0 := sampleTurf) ""%string None sampleFileBase
              "tokyo.geojson" [tokyoPoint; tokyoLine] emptyStore in
  tokyoLines ∈ layerDefs sampleFileBase "tokyo.geojson" [tokyoPoint; tokyoLine]
  /\ layer_registry s1 !! "tokyo_lines"%string = Some (registryRowOf tokyoLines)
  /\ tables s1 !! "tokyo_lines"%string
     = Some (layerRowsOf (H0 := sampleTurf) ""%string None tokyoLines).
Proof.
  assert (Hd : tokyoLines
               ∈ layerDefs sampleFileBase "tokyo.geojson"
                   [tokyoPoint; tokyoLine]).
  { assert (E : layerDefs sampleFileBase "tokyo.geojson" [tokyoPoint; tokyoLine]
                = [mkLayerDef "tokyo_points" "tokyo_points" point
                     "tokyo.geojson" None [tokyoPoint]; tokyoLines])
      by (vm_compute; reflexivity).
    rewrite E. right. left. }
  split; [exact Hd|].
  destruct (first_ingestion_puts_layers_in_place float string _ sampleTurf
              ""%string None sampleFileBase "tokyo.geojson"
              [tokyoPoint; tokyoLine] emptyStore (Fresh_emptyStore _ _ _ _ _)
              tokyoLines Hd) as (F1 & F2 & _).
  split; [exact F1|exact F2].
Defined.


(** [ingestFile] keeps the references to the index: when every mesh
    identifier in the five cross-layer tables has a row in
    [mesh_index], this is still so afterwards (the rows of the index
    are written before the rows that refer to them, and no row of the
    index is ever deleted). *)
Theorem ingestFile_keeps_mesh_ids_indexed :
  forall (num props : Type) (N : JSNumber num) (T : Turf num (Geometry num))
    (emptyProps : props) (MAX_CELLS_PER_FEATURE : option num)
    (fileBase : string -> string) (fileName : string)
    (collection : list (Feature num props)) (s : Store num props),
    indexed s ->
    indexed (ingestFile emptyProps MAX_CELLS_PER_FEATURE fileBase fileName
               collection s).
Proof.
  intros num props N T emptyProps MAX fileBase fileName collection s Hi.
  apply indexed_erase. rewrite erase_ingestFile.
  apply indexed_aIngestFile, indexed_erase, Hi.
Qed.

(** A registered layer of the file that the file no longer produces is
    removed when the file is ingested: it is no longer registered and
    no row of the cross-layer tables has it as its source layer.  A
    file without any supported geometry is skipped: the store stays as
    it is, and the layers registered for the file stay with it. *)
Theorem ingestFile_removes_stale_layers :
  forall (num props : Type) (N : JSNumber num) (T : Turf num (Geometry num))
    (emptyProps : props) (MAX_CELLS_PER_FEATURE : option num)
    (fileBase : string -> string) (fileName : string)
    (collection : list (Feature num props)) (s : Store num props),
    let s' := ingestFile emptyProps MAX_CELLS_PER_FEATURE fileBase fileName
                collection s in
    (layerDefs fileBase fileName collection = [] -> s' = s)
    /\ (layerDefs fileBase fileName collection <> [] ->
        forall (name : string) (row : LayerRow),
          layer_registry s !! name = Some row ->
          lr_sourceFile row = fileName ->
          name ∉ map layerName (layerDefs fileBase fileName collection) ->
          layer_registry s' !! name = None /\ noRowsOf name s').
Proof.
  intros num props N T emptyProps MAX fileBase fileName collection s s'.
  split.
  - intros E. unfold s', ingestFile. rewrite E. reflexivity.
  - intros Hne name row E Ef Hn.
    destruct (aIngestFile_removes_stale emptyProps MAX fileBase fileName
                collection (erase s) name row Hne E Ef Hn) as [Hreg Hun].
    rewrite <- erase_ingestFile in Hreg, Hun. fold s' in Hreg, Hun.
    split; [exact Hreg|]. apply untagged_noRowsOf, Hun.
Qed.


(* ================================================================== *)
(** * Part III.  Further properties of the code                         *)
(* ================================================================== *)

(** ** MeshCodec in exact arithmetic *)

Section CodecQ.
Local Open Scope Q_scope.

Lemma Qfloor_unique (x : Q) (z : Z) :
  inject_Z z <= x -> x < inject_Z z + 1 -> Qfloor x = z.
Proof.
  intros Hlo Hhi.
  pose proof (Qfloor_le x) as H1. pose proof (Qlt_floor x) as H2.
  rewrite inject_Z_plus in H2. change (inject_Z 1) with 1 in H2.
  assert (Ha : (z < Qfloor x + 1)%Z).
  { rewrite Zlt_Qlt, inject_Z_plus. change (inject_Z 1) with 1. lra. }
  assert (Hb : (Qfloor x < z + 1)%Z).
  { rewrite Zlt_Qlt, inject_Z_plus. change (inject_Z 1) with 1. lra. }
  lia.
Qed.

Lemma Qfloor_cell (x e : Q) (n c : Z) :
  (0 < n)%Z -> e == x / inject_Z n - inject_Z c ->
  Qfloor e = (Qfloor x / n - c)%Z.
Proof.
  intros Hn He. rewrite (Qfloor_comp _ _ He). apply Qfloor_unique.
  - pose proof (Qfloor_le x) as H1.
    assert (Hz : (n * (Qfloor x / n) <= Qfloor x)%Z)
      by (apply Z.mul_div_le; exact Hn).
    rewrite Zle_Qle, inject_Z_mult in Hz.
    assert (Hn' : 0 < inject_Z n) by (change 0 with (inject_Z 0); rewrite <- Zlt_Qlt; exact Hn).
    unfold Z.sub. rewrite inject_Z_plus, inject_Z_opp.
    assert (inject_Z (Qfloor x / n) <= x / inject_Z n).
    { apply Qle_shift_div_l; [exact Hn'|]. lra. }
    lra.
  - pose proof (Qlt_floor x) as H2.
    rewrite inject_Z_plus in H2. change (inject_Z 1) with 1 in H2.
    assert (Hz : (Qfloor x + 1 <= n * (Qfloor x / n) + n)%Z).
    { pose proof (Z.mul_succ_div_gt (Qfloor x) n Hn). lia. }
    rewrite Zle_Qle, !inject_Z_plus, inject_Z_mult in Hz.
    change (inject_Z 1) with 1 in Hz.
    assert (Hn' : 0 < inject_Z n) by (change 0 with (inject_Z 0); rewrite <- Zlt_Qlt; exact Hn).
    unfold Z.sub. rewrite inject_Z_plus, inject_Z_opp.
    assert (x / inject_Z n < inject_Z (Qfloor x / n) + 1).
    { apply Qlt_shift_div_r; [exact Hn'|]. lra. }
    lra.
Qed.



Lemma Q_toString_int (x : Q) (z : Z) :
  x == inject_Z z -> Q_toString x = string_of_Z z.
Proof.
  intros E. unfold Q_toString.
  rewrite (Qred_complete _ _ E), inject_Z_Qred. reflexivity.
Qed.

(** The mesh code of the cell in row [K] and column [J] of the grid of
    1/480 by 1/320 degree. *)
Definition cellCode (K J : Z) : string :=
  (padStart0 2 (string_of_Z (K / 320))
   ++ padStart0 2 (string_of_Z (J / 320 - 100))
   ++ string_of_Z ((K / 40) mod 8) ++ string_of_Z ((J / 40) mod 8)
   ++ string_of_Z ((K / 4) mod 10) ++ string_of_Z ((J / 4) mod 10)
   ++ string_of_Z (((K / 2) mod 2) * 2 + (J / 2) mod 2 + 1)
   ++ string_of_Z ((K mod 2) * 2 + J mod 2 + 1))%string.

(** The clamp of the offset in the 1 km cell does not change the two
    quadrant digits. *)
Lemma clamp_lat (d : Q) :
  0 <= d -> d < 30 ->
  let c := jsmin (lit 29999999 6) (jsmax (ofZ 0) d) in
  Qfloor (c / 15) = Qfloor (d / 15)
  /\ Qfloor ((c - inject_Z (Qfloor (c / 15)) * 15) / (75 # 10))
     = (Qfloor (d / (75 # 10)) - 2 * Qfloor (d / 15))%Z.
Proof.
  intros H0 H30 c.
  assert (Hc : c = d \/ (c = lit 29999999 6 /\ lit 29999999 6 <= d)).
  { subst c. cbn [jsmin jsmax Q_JSNumber ofZ].
    destruct (Qle_bool (inject_Z 0) d) eqn:E0.
    - destruct (Qle_bool (lit 29999999 6) d) eqn:E1; [|left; reflexivity].
      right. split; [reflexivity|]. apply Qle_bool_iff. exact E1.
    - exfalso. apply Qle_bool_iff in H0.
      change 0 with (inject_Z 0) in H0. congruence. }
  destruct Hc as [->|[-> Hcap]].
  - split; [reflexivity|].
    rewrite (Qfloor_cell (d / (75 # 10)) _ 1 (2 * Qfloor (d / 15))); [|lia|].
    + rewrite Z.div_1_r. reflexivity.
    + rewrite inject_Z_mult. change (inject_Z 1) with 1. change (inject_Z 2) with 2.
      field.
  - assert (Hcap' : (29999999 # 1000000) <= d) by exact Hcap.
    assert (E15 : Qfloor (d / 15) = 1%Z).
    { apply Qfloor_unique.
      - apply Qle_shift_div_l; [reflexivity|]. change (inject_Z 1) with 1. lra.
      - apply Qlt_shift_div_r; [reflexivity|]. change (inject_Z 1) with 1. lra. }
    assert (E75 : Qfloor (d / (75 # 10)) = 3%Z).
    { apply Qfloor_unique.
      - apply Qle_shift_div_l; [reflexivity|]. change (inject_Z 3) with 3. lra.
      - apply Qlt_shift_div_r; [reflexivity|]. change (inject_Z 3) with 3. lra. }
    rewrite E15, E75. split; vm_compute; reflexivity.
Qed.

Lemma clamp_lon (d : Q) :
  0 <= d -> d < 45 ->
  let c := jsmin (lit 44999999 6) (jsmax (ofZ 0) d) in
  Qfloor (c / (225 # 10)) = Qfloor (d / (225 # 10))
  /\ Qfloor ((c - inject_Z (Qfloor (c / (225 # 10))) * (225 # 10)) / (1125 # 100))
     = (Qfloor (d / (1125 # 100)) - 2 * Qfloor (d / (225 # 10)))%Z.
Proof.
  intros H0 H45 c.
  assert (Hc : c = d \/ (c = lit 44999999 6 /\ lit 44999999 6 <= d)).
  { subst c. cbn [jsmin jsmax Q_JSNumber ofZ].
    destruct (Qle_bool (inject_Z 0) d) eqn:E0.
    - destruct (Qle_bool (lit 44999999 6) d) eqn:E1; [|left; reflexivity].
      right. split; [reflexivity|]. apply Qle_bool_iff. exact E1.
    - exfalso. apply Qle_bool_iff in H0.
      change 0 with (inject_Z 0) in H0. congruence. }
  destruct Hc as [->|[-> Hcap]].
  - split; [reflexivity|].
    rewrite (Qfloor_cell (d / (1125 # 100)) _ 1 (2 * Qfloor (d / (225 # 10))));
      [|lia|].
    + rewrite Z.div_1_r. reflexivity.
    + rewrite inject_Z_mult. change (inject_Z 1) with 1. change (inject_Z 2) with 2.
      field.
  - assert (Hcap' : (44999999 # 1000000) <= d) by exact Hcap.
    assert (E15 : Qfloor (d / (225 # 10)) = 1%Z).
    { apply Qfloor_unique.
      - apply Qle_shift_div_l; [reflexivity|]. change (inject_Z 1) with 1. lra.
      - apply Qlt_shift_div_r; [reflexivity|]. change (inject_Z 1) with 1. lra. }
    assert (E75 : Qfloor (d / (1125 # 100)) = 3%Z).
    { apply Qfloor_unique.
      - apply Qle_shift_div_l; [reflexivity|]. change (inject_Z 3) with 3. lra.
      - apply Qlt_shift_div_r; [reflexivity|]. change (inject_Z 3) with 3. lra. }
    rewrite E15, E75. split; vm_compute; reflexivity.
Qed.

Ltac q_ops :=
  change (@floor Q Q_JSNumber) with (fun x : Q => inject_Z (Qfloor x)) in *;
  cbv beta in *;
  change (@add Q Q_JSNumber) with Qplus in *;
  change (@sub Q Q_JSNumber) with Qminus in *;
  change (@mul Q Q_JSNumber) with Qmult in *;
  change (@div Q Q_JSNumber) with Qdiv in *;
  change (@toString Q Q_JSNumber) with Q_toString in *;
  change (@lit Q Q_JSNumber 15 1) with (15 # 10) in *;
  change (@lit Q Q_JSNumber 75 1) with (75 # 10) in *;
  change (@lit Q Q_JSNumber 225 1) with (225 # 10) in *;
  change (@lit Q Q_JSNumber 1125 2) with (1125 # 100) in *;
  repeat match goal with
    | |- context [@ofZ Q Q_JSNumber ?z] =>
        let q := eval cbv in (inject_Z z) in
        change (@ofZ Q Q_JSNumber z) with q
    end.

Lemma cell_digits (K : Z) :
  ((K / 40) mod 8 = K / 40 - 8 * (K / 320)
   /\ (K / 4) mod 10 = K / 4 - 10 * (K / 40)
   /\ (K / 2) mod 2 = K / 2 - 2 * (K / 4)
   /\ K mod 2 = K - 2 * (K / 2))%Z.
Proof.
  rewrite !Z.mod_eq by lia. rewrite !Z.div_div by lia.
  repeat split; reflexivity.
Qed.

Lemma inject_Z_between (x : Q) (K : Z) (n : Z) :
  (0 < n)%Z -> K = Qfloor x ->
  inject_Z n * inject_Z (K / n) <= x /\ x < inject_Z n * inject_Z (K / n) + inject_Z n.
Proof.
  intros Hn ->. pose proof (Qfloor_le x) as H1. pose proof (Qlt_floor x) as H2.
  rewrite inject_Z_plus in H2. change (inject_Z 1) with 1 in H2.
  assert (Ha : (n * (Qfloor x / n) <= Qfloor x)%Z) by (apply Z.mul_div_le; exact Hn).
  assert (Hb : (Qfloor x + 1 <= n * (Qfloor x / n) + n)%Z).
  { pose proof (Z.mul_succ_div_gt (Qfloor x) n Hn). lia. }
  rewrite Zle_Qle, inject_Z_mult in Ha.
  rewrite Zle_Qle, !inject_Z_plus, inject_Z_mult in Hb.
  change (inject_Z 1) with 1 in Hb. split; lra.
Qed.

Lemma meshCode250_cellCode (lat lon : Q) :
  meshCode250 lat lon = cellCode (Qfloor (lat * 480)) (Qfloor (lon * 320)).
Proof.
  unfold meshCode250.
  set (K := Qfloor (lat * 480)). set (J := Qfloor (lon * 320)).
  q_ops.
  destruct (cell_digits K) as (Kr & Kt & Kh & Kq).
  destruct (cell_digits J) as (Js & Ju & Jh & Jq).
  (* latitude *)
  assert (Ep : Qfloor (lat * (15 # 10)) = (K / 320)%Z).
  { rewrite (Qfloor_cell (lat * 480) _ 320 0); [apply Z.sub_0_r|lia|].
    change (inject_Z 320) with 320. change (inject_Z 0) with 0. field. }
  rewrite !Ep.
  assert (Er : Qfloor ((lat * 60 - inject_Z (K / 320) * 40) / 5)
               = ((K / 40) mod 8)%Z).
  { rewrite (Qfloor_cell (lat * 480) _ 40 (8 * (K / 320))); [|lia|].
    - fold K. lia.
    - rewrite inject_Z_mult. change (inject_Z 40) with 40.
      change (inject_Z 8) with 8. field. }
  rewrite !Er.
  assert (Et : Qfloor ((lat * 60 - inject_Z (K / 320) * 40
                        - inject_Z ((K / 40) mod 8) * 5) * 60 / 30)
               = ((K / 4) mod 10)%Z).
  { rewrite (Qfloor_cell (lat * 480) _ 4
               (80 * (K / 320) + 10 * ((K / 40) mod 8))); [|lia|].
    - fold K. lia.
    - rewrite inject_Z_plus, !inject_Z_mult. change (inject_Z 4) with 4.
      change (inject_Z 80) with 80. change (inject_Z 10) with 10. field. }
  rewrite !Et.
  set (dl := lat * 3600
             - (inject_Z (K / 320) * 2400 + inject_Z ((K / 40) mod 8) * 300
                + inject_Z ((K / 4) mod 10) * 30)).
  assert (Edl : dl == (75 # 10) * (lat * 480 - 4 * inject_Z (K / 4))).
  { assert (Ez : (K / 320 * 2400 + (K / 40) mod 8 * 300 + (K / 4) mod 10 * 30
                  = K / 4 * 30)%Z) by lia.
    apply (f_equal inject_Z) in Ez.
    rewrite !inject_Z_plus, !inject_Z_mult in Ez.
    change (inject_Z 2400) with 2400 in Ez. change (inject_Z 300) with 300 in Ez.
    change (inject_Z 30) with 30 in Ez.
    subst dl. rewrite Ez. field. }
  destruct (inject_Z_between (lat * 480) K 4 ltac:(lia) eq_refl) as [Hlo Hhi].
  change (inject_Z 4) with 4 in Hlo, Hhi.
  pose proof (clamp_lat dl ltac:(lra) ltac:(lra)) as [Eh Eq].
  change (@ofZ Q Q_JSNumber 0) with 0 in Eh, Eq.
  assert (Eh' : Qfloor (dl / 15) = ((K / 2) mod 2)%Z).
  { rewrite (Qfloor_cell (lat * 480) _ 2 (2 * (K / 4))); [|lia|].
    - fold K. lia.
    - rewrite Edl, inject_Z_mult. change (inject_Z 2) with 2. field. }
  assert (Eq' : Qfloor (dl / (75 # 10)) = (K - 4 * (K / 4))%Z).
  { rewrite (Qfloor_cell (lat * 480) _ 1 (4 * (K / 4))); [|lia|].
    - fold K. rewrite Z.div_1_r. reflexivity.
    - rewrite Edl, inject_Z_mult. change (inject_Z 1) with 1.
      change (inject_Z 4) with 4. field. }
  rewrite Eh, Eh' in Eq. rewrite Eq' in Eq.
  rewrite !Eh, !Eh', !Eq.
  clearbody dl. clear Eh Eq Edl Hlo Hhi Eh' Eq' Ep Er Et dl.
  (* longitude *)
  assert (Ef : Qfloor lon = (J / 320)%Z).
  { rewrite (Qfloor_cell (lon * 320) _ 320 0); [apply Z.sub_0_r|lia|].
    change (inject_Z 320) with 320. change (inject_Z 0) with 0. field. }
  rewrite !Ef.
  assert (Es : Qfloor ((lon * 60 - inject_Z (J / 320) * 60) / (75 # 10))
               = ((J / 40) mod 8)%Z).
  { rewrite (Qfloor_cell (lon * 320) _ 40 (8 * (J / 320))); [|lia|].
    - fold J. lia.
    - rewrite inject_Z_mult. change (inject_Z 40) with 40.
      change (inject_Z 8) with 8. field. }
  rewrite !Es.
  assert (Eu : Qfloor ((lon * 60 - inject_Z (J / 320) * 60
                        - inject_Z ((J / 40) mod 8) * (75 # 10)) * 60 / 45)
               = ((J / 4) mod 10)%Z).
  { rewrite (Qfloor_cell (lon * 320) _ 4
               (80 * (J / 320) + 10 * ((J / 40) mod 8))); [|lia|].
    - fold J. lia.
    - rewrite inject_Z_plus, !inject_Z_mult. change (inject_Z 4) with 4.
      change (inject_Z 80) with 80. change (inject_Z 10) with 10. field. }
  rewrite !Eu.
  set (dl := lon * 3600
             - ((inject_Z (J / 320) - 100 + 100) * 3600
                + inject_Z ((J / 40) mod 8) * 450
                + inject_Z ((J / 4) mod 10) * 45)).
  assert (Edl : dl == (1125 # 100) * (lon * 320 - 4 * inject_Z (J / 4))).
  { assert (Ez : (J / 320 * 3600 + (J / 40) mod 8 * 450 + (J / 4) mod 10 * 45
                  = J / 4 * 45)%Z) by lia.
    apply (f_equal inject_Z) in Ez.
    rewrite !inject_Z_plus, !inject_Z_mult in Ez.
    change (inject_Z 3600) with 3600 in Ez. change (inject_Z 450) with 450 in Ez.
    change (inject_Z 45) with 45 in Ez.
    assert (Ez' : inject_Z (J / 320) * 3600
                  + inject_Z ((J / 40) mod 8) * 450
                  + inject_Z ((J / 4) mod 10) * 45 == inject_Z (J / 4) * 45)
      by (rewrite Ez; reflexivity).
    subst dl. lra. }
  destruct (inject_Z_between (lon * 320) J 4 ltac:(lia) eq_refl) as [Hlo Hhi].
  change (inject_Z 4) with 4 in Hlo, Hhi.
  pose proof (clamp_lon dl ltac:(lra) ltac:(lra)) as [Eh Eq].
  change (@ofZ Q Q_JSNumber 0) with 0 in Eh, Eq.
  assert (Eh' : Qfloor (dl / (225 # 10)) = ((J / 2) mod 2)%Z).
  { rewrite (Qfloor_cell (lon * 320) _ 2 (2 * (J / 4))); [|lia|].
    - fold J. lia.
    - rewrite Edl, inject_Z_mult. change (inject_Z 2) with 2. field. }
  assert (Eq' : Qfloor (dl / (1125 # 100)) = (J - 4 * (J / 4))%Z).
  { rewrite (Qfloor_cell (lon * 320) _ 1 (4 * (J / 4))); [|lia|].
    - fold J. rewrite Z.div_1_r. reflexivity.
    - rewrite Edl, inject_Z_mult. change (inject_Z 1) with 1.
      change (inject_Z 4) with 4. field. }
  rewrite Eh, Eh' in Eq. rewrite Eq' in Eq.
  rewrite !Eh, !Eh', !Eq.
  clearbody dl. clear Eh Eq Edl Hlo Hhi Eh' Eq' Ef Es Eu dl.
  unfold cellCode.
  rewrite (Q_toString_int (inject_Z (K / 320)) (K / 320)) by reflexivity.
  rewrite (Q_toString_int (inject_Z (J / 320) - 100) (J / 320 - 100)).
  2:{ unfold Z.sub. rewrite inject_Z_plus. reflexivity. }
  rewrite !(Q_toString_int (inject_Z _) _) by reflexivity.
  rewrite (Q_toString_int (_ * 2 + inject_Z ((J / 2) mod 2) + 1)
             ((K / 2) mod 2 * 2 + (J / 2) mod 2 + 1)).
  2:{ rewrite !inject_Z_plus, inject_Z_mult. reflexivity. }
  rewrite (Q_toString_int (_ * 2 + _ + 1) (K mod 2 * 2 + J mod 2 + 1)).
  2:{ rewrite <- (inject_Z_mult _ 2), <- inject_Z_plus.
      change 1 with (inject_Z 1). rewrite <- inject_Z_plus.
      apply inject_Z_injective. lia. }
  reflexivity.
Qed.

(** *** The text of a mesh code *)

Definition digitOf (n : Z) : ascii := ascii_of_nat (48 + Z.to_nat n).

Definition isDigit (c : ascii) : bool :=
  let n := nat_of_ascii c in ((48 <=? n) && (n <=? 57))%nat.

Lemma string_of_Z_digit (n : Z) :
  (0 <= n <= 9)%Z -> string_of_Z n = String (digitOf n) EmptyString.
Proof.
  intros Hn. assert (E : n = Z.of_nat (Z.to_nat n)) by lia.
  rewrite E. assert (Hm : (Z.to_nat n <= 9)%nat) by lia.
  generalize dependent (Z.to_nat n). intros m _ Hm.
  do 10 (destruct m as [|m]; [vm_compute; reflexivity|]). lia.
Qed.

Lemma string_of_Z_two_digits (n : Z) :
  (10 <= n <= 99)%Z ->
  string_of_Z n
  = String (digitOf (n / 10)) (String (digitOf (n mod 10)) EmptyString).
Proof.
  intros Hn. assert (E : n = Z.of_nat (Z.to_nat n)) by lia.
  rewrite E. assert (Hm : (10 <= Z.to_nat n <= 99)%nat) by lia.
  generalize dependent (Z.to_nat n). intros m _ Hm.
  do 100 (destruct m as [|m]; [first [lia|vm_compute; reflexivity]|]). lia.
Qed.

Lemma digitOf_isDigit (n : Z) : (0 <= n <= 9)%Z -> isDigit (digitOf n) = true.
Proof.
  intros Hn. unfold isDigit, digitOf.
  rewrite nat_ascii_embedding by lia.
  apply andb_true_intro. split; apply Nat.leb_le; lia.
Qed.

Lemma digitOf_inj (a b : Z) :
  (0 <= a <= 9)%Z -> (0 <= b <= 9)%Z -> digitOf a = digitOf b -> a = b.
Proof.
  intros Ha Hb E. apply (f_equal nat_of_ascii) in E. unfold digitOf in E.
  rewrite !nat_ascii_embedding in E by lia. lia.
Qed.

(** The ten digits of the code of a cell. *)
Definition codeDigits (K J : Z) : list Z :=
  [ K / 320 / 10; (K / 320) mod 10;
    (J / 320 - 100) / 10; (J / 320 - 100) mod 10;
    (K / 40) mod 8; (J / 40) mod 8; (K / 4) mod 10; (J / 4) mod 10;
    (K / 2) mod 2 * 2 + (J / 2) mod 2 + 1; K mod 2 * 2 + J mod 2 + 1 ]%Z.

(** The rows and columns whose two primary indices have two digits:
    latitudes from 6 2/3 to 66 2/3 degrees and longitudes from 110 to
    200 degrees. *)
Definition twoDigitCell (K J : Z) : Prop :=
  (3200 <= K < 32000 /\ 35200 <= J < 64000)%Z.

Lemma codeDigits_range (K J : Z) :
  twoDigitCell K J -> Forall (fun d => (0 <= d <= 9)%Z) (codeDigits K J).
Proof.
  intros [HK HJ]. unfold codeDigits.
  repeat constructor; Z.div_mod_to_equations; lia.
Qed.

Lemma cellCode_digits (K J : Z) :
  twoDigitCell K J ->
  cellCode K J = string_of_list_ascii (map digitOf (codeDigits K J)).
Proof.
  intros [HK HJ]. unfold cellCode, codeDigits.
  rewrite (string_of_Z_two_digits (K / 320))
    by (Z.div_mod_to_equations; lia).
  rewrite (string_of_Z_two_digits (J / 320 - 100))
    by (Z.div_mod_to_equations; lia).
  rewrite !string_of_Z_digit by (Z.div_mod_to_equations; lia).
  reflexivity.
Qed.

Lemma cellCode_inj (K J K' J' : Z) :
  twoDigitCell K J -> twoDigitCell K' J' ->
  cellCode K J = cellCode K' J' -> K = K' /\ J = J'.
Proof.
  intros H1 H2 E. rewrite !cellCode_digits in E by assumption.
  apply (f_equal list_ascii_of_string) in E.
  rewrite !list_ascii_of_string_of_list_ascii in E.
  pose proof (codeDigits_range K J H1) as R1.
  pose proof (codeDigits_range K' J' H2) as R2.
  unfold codeDigits in *. cbn [map] in E.
  repeat match goal with
    | H : Forall _ (_ :: _) |- _ => apply Forall_cons_1 in H; destruct H as [? H]
    end.
  injection E as E1 E2 E3 E4 E5 E6 E7 E8 E9 E10.
  apply digitOf_inj in E1, E2, E3, E4, E5, E6, E7, E8, E9, E10; try assumption.
  destruct (cell_digits K) as (Kr & Kt & Kh & Kq).
  destruct (cell_digits J) as (Js & Ju & Jh & Jq).
  destruct (cell_digits K') as (Kr' & Kt' & Kh' & Kq').
  destruct (cell_digits J') as (Js' & Ju' & Jh' & Jq').
  pose proof (Z.mod_pos_bound (K / 2) 2 ltac:(lia)).
  pose proof (Z.mod_pos_bound (K' / 2) 2 ltac:(lia)).
  pose proof (Z.mod_pos_bound (J / 2) 2 ltac:(lia)).
  pose proof (Z.mod_pos_bound (J' / 2) 2 ltac:(lia)).
  pose proof (Z.mod_pos_bound K 2 ltac:(lia)).
  pose proof (Z.mod_pos_bound K' 2 ltac:(lia)).
  pose proof (Z.mod_pos_bound J 2 ltac:(lia)).
  pose proof (Z.mod_pos_bound J' 2 ltac:(lia)).
  pose proof (Z.div_mod (K / 320) 10 ltac:(lia)).
  pose proof (Z.div_mod (K' / 320) 10 ltac:(lia)).
  pose proof (Z.div_mod (J / 320 - 100) 10 ltac:(lia)).
  pose proof (Z.div_mod (J' / 320 - 100) 10 ltac:(lia)).
  split; lia.
Qed.

Lemma length_string_of_list_ascii (l : list ascii) :
  String.length (string_of_list_ascii l) = length l.
Proof. induction l as [|c l IH]; simpl; congruence. Qed.

Lemma isPointInJapan_Q (lon lat : Q) :
  isPointInJapan (lon, lat) = true
  <-> ((12293 # 100) <= lon <= (15399 # 100))
      /\ ((2404 # 100) <= lat <= (4595 # 100)).
Proof.
  unfold isPointInJapan. rewrite !andb_true_iff.
  change (@geb Q Q_JSNumber) with (fun a b => Qle_bool b a).
  change (@leb Q Q_JSNumber) with Qle_bool. cbv beta.
  rewrite !Qle_bool_iff.
  change (minLon JAPAN_BOUNDS) with (12293 # 100).
  change (maxLon JAPAN_BOUNDS) with (15399 # 100).
  change (minLat JAPAN_BOUNDS) with (2404 # 100).
  change (maxLat JAPAN_BOUNDS) with (4595 # 100).
  tauto.
Qed.

Lemma Qfloor_bounds (x : Q) (lo hi : Z) :
  inject_Z lo <= x -> x < inject_Z hi -> (lo <= Qfloor x < hi)%Z.
Proof.
  intros Hlo Hhi. pose proof (Qfloor_le x) as H1. pose proof (Qlt_floor x) as H2.
  rewrite inject_Z_plus in H2. change (inject_Z 1) with 1 in H2.
  split.
  - assert (lo < Qfloor x + 1)%Z; [|lia].
    rewrite Zlt_Qlt, inject_Z_plus. change (inject_Z 1) with 1. lra.
  - rewrite Zlt_Qlt. lra.
Qed.

Lemma inJapan_twoDigitCell (lon lat : Q) :
  isPointInJapan (lon, lat) = true ->
  twoDigitCell (Qfloor (lat * 480)) (Qfloor (lon * 320)).
Proof.
  rewrite isPointInJapan_Q. intros [Hlon Hlat]. split.
  - assert (11539 <= Qfloor (lat * 480) < 22057)%Z; [|lia].
    apply Qfloor_bounds.
    + change (inject_Z 11539) with 11539. lra.
    + change (inject_Z 22057) with 22057. lra.
  - assert (39337 <= Qfloor (lon * 320) < 49277)%Z; [|lia].
    apply Qfloor_bounds.
    + change (inject_Z 39337) with 39337. lra.
    + change (inject_Z 49277) with 49277. lra.
Qed.

Lemma cellIndex_value (lat lon : Q) :
  cellIndex lat lon = (Qfloor (lat * 480), Qfloor (lon * 320)).
Proof.
  unfold cellIndex. f_equal; apply Qfloor_comp; field.
Qed.

End CodecQ.




(** ** GridTiler and MeshCodec together *)

Section GridCodecQ.
Local Open Scope Q_scope.

Lemma buildMeshCells_elem (MAX : option Q) (b : BBox Q) (cell : MeshCell Q) :
  cell ∈ buildMeshCells MAX b
  <-> exists bounded r c,
        intersectBbox b JAPAN_BOUNDS = Some bounded
        /\ exceeds (gridTotal bounded) MAX = false
        /\ (rowLo bounded <= r < rowHi bounded)%Z
        /\ (colLo bounded <= c < colHi bounded)%Z
        /\ cell = cellOf bounded r c.
Proof.
  unfold buildMeshCells.
  destruct (intersectBbox b JAPAN_BOUNDS) as [bounded|] eqn:Hb.
  - destruct (exceeds (gridTotal bounded) MAX) eqn:Hex.
    + split; [intros Hin; inversion Hin|].
      intros (b' & r & c & [= <-] & Hex' & _). congruence.
    + rewrite gridRows_value, gridCols_value, gridCells_elem. split.
      * intros (r & c & Hr & Hc & ->). exists bounded, r, c. auto.
      * intros (b' & r & c & [= <-] & _ & Hr & Hc & ->). eauto.
  - split; [intros Hin; inversion Hin|].
    intros (b' & r & c & [=] & _).
Qed.

(** The centre of the cell in row [r] and column [c] lies in that row
    and column. *)
Lemma cellOf_meshId (b : BBox Q) (r c : Z) :
  (rowLo b <= r)%Z -> (colLo b <= c)%Z ->
  meshId (cellOf b r c) = cellCode r c.
Proof.
  intros Hr Hc. unfold cellOf, meshCellAt. cbv zeta. cbn [meshId].
  rewrite meshCode250_cellCode. f_equal.
  - apply Qfloor_unique.
    + change (@div Q _) with Qdiv. change (@add Q _) with Qplus.
      change (@ofZ Q _) with inject_Z.
      rewrite latSec_at, latStep_value.
      replace (rowLo b + Z.of_nat (Z.to_nat (r - rowLo b)))%Z with r by lia.
      change (inject_Z 3600) with 3600. change (inject_Z 2) with 2.
      assert (E : (inject_Z r * (75 # 10) + (75 # 10) / 2) / 3600 * 480
                  == inject_Z r + (1 # 2)) by field.
      rewrite E. lra.
    + change (@div Q _) with Qdiv. change (@add Q _) with Qplus.
      change (@ofZ Q _) with inject_Z.
      rewrite latSec_at, latStep_value.
      replace (rowLo b + Z.of_nat (Z.to_nat (r - rowLo b)))%Z with r by lia.
      change (inject_Z 3600) with 3600. change (inject_Z 2) with 2.
      assert (E : (inject_Z r * (75 # 10) + (75 # 10) / 2) / 3600 * 480
                  == inject_Z r + (1 # 2)) by field.
      rewrite E. lra.
  - apply Qfloor_unique.
    + change (@div Q _) with Qdiv. change (@add Q _) with Qplus.
      change (@ofZ Q _) with inject_Z.
      rewrite lonSec_at, lonStep_value.
      replace (colLo b + Z.of_nat (Z.to_nat (c - colLo b)))%Z with c by lia.
      change (inject_Z 3600) with 3600. change (inject_Z 2) with 2.
      assert (E : (inject_Z c * (1125 # 100) + (1125 # 100) / 2) / 3600 * 320
                  == inject_Z c + (1 # 2)) by field.
      rewrite E. lra.
    + change (@div Q _) with Qdiv. change (@add Q _) with Qplus.
      change (@ofZ Q _) with inject_Z.
      rewrite lonSec_at, lonStep_value.
      replace (colLo b + Z.of_nat (Z.to_nat (c - colLo b)))%Z with c by lia.
      change (inject_Z 3600) with 3600. change (inject_Z 2) with 2.
      assert (E : (inject_Z c * (1125 # 100) + (1125 # 100) / 2) / 3600 * 320
                  == inject_Z c + (1 # 2)) by field.
      rewrite E. lra.
Qed.


(** A point of the half-open box of a cell lies in the row and the
    column of the cell. *)
Lemma cellOf_point (b : BBox Q) (r c : Z) (lat lon : Q) :
  (rowLo b <= r)%Z -> (colLo b <= c)%Z ->
  minLat (bbox (cellOf b r c)) <= lat < maxLat (bbox (cellOf b r c)) ->
  minLon (bbox (cellOf b r c)) <= lon < maxLon (bbox (cellOf b r c)) ->
  Qfloor (lat * 480) = r /\ Qfloor (lon * 320) = c.
Proof.
  intros Hr Hc Hlat Hlon.
  destruct (cellOf_bbox b r c Hr Hc) as (E1 & E2 & E3 & E4).
  rewrite E1, E2 in Hlat. rewrite E3, E4 in Hlon.
  destruct Hlat as [L1 L2]. destruct Hlon as [L3 L4].
  apply (Qdiv_le_l _ _ 480) in L1; [|reflexivity].
  apply (Qdiv_lt_r _ _ 480) in L2; [|reflexivity].
  apply (Qdiv_le_l _ _ 320) in L3; [|reflexivity].
  apply (Qdiv_lt_r _ _ 320) in L4; [|reflexivity].
  split; apply Qfloor_unique; lra.
Qed.

Lemma intersectBbox_within (b bounds bounded : BBox Q) :
  intersectBbox b bounds = Some bounded ->
  minLon bounds <= minLon bounded /\ maxLon bounded <= maxLon bounds
  /\ minLat bounds <= minLat bounded /\ maxLat bounded <= maxLat bounds.
Proof.
  unfold intersectBbox. cbv zeta.
  destruct (_ || _); [discriminate|]. intros [= <-].
  cbn [minLon maxLon minLat maxLat jsmin jsmax Q_JSNumber].
  repeat split.
  - destruct (Qle_bool (minLon b) (minLon bounds)) eqn:E; [lra|].
    apply Qlt_le_weak, Qltb_lt. unfold Qltb. rewrite E. reflexivity.
  - destruct (Qle_bool (maxLon b) (maxLon bounds)) eqn:E; [|lra].
    apply Qle_bool_iff. exact E.
  - destruct (Qle_bool (minLat b) (minLat bounds)) eqn:E; [lra|].
    apply Qlt_le_weak, Qltb_lt. unfold Qltb. rewrite E. reflexivity.
  - destruct (Qle_bool (maxLat b) (maxLat bounds)) eqn:E; [|lra].
    apply Qle_bool_iff. exact E.
Qed.

(** The rows and the columns of a box clamped to the national bounding
    box. *)
Lemma japan_rows_cols (b bounded : BBox Q) :
  intersectBbox b JAPAN_BOUNDS = Some bounded ->
  (11539 <= rowLo bounded /\ rowHi bounded <= 22056
   /\ 39337 <= colLo bounded /\ colHi bounded <= 49277)%Z.
Proof.
  intros Hb. destruct (intersectBbox_within _ _ _ Hb) as (X0 & X1 & Y0 & Y1).
  change (minLon JAPAN_BOUNDS) with (12293 # 100) in X0.
  change (maxLon JAPAN_BOUNDS) with (15399 # 100) in X1.
  change (minLat JAPAN_BOUNDS) with (2404 # 100) in Y0.
  change (maxLat JAPAN_BOUNDS) with (4595 # 100) in Y1.
  unfold rowLo, rowHi, colLo, colHi. rewrite latStep_value, lonStep_value.
  repeat split.
  - change 11539%Z with (Qfloor (115392 # 10)). apply Qfloor_resp_le.
    apply Qle_shift_div_l; [reflexivity|]. lra.
  - change 22056%Z with (Qceiling 22056). apply Qceiling_resp_le.
    apply Qle_shift_div_r; [reflexivity|]. lra.
  - change 39337%Z with (Qfloor (393376 # 10)). apply Qfloor_resp_le.
    apply Qle_shift_div_l; [reflexivity|]. lra.
  - change 49277%Z with (Qceiling (492768 # 10)). apply Qceiling_resp_le.
    apply Qle_shift_div_r; [reflexivity|]. lra.
Qed.

Lemma lonLoop_length (fuel : nat) (x e lat : Q) :
  (forall j, (j < fuel)%nat -> stepN MESH_LON_STEP_SEC x j < e) ->
  length (lonLoop fuel x e lat) = fuel.
Proof.
  revert x. induction fuel as [|k IH]; intros x Hall; [reflexivity|].
  cbn [lonLoop]. change (ltb x e) with (Qltb x e).
  assert (E : Qltb x e = true) by (apply Qltb_lt, (Hall 0%nat); lia).
  rewrite E. cbn [length]. rewrite IH; [reflexivity|].
  intros j Hj. apply (Hall (S j)). lia.
Qed.

Lemma latLoop_length (fuel colFuel n : nat) (y e sLon eLon : Q) :
  (forall k, (k < fuel)%nat -> stepN MESH_LAT_STEP_SEC y k < e) ->
  (forall lat, length (lonLoop colFuel sLon eLon lat) = n) ->
  length (latLoop fuel colFuel y e sLon eLon) = (fuel * n)%nat.
Proof.
  intros Hall Hrow. revert y Hall.
  induction fuel as [|k IH]; intros y Hall; [reflexivity|].
  cbn [latLoop]. change (ltb y e) with (Qltb y e).
  assert (E : Qltb y e = true) by (apply Qltb_lt, (Hall 0%nat); lia).
  rewrite E, length_app, Hrow, IH; [reflexivity|].
  intros j Hj. apply (Hall (S j)). lia.
Qed.

Lemma gridCells_length (b : BBox Q) :
  length (gridCells (Z.to_nat (rowHi b - rowLo b))
            (Z.to_nat (colHi b - colLo b)) b)
  = (Z.to_nat (rowHi b - rowLo b) * Z.to_nat (colHi b - colLo b))%nat.
Proof.
  unfold gridCells. apply latLoop_length.
  - intros k Hk. apply latSec_below_end. lia.
  - intros lat. apply lonLoop_length.
    intros j Hj. apply lonSec_below_end. lia.
Qed.

Lemma gridTotal_value (b : BBox Q) :
  gridTotal b
  = inject_Z (rowHi b - rowLo b) * inject_Z (colHi b - colLo b).
Proof.
  pose proof (gridRows_value b) as Hr. pose proof (gridCols_value b) as Hc.
  unfold gridTotal, gridRows, gridCols in *.
  cbn [toZ ceil Q_JSNumber] in Hr, Hc. rewrite Qfloor_Z in Hr, Hc.
  cbn [ceil mul Q_JSNumber]. rewrite Hr, Hc. reflexivity.
Qed.

End GridCodecQ.




Section CodecExamples.
Local Open Scope Q_scope.




(** A box inside one cell, and a coordinate of that cell. *)
Definition oneCellBox : BBox Q :=
  mkBBox (1397601 # 10000) (356801 # 10000) (1397602 # 10000) (356802 # 10000).
Definition oneCell : MeshCell Q :=
  hd (mkMeshCell "" (mkBBox 0 0 0 0)) (buildMeshCells None oneCellBox).


End CodecExamples.

(** ** Layer names *)

Section LayerNames.

(** A character of a layer name: a lower-case letter, a digit or an
    underscore. *)
Definition nameChar (c : ascii) : Prop := isAlnum c = true \/ c = "_"%char.

Lemma collapseRuns_chars (inRun : bool) (l : list ascii) :
  Forall nameChar (collapseRuns inRun l).
Proof.
  revert inRun. induction l as [|c l IH]; intros inRun; cbn [collapseRuns].
  - constructor.
  - destruct (isAlnum c) eqn:E.
    + constructor; [left; exact E|apply IH].
    + destruct inRun; [apply IH|]. constructor; [right; reflexivity|apply IH].
Qed.

Lemma dropUnderscores_suffix (l : list ascii) :
  exists k, l = repeat "_"%char k ++ dropUnderscores l.
Proof.
  induction l as [|c l (k & IH)]; cbn [dropUnderscores].
  - exists 0%nat. reflexivity.
  - destruct (Ascii.eqb c "_") eqn:E.
    + apply Ascii.eqb_eq in E as ->. exists (S k). cbn [repeat app].
      f_equal. exact IH.
    + exists 0%nat. reflexivity.
Qed.

Lemma dropUnderscores_head (l : list ascii) (c : ascii) (r : list ascii) :
  dropUnderscores l = c :: r -> c <> "_"%char.
Proof.
  induction l as [|x l IH]; cbn [dropUnderscores]; [discriminate|].
  destruct (Ascii.eqb x "_") eqn:E; [exact IH|].
  intros [= -> _]. apply Ascii.eqb_neq. exact E.
Qed.

Lemma dropUnderscores_chars (l : list ascii) :
  Forall nameChar l -> Forall nameChar (dropUnderscores l).
Proof.
  intros Hl. destruct (dropUnderscores_suffix l) as (k & E).
  rewrite E in Hl. apply Forall_app in Hl as [_ Hl]. exact Hl.
Qed.

(** Dropping the underscores at the end keeps the first character when
    it is not an underscore. *)
Lemma dropUnderscores_rev_head (c : ascii) (r : list ascii) :
  c <> "_"%char ->
  exists r', rev (dropUnderscores (rev (c :: r))) = c :: r'.
Proof.
  intros Hc. destruct (dropUnderscores_suffix (rev (c :: r))) as (k & E).
  apply (f_equal (@rev ascii)) in E. rewrite rev_involutive, rev_app_distr in E.
  destruct (rev (dropUnderscores (rev (c :: r)))) as [|x r'] eqn:Er.
  - exfalso. cbn [app] in E.
    assert (Hin : c ∈ rev (repeat "_"%char k)) by (rewrite <- E; left).
    apply list_elem_of_In, in_rev, repeat_spec in Hin. contradiction.
  - cbn [app] in E. injection E as -> _. exists r'. reflexivity.
Qed.

Lemma isLetter_isAlnum (c : ascii) : isLetter c = true -> isAlnum c = true.
Proof. unfold isAlnum. intros ->. reflexivity. Qed.

End LayerNames.

(** Whatever the file name, the layer name is not empty, starts with a
    lower-case letter and consists of lower-case letters, digits and
    underscores. *)
Theorem normalizeLayerName_shape (rawName : string) :
  exists (c : ascii) (rest : string),
    normalizeLayerName rawName = String c rest
    /\ isLetter c = true
    /\ Forall nameChar (list_ascii_of_string (normalizeLayerName rawName)).
Proof.
  unfold normalizeLayerName. cbv zeta.
  set (replaced := collapseRuns false
                     (map lowerAscii (list_ascii_of_string rawName))).
  assert (Hrep : Forall nameChar replaced) by apply collapseRuns_chars.
  assert (Hbase : Forall nameChar
                    (rev (dropUnderscores (rev (dropUnderscores replaced))))).
  { apply Forall_rev, dropUnderscores_chars, Forall_rev,
      dropUnderscores_chars, Hrep. }
  destruct (dropUnderscores replaced) as [|c0 r0] eqn:E0.
  - cbn. exists "l"%char, "ayer". split; [reflexivity|]. split; [reflexivity|].
    repeat constructor.
  - pose proof (dropUnderscores_head _ _ _ E0) as Hc0.
    destruct (dropUnderscores_rev_head c0 r0 Hc0) as (r' & Er).
    rewrite Er in Hbase |- *.
    destruct (isLetter c0) eqn:El.
    + exists c0, (string_of_list_ascii r'). split; [reflexivity|].
      split; [exact El|].
      rewrite list_ascii_of_string_of_list_ascii. exact Hbase.
    + exists "l"%char, ("ayer_" ++ string_of_list_ascii (c0 :: r'))%string.
      split; [reflexivity|]. split; [reflexivity|].
      change (list_ascii_of_string
                ("layer_" ++ string_of_list_ascii (c0 :: r'))%string)
        with ("l"%char :: "a"%char :: "y"%char :: "e"%char :: "r"%char
              :: "_"%char
              :: list_ascii_of_string (string_of_list_ascii (c0 :: r'))).
      rewrite list_ascii_of_string_of_list_ascii.
      repeat (constructor; [first [left; reflexivity|right; reflexivity]|]).
      exact Hbase.
Qed.

(** ** The mesh-presence index *)

Section IndexFacts.
Context {num props : Type}.
Implicit Types s : Store num props.

Lemma upsertMeshIndex_rows (ids : list string) s :
  point_features (upsertMeshIndex ids s) = point_features s
  /\ line_features (upsertMeshIndex ids s) = line_features s
  /\ polygon_features (upsertMeshIndex ids s) = polygon_features s
  /\ line_mesh_map (upsertMeshIndex ids s) = line_mesh_map s
  /\ polygon_mesh_map (upsertMeshIndex ids s) = polygon_mesh_map s
  /\ tables (upsertMeshIndex ids s) = tables s
  /\ layer_registry (upsertMeshIndex ids s) = layer_registry s.
Proof.
  unfold upsertMeshIndex. generalize (chunkArray ids INSERT_CHUNK_SIZE).
  intros chunks. revert s.
  induction chunks as [|c cs IH]; intros s; cbn [foldl].
  - repeat split.
  - destruct (IH (logInsert "mesh_index" (length c)
                    (setMeshIndex (foldl insertIndexRow (mesh_index s) c) s)))
      as (E1 & E2 & E3 & E4 & E5 & E6 & E7).
    rewrite E1, E2, E3, E4, E5, E6, E7. repeat split.
Qed.

End IndexFacts.

(** [upsertMeshIndex] never changes a row that the index already has
    (its flags and its layer presence are kept), gives each missing
    identifier a row with the three flags false and no layer, creates
    no row for another identifier, and leaves the tables and the
    registry as they are. *)
Theorem upsertMeshIndex_keeps_existing_rows
    (num props : Type) (meshIds : list string) (s : Store num props) :
  (forall m : string,
      mesh_index (upsertMeshIndex meshIds s) !! m
      = match mesh_index s !! m with
        | Some row => Some row
        | None => if decide (m ∈ meshIds) then Some freshIndexRow else None
        end)
  /\ point_features (upsertMeshIndex meshIds s) = point_features s
  /\ line_features (upsertMeshIndex meshIds s) = line_features s
  /\ polygon_features (upsertMeshIndex meshIds s) = polygon_features s
  /\ line_mesh_map (upsertMeshIndex meshIds s) = line_mesh_map s
  /\ polygon_mesh_map (upsertMeshIndex meshIds s) = polygon_mesh_map s
  /\ tables (upsertMeshIndex meshIds s) = tables s
  /\ layer_registry (upsertMeshIndex meshIds s) = layer_registry s.
Proof.
  split; [|apply upsertMeshIndex_rows].
  intros m.
  change (mesh_index (upsertMeshIndex meshIds s))
    with (mesh_index (erase (upsertMeshIndex meshIds s))).
  rewrite erase_upsertMeshIndex. cbn [mesh_index setMeshIndex].
  apply upsert_lookup.
Qed.

(** ** The pipeline on an example *)

(** The examples: the line layer of [tokyo.geojson] on the empty store,
    and the file ingested again without its line. *)
Lemma tokyoLines_wf : wfDef tokyoLines.
Proof.
  split; [discriminate|]. split; [|discriminate].
  intros _. eexists. reflexivity.
Qed.


Lemma indexed_emptyStore (num props : Type) :
  indexed (emptyStore : Store num props).
Proof. repeat split; constructor. Qed.

Lemma ingestFile_keeps_mesh_ids_indexed_witness :
  indexed (ingestFile (H0 := sampleTurf) ""%string None sampleFileBase
             "tokyo.geojson" [tokyoPoint; tokyoLine] emptyStore).
Proof.
  apply ingestFile_keeps_mesh_ids_indexed, indexed_emptyStore.
Defined.

Lemma ingestFile_removes_stale_layers_witness :
  let s1 := ingestFile (H0 := sampleTurf) ""%string None sampleFileBase
              "tokyo.geojson" [tokyoPoint; tokyoLine] emptyStore in
  let s2 := ingestFile (H0 := sampleTurf) ""%string None sampleFileBase
              "tokyo.geojson" [tokyoPoint] s1 in
  layer_registry s1 !! "tokyo_lines"%string = Some (registryRowOf tokyoLines)
  /\ layer_registry s2 !! "tokyo_lines"%string = None
  /\ noRowsOf "tokyo_lines" s2.
Proof.
  intros s1 s2. subst s2.
  assert (E : layer_registry s1 !! "tokyo_lines"%string
              = Some (registryRowOf tokyoLines)) by (vm_compute; reflexivity).
  split; [exact E|].
  apply (proj2 (ingestFile_removes_stale_layers float string _ sampleTurf
                  ""%string None sampleFileBase "tokyo.geojson" [tokyoPoint] s1))
    with (row := registryRowOf tokyoLines).
  - vm_compute. discriminate.
  - exact E.
  - reflexivity.
  - assert (En : map layerName
                   (layerDefs (num := float) (props := string) sampleFileBase
                      "tokyo.geojson" [tokyoPoint]) = ["tokyo"%string])
      by (vm_compute; reflexivity).
    rewrite En. intros Hin. apply list_elem_of_singleton in Hin. discriminate.
Defined.
